(** * BLE log analysis scripts: a shallow embedding and its properties

  The development follows the four Python scripts of the repository:
  - [analyze_ble_logs.py] and [analyze_ble_logs_combine.py]: the log
    parser [parse_log], the per-file summary [summarize_records] and the
    combined plot [plot_combined_rssi_vs_counter];
  - [live_rssi_plot.py]: the serial reader thread [serial_reader];
  - [helper scripts/ble_logs_to_csv.py]: the CSV export [write_csv].

  Python values are modelled as follows: [int] is [Z]; [float] is an IEEE
  binary64 number ([spec_float] with precision 53 and maximal exponent
  1024); [str] is [string], a sequence of characters with code points
  0..255; an exception is a value of [exn] carried by [result]; a dict whose
  keys are fixed is a record of options, a dict read by key name is a
  [gmap]. *)

From Stdlib Require Import ZArith NArith List Ascii String Bool Lia.
From Stdlib Require Import Floats.SpecFloat Sorting.Permutation Sorting.Sorted.
From stdpp Require Import base option list strings gmap.

Local Open Scope string_scope.
Local Open Scope list_scope.
Local Open Scope Z_scope.

(** ** Python runtime: exceptions, strings, regular expressions, numbers *)

Module Py.

Inductive exn := ValueError | IndexError | OverflowError | ZeroDivisionError.

Inductive result (A : Type) : Type :=
| Ok (a : A)
| Raise (e : exn).
Arguments Ok {A} a.
Arguments Raise {A} e.

#[global] Instance result_ret : MRet result := fun A a => Ok a.
#[global] Instance result_bind : MBind result := fun A B f m =>
  match m with
  | Ok a => f a
  | Raise e => Raise e
  end.

(** *** Characters and strings *)

(** Whitespace as [str.strip] and the pattern [\s] see it (code points
    below 256): TAB..CR, FS..US, space, NEL and NBSP. *)
Definition is_space (a : ascii) : bool :=
  let n := N_of_ascii a in
  ((9 <=? n) && (n <=? 13) || (28 <=? n) && (n <=? 32) || (n =? 133) || (n =? 160))%N.

(** [[0-9]]; below code point 256 the class [\d] has the same members. *)
Definition is_digit (a : ascii) : bool :=
  let n := N_of_ascii a in ((48 <=? n) && (n <=? 57))%N.

Definition newline : ascii := ascii_of_N 10.

Fixpoint lstrip (s : string) : string :=
  match s with
  | String a s' => if is_space a then lstrip s' else s
  | EmptyString => s
  end.

(** [rstrip] drops the trailing whitespace: a character stays when it is
    not whitespace or when something stays after it. *)
Fixpoint rstrip (s : string) : string :=
  match s with
  | String a s' =>
      match rstrip s' with
      | EmptyString => if is_space a then EmptyString else String a EmptyString
      | t => String a t
      end
  | EmptyString => EmptyString
  end.

(** [str.strip()] *)
Definition strip (s : string) : string := rstrip (lstrip s).

(** [strip_prefix p s] is what follows [p] in [s], when [s] starts with [p]. *)
Fixpoint strip_prefix (p s : string) : option string :=
  match p with
  | EmptyString => Some s
  | String a p' =>
      match s with
      | String b s' => if Ascii.eqb a b then strip_prefix p' s' else None
      | EmptyString => None
      end
  end.

(** [s.startswith(p)] *)
Definition startswith (p s : string) : bool :=
  match strip_prefix p s with Some _ => true | None => false end.

(** [os.path.basename]: what follows the last slash. *)
Fixpoint basename (path : string) : string :=
  match path with
  | EmptyString => EmptyString
  | String a rest =>
      if existsb (Ascii.eqb "/"%char) (list_ascii_of_string rest) then basename rest
      else if Ascii.eqb a "/"%char then rest else path
  end.

(** *** The regular expressions of the scripts

    Every pattern of the scripts is a sequence of literals and of greedy
    repetitions of one character class, with exactly one capturing group
    (a repetition [+] of a class). *)

Inductive cls :=
| Digit       (* [0-9], \d *)
| SignDigit   (* [-0-9] *)
| Space       (* \s *)
| Dot.        (* .  (anything but a newline) *)

Definition in_cls (c : cls) (a : ascii) : bool :=
  match c with
  | Digit => is_digit a
  | SignDigit => Ascii.eqb a "-"%char || is_digit a
  | Space => is_space a
  | Dot => negb (Ascii.eqb a newline)
  end.

Inductive atom :=
| Lit (s : string)   (* the characters of s *)
| Star (c : cls)     (* c*      *)
| Plus (c : cls)     (* c+      *)
| Group (c : cls).   (* (c+), group 1 *)

Definition regex := list atom.

(** Greedy repetition with backtracking: the continuation [k] gets the
    characters taken and the rest; the longest run is tried first, then
    shorter ones down to the empty run. *)
Fixpoint rep {A} (c : cls) (k : string -> string -> option A) (s : string)
  : option A :=
  match s with
  | String a s' =>
      if in_cls c a then
        match rep c (fun taken rest => k (String a taken) rest) s' with
        | Some x => Some x
        | None => k EmptyString s
        end
      else k EmptyString s
  | EmptyString => k EmptyString s
  end.

Definition nonempty {A} (k : string -> string -> option A)
  : string -> string -> option A :=
  fun taken rest =>
    match taken with
    | EmptyString => None
    | _ => k taken rest
    end.

(** [run p s g]: match [p] at the start of [s]; [g] is group 1 so far.
    The result is group 1 of the first successful match. *)
Fixpoint run (p : regex) (s : string) (g : string) : option string :=
  match p with
  | [] => Some g
  | Lit l :: p' =>
      match strip_prefix l s with
      | Some rest => run p' rest g
      | None => None
      end
  | Star c :: p' => rep c (fun _ rest => run p' rest g) s
  | Plus c :: p' => rep c (nonempty (fun _ rest => run p' rest g)) s
  | Group c :: p' => rep c (nonempty (fun taken rest => run p' rest taken)) s
  end.

(** [p.match(line)]: anchored at the start; [m.group(1)] when it matches. *)
Definition re_match (p : regex) (line : string) : option string :=
  run p line EmptyString.

(** [p.search(line)]: the leftmost start position that matches. *)
Fixpoint re_search (p : regex) (line : string) : option string :=
  match re_match p line with
  | Some g => Some g
  | None =>
      match line with
      | String _ rest => re_search p rest
      | EmptyString => None
      end
  end.

(** *** Integers *)

Definition digit_value (a : ascii) : Z := Z.of_N (N_of_ascii a) - 48.

Fixpoint digits_value (acc : Z) (s : string) : Z :=
  match s with
  | String a s' => digits_value (10 * acc + digit_value a) s'
  | EmptyString => acc
  end.

Definition all_digits (s : string) : bool :=
  forallb is_digit (list_ascii_of_string s).

(** The interpreter's limit on the number of digits of a string that [int]
    converts: [sys.int_info.default_max_str_digits], which is 4300 in
    CPython 3.11 and later and in the security releases of 3.7 to 3.10.
    Every digit counts, leading zeros too; the sign does not. *)
Definition max_str_digits : Z := 4300.

Definition within_limit (digits : string) : bool :=
  Z.of_nat (String.length digits) <=? max_str_digits.

(** [int(s)] for a string over the characters [-0-9] (the only strings the
    scripts convert): an optional minus sign and at least one digit, and
    no more digits than the limit; anything else raises [ValueError]. *)
Definition int (s : string) : result Z :=
  match s with
  | EmptyString => Raise ValueError
  | String a s' =>
      if Ascii.eqb a "-"%char then
        match s' with
        | EmptyString => Raise ValueError
        | _ =>
            if all_digits s' && within_limit s' then Ok (- digits_value 0 s')
            else Raise ValueError
        end
      else
        if all_digits s && within_limit s then Ok (digits_value 0 s)
        else Raise ValueError
  end.

(** *** Floats (IEEE binary64) *)

Definition float := spec_float.
Definition prec : Z := 53.
Definition emax : Z := 1024.

Definition nan : float := S754_nan.

Definition is_nan (x : float) : bool :=
  match x with S754_nan => true | _ => false end.

(** An integer as an unrounded dyadic number. *)
Definition exact (z : Z) : float :=
  match z with
  | Z0 => S754_zero false
  | Zpos p => S754_finite false p 0
  | Zneg p => S754_finite true p 0
  end.

Definition finite_or_overflow (x : float) : result float :=
  match x with
  | S754_infinity _ => Raise OverflowError
  | _ => Ok x
  end.

(** [float(z)]: rounded to nearest even; [OverflowError] beyond the range. *)
Definition float_of_int (z : Z) : result float :=
  finite_or_overflow (binary_normalize prec emax z 0 false).

(** A float literal with an integral value, such as [100.0]. *)
Definition lit (z : Z) : float := binary_normalize prec emax z 0 false.

(** [a / b] on two ints: the quotient rounded once to nearest even. *)
Definition int_truediv (a b : Z) : result float :=
  if b =? 0 then Raise ZeroDivisionError
  else finite_or_overflow (SFdiv prec emax (exact a) (exact b)).

(** [x * y] on floats. *)
Definition float_mul (x y : float) : float := SFmul prec emax x y.

(** [x / y] on floats. *)
Definition float_div (x y : float) : result float :=
  match y with
  | S754_zero _ => Raise ZeroDivisionError
  | _ => Ok (SFdiv prec emax x y)
  end.

(** [a / y] with an int on the left: the int is converted first. *)
Definition int_div_float (a : Z) (y : float) : result float :=
  x ← float_of_int a; float_div x y.

End Py.

Import Py.

(** ** The log parser and the summary ([analyze_ble_logs.py],
     [analyze_ble_logs_combine.py]) *)

Module Analyze.

(** The dict that [parse_log] builds for one packet.  The key
    ["scan_cycle"] is there from the start (its value may be Python's
    [None]); every other key is absent until it is written. *)
Record record := {
  file : option string;
  scan_cycle : option Z;
  rx_unix_ms : option Z;
  tx_counter : option Z;
  tx_unix_ms : option Z;
  delta_ms : option Z;
  rssi_dbm : option Z
}.

(** [{"scan_cycle": scan_cycle}] *)
Definition new_record (sc : option Z) : record :=
  {| file := None; scan_cycle := sc; rx_unix_ms := None; tx_counter := None;
     tx_unix_ms := None; delta_ms := None; rssi_dbm := None |}.

Definition set_file (v : string) (r : record) : record :=
  {| file := Some v; scan_cycle := scan_cycle r; rx_unix_ms := rx_unix_ms r;
     tx_counter := tx_counter r; tx_unix_ms := tx_unix_ms r;
     delta_ms := delta_ms r; rssi_dbm := rssi_dbm r |}.

Definition set_scan_cycle (v : option Z) (r : record) : record :=
  {| file := file r; scan_cycle := v; rx_unix_ms := rx_unix_ms r;
     tx_counter := tx_counter r; tx_unix_ms := tx_unix_ms r;
     delta_ms := delta_ms r; rssi_dbm := rssi_dbm r |}.

(** The five keys that a log line can write. *)
Inductive field := RxUnixMs | TxCounter | TxUnixMs | DeltaMs | RssiDbm.

(** [current[key] = v] *)
Definition write (f : field) (v : Z) (r : record) : record :=
  match f with
  | RxUnixMs =>
      {| file := file r; scan_cycle := scan_cycle r; rx_unix_ms := Some v;
         tx_counter := tx_counter r; tx_unix_ms := tx_unix_ms r;
         delta_ms := delta_ms r; rssi_dbm := rssi_dbm r |}
  | TxCounter =>
      {| file := file r; scan_cycle := scan_cycle r; rx_unix_ms := rx_unix_ms r;
         tx_counter := Some v; tx_unix_ms := tx_unix_ms r;
         delta_ms := delta_ms r; rssi_dbm := rssi_dbm r |}
  | TxUnixMs =>
      {| file := file r; scan_cycle := scan_cycle r; rx_unix_ms := rx_unix_ms r;
         tx_counter := tx_counter r; tx_unix_ms := Some v;
         delta_ms := delta_ms r; rssi_dbm := rssi_dbm r |}
  | DeltaMs =>
      {| file := file r; scan_cycle := scan_cycle r; rx_unix_ms := rx_unix_ms r;
         tx_counter := tx_counter r; tx_unix_ms := tx_unix_ms r;
         delta_ms := Some v; rssi_dbm := rssi_dbm r |}
  | RssiDbm =>
      {| file := file r; scan_cycle := scan_cycle r; rx_unix_ms := rx_unix_ms r;
         tx_counter := tx_counter r; tx_unix_ms := tx_unix_ms r;
         delta_ms := delta_ms r; rssi_dbm := Some v |}
  end.

(** ["rssi_dbm" in r] *)
Definition has_rssi (r : record) : bool :=
  match rssi_dbm r with Some _ => true | None => false end.

(** The compiled patterns of [parse_log]. *)
Definition scan_start_re : regex :=
  [Lit "=== Scan cycle #"; Group Digit; Lit " START"].
Definition rx_unix_re : regex :=
  [Lit "RX Unix ms (ESP32):"; Star Space; Group Digit].
Definition tx_counter_re : regex :=
  [Lit "TX counter (payload):"; Star Space; Group Digit].
Definition tx_unix_re : regex :=
  [Lit "TX Unix ms (payload):"; Star Space; Group Digit].
Definition delta_re : regex :=
  [Lit "Delta = "; Star Dot; Lit ":"; Star Space; Group SignDigit;
   Plus Space; Lit "ms"].
Definition rssi_re : regex :=
  [Lit "RSSI:"; Star Space; Group SignDigit; Star Space; Lit "dBm"].

Definition block_start : string := "=== TARGET BLE DEVICE DETECTED ===".

(** The five field patterns in the order in which the loop body tries
    them, each with the key it writes. *)
Definition pattern_of (f : field) : regex :=
  match f with
  | RxUnixMs => rx_unix_re
  | TxCounter => tx_counter_re
  | TxUnixMs => tx_unix_re
  | DeltaMs => delta_re
  | RssiDbm => rssi_re
  end.

Definition fields_in_order : list field :=
  [RxUnixMs; TxCounter; TxUnixMs; DeltaMs; RssiDbm].

(** The local variables of [parse_log]. *)
Record pstate := {
  st_records : list record;
  st_scan_cycle : option Z;
  st_current : option record
}.

Definition init : pstate :=
  {| st_records := []; st_scan_cycle := None; st_current := None |}.

(** The three statements that finish a record:
    [current["file"] = os.path.basename(path)],
    [current["scan_cycle"] = scan_cycle], [records.append(current)]. *)
Definition flush (path : string) (st : pstate) (cur : record) : list record :=
  st_records st ++ [set_scan_cycle (st_scan_cycle st) (set_file (basename path) cur)].

(** [current[key] = int(m.group(1))], then [continue]. *)
Definition write_field (st : pstate) (cur : record) (f : field) (g : string)
  : result pstate :=
  v ← int g;
  Ok {| st_records := st_records st; st_scan_cycle := st_scan_cycle st;
        st_current := Some (write f v cur) |}.

(** One turn of the loop [for raw_line in f].  A dict [current] that is
    not [None] is never empty (it has the key ["scan_cycle"]), so the test
    [current and "rssi_dbm" in current] is the test for the key. *)
Definition parse_line (path : string) (st : pstate) (raw_line : string)
  : result pstate :=
  let line := strip raw_line in
  match re_match scan_start_re line with
  | Some g =>
      v ← int g;
      Ok {| st_records := st_records st; st_scan_cycle := Some v;
            st_current := st_current st |}
  | None =>
  if startswith block_start line then
    Ok {| st_records :=
            match st_current st with
            | Some cur => if has_rssi cur then flush path st cur else st_records st
            | None => st_records st
            end;
          st_scan_cycle := st_scan_cycle st;
          st_current := Some (new_record (st_scan_cycle st)) |}
  else
  match st_current st with
  | None => Ok st
  | Some cur =>
  match re_match rx_unix_re line with
  | Some g => write_field st cur RxUnixMs g
  | None =>
  match re_match tx_counter_re line with
  | Some g => write_field st cur TxCounter g
  | None =>
  match re_match tx_unix_re line with
  | Some g => write_field st cur TxUnixMs g
  | None =>
  match re_match delta_re line with
  | Some g => write_field st cur DeltaMs g
  | None =>
  match re_match rssi_re line with
  | Some g => write_field st cur RssiDbm g
  | None =>
  if String.eqb line "" && has_rssi cur then
    Ok {| st_records := flush path st cur; st_scan_cycle := st_scan_cycle st;
          st_current := None |}
  else Ok st
  end end end end end end end.

(** The loop over the lines of the file. *)
Fixpoint parse_lines (path : string) (st : pstate) (lines : list string)
  : result pstate :=
  match lines with
  | [] => Ok st
  | raw_line :: rest => st' ← parse_line path st raw_line; parse_lines path st' rest
  end.

(** The flush after the loop, and [return records]. *)
Definition finish (path : string) (st : pstate) : list record :=
  match st_current st with
  | Some cur => if has_rssi cur then flush path st cur else st_records st
  | None => st_records st
  end.

(** [parse_log(path)], on the lines that iterating over the file gives. *)
Definition parse_log (path : string) (lines : list string) : result (list record) :=
  st ← parse_lines path init lines; Ok (finish path st).

(** *** The body shared by the two [summarize_records]

    After their test for an empty list, the functions of
    [analyze_ble_logs_combine.py] (lines 109-133) and of
    [analyze_ble_logs.py] (lines 107-135) run the same statements; the
    second one fixes [expected_count = 200] and also computes
    [expected_span], which nothing reads. *)

(** [lambda r: r.get("tx_unix_ms", 0)] *)
Definition sort_key (r : record) : Z := default 0 (tx_unix_ms r).

(** [sorted(records, key=...)] is the stable sort by the key: records
    with equal keys keep their order.  [insert_by_key r l] puts [r], which came
    before every element of [l], in front of the first element whose key
    is not smaller. *)
Fixpoint insert_by_key (r : record) (l : list record) : list record :=
  match l with
  | [] => [r]
  | x :: l' => if sort_key r <=? sort_key x then r :: l else x :: insert_by_key r l'
  end.

Definition sorted (records : list record) : list record :=
  foldr insert_by_key [] records.

(** [sum(l)], [min(l) if l else None], [max(l) if l else None] *)
Definition sum (l : list Z) : Z := foldr Z.add 0 l.

Definition min_or_none (l : list Z) : option Z :=
  match l with
  | [] => None
  | x :: l' => Some (foldl Z.min x l')
  end.

Definition max_or_none (l : list Z) : option Z :=
  match l with
  | [] => None
  | x :: l' => Some (foldl Z.max x l')
  end.

(** [sum(l) / len(l) if l else float("nan")] *)
Definition mean_or_nan (l : list Z) : result float :=
  match l with
  | [] => Ok nan
  | _ => int_truediv (sum l) (Z.of_nat (length l))
  end.

(** [l[0]] and [l[-1]] *)
Definition item_first (l : list Z) : result Z :=
  match l with
  | [] => Raise IndexError
  | x :: _ => Ok x
  end.

Definition item_last (l : list Z) : result Z :=
  match last l with
  | None => Raise IndexError
  | Some x => Ok x
  end.

(** The truth value of [r.get("tx_unix_ms")]: [None] and [0] are false. *)
Definition truthy (o : option Z) : bool :=
  match o with
  | Some v => negb (v =? 0)
  | None => false
  end.

(** What the summary block prints. *)
Record summary := {
  n : Z;
  first_counter : Z;
  last_counter : Z;
  loss_count : Z;
  loss_pct : float;
  duration_s : float;
  mean_rssi : float;
  min_rssi : option Z;
  max_rssi : option Z;
  mean_delta : float;
  min_delta : option Z;
  max_delta : option Z
}.

(** [(loss_count / expected_count * 100.0) if expected_count > 0 else nan] *)
Definition loss_pct_of (loss_count expected_count : Z) : result float :=
  if expected_count >? 0 then
    q ← int_truediv loss_count expected_count; Ok (float_mul q (lit 100))
  else Ok nan.

(** [(last_tx - first_tx) / 1000.0 if first_tx and last_tx else nan] *)
Definition duration_of (first_tx last_tx : option Z) : result float :=
  if truthy first_tx && truthy last_tx then
    int_div_float (default 0 last_tx - default 0 first_tx) (lit 1000)
  else Ok nan.

(** The statements from the sort to the last assignment, in their order;
    [records] is not empty here, so [records_sorted[0]] and
    [records_sorted[-1]] exist. *)
Definition summary_of (records : list record) (expected_count : Z)
  : result summary :=
  let records_sorted := sorted records in
  let rssi_vals := omap rssi_dbm records_sorted in
  let delta_vals := omap delta_ms records_sorted in
  let counters := omap tx_counter records_sorted in
  let n := Z.of_nat (length records_sorted) in
  mean_rssi ← mean_or_nan rssi_vals;
  mean_delta ← mean_or_nan delta_vals;
  first_counter ← item_first counters;
  last_counter ← item_last counters;
  let loss_count := Z.max (expected_count - n) 0 in
  loss_pct ← loss_pct_of loss_count expected_count;
  let first_tx := head records_sorted ≫= tx_unix_ms in
  let last_tx := last records_sorted ≫= tx_unix_ms in
  duration_s ← duration_of first_tx last_tx;
  Ok {| n := n; first_counter := first_counter; last_counter := last_counter;
        loss_count := loss_count; loss_pct := loss_pct;
        duration_s := duration_s;
        mean_rssi := mean_rssi; min_rssi := min_or_none rssi_vals;
        max_rssi := max_or_none rssi_vals;
        mean_delta := mean_delta; min_delta := min_or_none delta_vals;
        max_delta := max_or_none delta_vals |}.

(** What [summarize_records] prints: the "No packets found" notice or the
    summary block. *)
Inductive report :=
| NoPackets
| Summary (s : summary).

End Analyze.

(** [analyze_ble_logs.py] *)
Module AnalyzeBleLogs.
Import Analyze.

(** [summarize_records(records, label)]: prints, returns [None]. *)
Definition summarize_records (records : list record) : result report :=
  match records with
  | [] => Ok NoPackets
  | _ => s ← summary_of records 200; Ok (Summary s)
  end.

End AnalyzeBleLogs.

(** [analyze_ble_logs_combine.py] *)
Module AnalyzeBleLogsCombine.
Import Analyze.

(** [summarize_records(records, label, expected_count)]: what it prints,
    and the tuple [(n_packets, mean_rssi, loss_count, loss_pct)] that it
    returns. *)
Definition summarize_records (records : list record) (expected_count : Z)
  : result (report * (Z * float * Z * float)) :=
  match records with
  | [] => Ok (NoPackets, (0, nan, expected_count, lit 100))
  | _ =>
      s ← summary_of records expected_count;
      Ok (Summary s, (n s, mean_rssi s, loss_count s, loss_pct s))
  end.

(** One entry of [all_sequences]: [(label, n_packets, x_list, y_list)]. *)
Definition sequence : Type := string * Z * list Z * list Z.

(** The loop of [plot_combined_rssi_vs_counter]: the [(xs, y_list)] given
    to [plt.plot], one per entry, with [current_offset] threaded. *)
Fixpoint plot_loop (current_offset : Z) (all_sequences : list sequence)
  : list (list Z * list Z) :=
  match all_sequences with
  | [] => []
  | (_, _, x_list, y_list) :: rest =>
      let xs := map (fun i => current_offset + Z.of_nat i) (seq 0 (length x_list)) in
      (xs, y_list) ::
        plot_loop (match last xs with
                   | Some x => x + 5
                   | None => current_offset
                   end) rest
  end.

Definition plot_combined_rssi_vs_counter (all_sequences : list sequence)
  : list (list Z * list Z) :=
  plot_loop 0 all_sequences.

End AnalyzeBleLogsCombine.

(** ** The serial reader ([live_rssi_plot.py]) *)

Module Live.

Definition COUNTER_RE : regex :=
  [Lit "TX counter (payload):"; Star Space; Group Digit].
Definition RSSI_RE : regex :=
  [Lit "RSSI:"; Star Space; Group SignDigit; Star Space; Lit "dBm"].

(** The two deques shared with the plotting loop. *)
Definition buffer : Type := list Z * list Z.

(** The statements under [with data_lock]: both appends, then one
    [popleft] on each deque when [counters] got longer than [max_points]. *)
Definition append_pair (max_points : Z) (buf : buffer) (p : Z * Z) : buffer :=
  let counters := buf.1 ++ [p.1] in
  let rssis := buf.2 ++ [p.2] in
  if Z.of_nat (length counters) >? max_points
  then (tail counters, tail rssis)
  else (counters, rssis).

(** The reader's local variables and the deques. *)
Record rstate := {
  current_counter : option Z;
  current_rssi : option Z;
  buf : buffer
}.

Definition init : rstate :=
  {| current_counter := None; current_rssi := None; buf := ([], []) |}.

(** [m_c = COUNTER_RE.search(line)] and the assignment under [if m_c]. *)
Definition read_counter (st : rstate) (line : string) : result rstate :=
  match re_search COUNTER_RE line with
  | Some g =>
      v ← int g;
      Ok {| current_counter := Some v; current_rssi := current_rssi st;
            buf := buf st |}
  | None => Ok st
  end.

(** [m_r = RSSI_RE.search(line)] and the assignment under [if m_r]. *)
Definition read_rssi (st : rstate) (line : string) : result rstate :=
  match re_search RSSI_RE line with
  | Some g =>
      v ← int g;
      Ok {| current_counter := current_counter st; current_rssi := Some v;
            buf := buf st |}
  | None => Ok st
  end.

(** The append and the reset, when both values are known. *)
Definition emit (max_points : Z) (st : rstate) : rstate :=
  match current_counter st, current_rssi st with
  | Some c, Some r =>
      {| current_counter := None; current_rssi := None;
         buf := append_pair max_points (buf st) (c, r) |}
  | _, _ => st
  end.

(** One turn of the [while] loop for a read that gave bytes; [raw] is
    the text that [decode(errors="ignore")] makes of them, which can be
    empty when none of the bytes is valid.  A read that gives no bytes (a
    timeout) is skipped by [continue] before anything else happens, so such
    reads are left out of the sequence of lines.  An exception leaves the
    loop's variables as they are at the raising statement
    ([except Exception] prints and goes on). *)
Definition reader_step (max_points : Z) (st : rstate) (raw : string) : rstate :=
  let line := strip raw in
  match read_counter st line with
  | Raise _ => st
  | Ok st1 =>
      match read_rssi st1 line with
      | Raise _ => st1
      | Ok st2 => emit max_points st2
      end
  end.

(** The reader thread on the reads that gave bytes, in their order. *)
Definition serial_reader (max_points : Z) (lines : list string) : rstate :=
  foldl (reader_step max_points) init lines.

End Live.

(** ** The CSV export ([helper scripts/ble_logs_to_csv.py]) *)

Module Csv.

(** A value stored in a record dict or written to a cell. *)
Inductive value :=
| VInt (z : Z)
| VStr (s : string).

Definition header : list string :=
  ["tx_unix_ms(phone)"; "rx_unix_ms(esp32)"; "payload_counter"; "delta_ms";
   "rssi_dbm"; "tx_device_name"].

(** [{col: r.get(col, "") for col in header}] *)
Definition row_dict (r : gmap string value) : gmap string value :=
  list_to_map (map (fun col => (col, default (VStr "") (r !! col))) (rev header)).

(** [DictWriter.writerow]: the cells in the order of [fieldnames], a
    missing key giving [restval], which is the empty string. *)
Definition writerow (fieldnames : list string) (rowdict : gmap string value)
  : list value :=
  map (fun key => default (VStr "") (rowdict !! key)) fieldnames.

(** [DictWriter.writeheader] *)
Definition writeheader (fieldnames : list string) : list value :=
  map VStr fieldnames.

(** [write_csv(records, out_path)]: the rows written to the file, or
    [None] when the file is not written at all. *)
Definition write_csv (records : list (gmap string value))
  : option (list (list value)) :=
  match records with
  | [] => None
  | _ => Some (writeheader header :: map (fun r => writerow header (row_dict r)) records)
  end.

End Csv.

(** ** Concrete inputs used below *)

(** A record as [parse_log] emits it for the file [a.log], from its TX time,
  counter, delta and RSSI. *)
Definition packet (tx c d : option Z) (rssi : Z) : Analyze.record :=
{| Analyze.file := Some "a.log"; Analyze.scan_cycle := None;
   Analyze.rx_unix_ms := None; Analyze.tx_counter := c;
   Analyze.tx_unix_ms := tx; Analyze.delta_ms := d;
   Analyze.rssi_dbm := Some rssi |}.

(** 150 packets, one per 100 ms, counters from 1. *)
Definition session150 : list Analyze.record :=
map (fun i => packet (Some (1000 + 100 * Z.of_nat i)) (Some (Z.of_nat i)) None (-60))
    (seq 1 150).

(** A block that has an RSSI line and nothing else. *)
Definition rssi_only_log : list string :=
["=== TARGET BLE DEVICE DETECTED ==="; "RSSI: -60 dBm"; ""].

Import Analyze.
Import AnalyzeBleLogsCombine.

(** A record is complete when it has the key ["rssi_dbm"]. *)
Definition complete (r : record) : Prop := is_Some (rssi_dbm r).

(** The order of the sort keys. *)
Definition le_key (a b : record) : Prop := sort_key a <= sort_key b.

(** A line feed, as the lines of a text file end. *)
Definition nl : string := String newline "".

(** A log in which the second block never gets its RSSI. *)
Definition two_blocks_log : list string :=
  [block_start +:+ nl; "TX counter (payload): 1" +:+ nl; "RSSI: -48 dBm" +:+ nl;
   nl; block_start +:+ nl; "TX counter (payload): 2" +:+ nl; nl].

(** The log of the first scenario. *)
Definition scenario1_log : list string :=
  [block_start +:+ nl;
   "RX Unix ms (ESP32): 1000" +:+ nl;
   "TX counter (payload): 5" +:+ nl;
   "TX Unix ms (payload): 990" +:+ nl;
   "Delta = x: 10 ms" +:+ nl;
   "RSSI: -60 dBm" +:+ nl;
   nl].

(** ** Log lines in the format of the patterns *)

(** Every character of [s] satisfies [p]. *)
Fixpoint string_forallb (p : ascii -> bool) (s : string) : bool :=
  match s with
  | EmptyString => true
  | String a s' => p a && string_forallb p s'
  end.

(** A log line that carries the token [tok] for the field [f]; [label] is
    the free text between ["Delta = "] and the colon. *)
Definition field_line (label : string) (f : field) (tok : string) : string :=
  match f with
  | RxUnixMs => "RX Unix ms (ESP32): " +:+ tok
  | TxCounter => "TX counter (payload): " +:+ tok
  | TxUnixMs => "TX Unix ms (payload): " +:+ tok
  | DeltaMs => "Delta = " +:+ label +:+ ": " +:+ tok +:+ " ms"
  | RssiDbm => "RSSI: " +:+ tok +:+ " dBm"
  end.

(** The tokens a pattern can capture and [int] can convert: digits for the
    three unsigned fields, an optional minus sign and digits for the delta
    and the RSSI; in both cases at least one digit and no more than the
    limit of [int]. *)
Definition token_of (f : field) (tok : string) : bool :=
  match int tok with
  | Ok _ =>
      match f with
      | DeltaMs | RssiDbm => true
      | _ => all_digits tok
      end
  | Raise _ => false
  end.

(** A string of [n] characters [a]. *)
Fixpoint replicate_char (n : nat) (a : ascii) : string :=
  match n with
  | O => EmptyString
  | S n' => String a (replicate_char n' a)
  end.

(** A numeral with one digit more than [int] converts. *)
Definition long_numeral : string := replicate_char 4301 "1".

(** The integer that a token stands for. *)
Definition token_value (tok : string) : Z :=
  match int tok with Ok v => v | Raise _ => 0 end.

(** The record after the field lines [fts], written one after the other. *)
Definition write_tokens (r : record) (fts : list (field * string)) : record :=
  foldl (fun r ft => write ft.1 (token_value ft.2) r) r fts.

(** A block of the log: the block-start marker, one line per field and
    token, and a blank line; every line ends with [eol]. *)
Definition block_lines (label eol : string) (fts : list (field * string))
  : list string :=
  (block_start +:+ eol) ::
  map (fun ft => field_line label ft.1 ft.2 +:+ eol) fts ++ [eol].

(** The record is tagged with the base name of [path]. *)
Definition tagged (path : string) (r : record) : Prop :=
  file r = Some (basename path).

(** The raw line is a block-start marker. *)
Definition is_block_start (raw : string) : bool :=
  startswith block_start (strip raw).

(** The number of block-start markers among the lines. *)
Definition count_block_starts (lines : list string) : nat :=
  length (filter (fun raw => is_block_start raw = true) lines).

(** 1 when a record is open, else 0. *)
Definition open_count (st : pstate) : nat :=
  match st_current st with Some _ => 1 | None => 0 end.

(** A line that is neither a scan-cycle marker nor a block-start marker. *)
Definition plain_line (raw : string) : Prop :=
  re_match scan_start_re (strip raw) = None /\ is_block_start raw = false.

(** ** The plots and the main loop of [analyze_ble_logs_combine.py] *)

Module Plots.

(** What the functions below can raise: the exceptions of [Py],
    [KeyError] with the missing key, and, from inside the plotting library,
    an exception of any other class. *)
Inductive error :=
| PyExn (e : exn)
| KeyError (key : string)
| Other (class : string).

Inductive outcome (A : Type) : Type :=
| Done (a : A)
| Failed (e : error).
Arguments Done {A} a.
Arguments Failed {A} e.

#[global] Instance outcome_ret : MRet outcome := fun A a => Done a.
#[global] Instance outcome_bind : MBind outcome := fun A B f m =>
  match m with
  | Done a => f a
  | Failed e => Failed e
  end.

Definition of_result {A} (r : result A) : outcome A :=
  match r with
  | Ok a => Done a
  | Raise e => Failed (PyExn e)
  end.

(** [[r[key] for r in l]]: the first record without the key raises. *)
Fixpoint items (key : string) (get : record -> option Z) (l : list record)
  : outcome (list Z) :=
  match l with
  | [] => Done []
  | r :: l' =>
      match get r with
      | Some v => vs ← items key get l'; Done (v :: vs)
      | None => Failed (KeyError key)
      end
  end.

(** The calls into the plotting library that are the first to get the
    values of the records: [plt.plot(x, y, ...)] in the figure of a file,
    and [hist(values, bins=20)], called as [plt.hist] in the figure of a
    file and as [ax.hist] in the grid (pyplot's [hist] is the [hist] of the
    current axes).  Whether such a call returns or raises on its arguments
    is the library's business (for ints beyond the floats [plt.plot] raises
    [OverflowError]; when it cannot make its bins, [hist] raises
    [ValueError]), so it is a parameter of the model: a function of the
    arguments.  The other calls of the plotting functions ([plt.figure],
    the labels, [savefig], [close]) get no value of the records and are
    taken to return. *)
Record library := {
  plt_plot : list Z -> list Z -> outcome unit;
  plt_hist : list Z -> outcome unit
}.

(** A library whose calls all return. *)
Definition returning : library :=
  {| plt_plot := fun _ _ => Done tt; plt_hist := fun _ => Done tt |}.

(** [plot_rssi_vs_counter(records, out_path, title)]: the [x] and [y]
    given to [plt.plot] when the call returns, or [None] when nothing is
    drawn. *)
Definition plot_rssi_vs_counter (lib : library) (records : list record)
  : outcome (option (list Z * list Z)) :=
  match records with
  | [] => Done None
  | _ =>
      let records_sorted := sorted records in
      x ← items "tx_counter" tx_counter records_sorted;
      y ← items "rssi_dbm" rssi_dbm records_sorted;
      _ ← plt_plot lib x y;
      Done (Some (x, y))
  end.

(** [plot_rssi_hist(records, out_path, title)]: the values given to
    [plt.hist] when the call returns, or [None] when nothing is drawn. *)
Definition plot_rssi_hist (lib : library) (records : list record)
  : outcome (option (list Z)) :=
  match records with
  | [] => Done None
  | _ =>
      y ← items "rssi_dbm" rssi_dbm records;
      _ ← plt_hist lib y;
      Done (Some y)
  end.

(** The four lists that [main] fills. *)
Record collected := {
  all_line_data : list (string * Z * list Z * list Z);
  all_hist_data : list (string * list Z);
  all_mean_data : list (string * Z * float);
  all_loss_data : list (string * Z * float)
}.

Definition nothing : collected :=
  {| all_line_data := []; all_hist_data := []; all_mean_data := [];
     all_loss_data := [] |}.

(** The body of the loop of [main] for one file that exists, from the
    call of [parse_log] to the last [append]; [base] is the label that
    [main] derives from the path. *)
Definition main_file (lib : library) (expected_count : Z) (acc : collected)
    (base path : string) (lines : list string) : outcome collected :=
  records ← of_result (parse_log path lines);
  '(_, (n_packets, mean_rssi, loss_count, loss_pct)) ←
    of_result (AnalyzeBleLogsCombine.summarize_records records expected_count);
  _ ← plot_rssi_vs_counter lib records;
  _ ← plot_rssi_hist lib records;
  match records with
  | [] => Done acc
  | _ =>
      let rec_sorted := sorted records in
      xs ← items "tx_counter" tx_counter rec_sorted;
      ys ← items "rssi_dbm" rssi_dbm rec_sorted;
      let rssi_vals := omap rssi_dbm records in
      Done {| all_line_data := all_line_data acc ++ [(base, n_packets, xs, ys)];
              all_hist_data :=
                match rssi_vals with
                | [] => all_hist_data acc
                | _ => all_hist_data acc ++ [(base, rssi_vals)]
                end;
              all_mean_data :=
                if is_nan mean_rssi then all_mean_data acc
                else all_mean_data acc ++ [(base, n_packets, mean_rssi)];
              all_loss_data := all_loss_data acc ++ [(base, loss_count, loss_pct)] |}
  end.

(** The loop of [main] over the files that exist, each given by its
    label, its path and its lines. *)
Fixpoint main_loop (lib : library) (expected_count : Z) (acc : collected)
    (files : list (string * string * list string)) : outcome collected :=
  match files with
  | [] => Done acc
  | (base, path, lines) :: rest =>
      acc' ← main_file lib expected_count acc base path lines;
      main_loop lib expected_count acc' rest
  end.

(** [x - y] on floats. *)
Definition float_sub (x y : float) : float := SFsub prec emax x y.

(** The series of [plot_loss_and_receive_bars(loss_data, out_path,
    expected_count)]: labels, loss counts, loss percentages, received
    counts and received percentages; [None] when nothing is drawn. *)
Definition plot_loss_and_receive_bars (loss_data : list (string * Z * float))
    (expected_count : Z)
  : option (list string * list Z * list float * list Z * list float) :=
  match loss_data with
  | [] => None
  | _ =>
      let labels := map (fun d => d.1.1) loss_data in
      let loss_counts := map (fun d => d.1.2) loss_data in
      let loss_pcts := map (fun d => d.2) loss_data in
      let recv_counts := map (fun lc => expected_count - lc) loss_counts in
      let recv_pcts := map (fun lp => float_sub (lit 100) lp) loss_pcts in
      Some (labels, loss_counts, loss_pcts, recv_counts, recv_pcts)
  end.

End Plots.

Import Plots.

(** What [main] keeps of a file: its label and its records, when
    [parse_log] returned records. *)
Definition kept_file (f : string * string * list string)
  : option (string * list record) :=
  match parse_log f.1.2 f.2 with
  | Ok (r :: l) => Some (f.1.1, r :: l)
  | _ => None
  end.

(** ** The plotting loop of [live_rssi_plot.py] *)

Module LivePlot.

(** [min(l)] and [max(l)]: [ValueError] for an empty list. *)
Definition py_min (l : list Z) : result Z :=
  match l with
  | [] => Raise ValueError
  | x :: l' => Ok (foldl Z.min x l')
  end.

Definition py_max (l : list Z) : result Z :=
  match l with
  | [] => Raise ValueError
  | x :: l' => Ok (foldl Z.max x l')
  end.

(** The calls on the line and on the axes that get values of the deques:
    [line.set_data(x, y)], [ax.set_xlim(left, right)] and
    [ax.set_ylim(top, bottom)].  They belong to the plotting library, which
    converts its arguments to floats and can raise (for an int beyond the
    floats, [OverflowError]): whether a call returns or raises on its
    arguments is a parameter of the model. *)
Record axes := {
  set_data : list Z -> list Z -> outcome unit;
  set_xlim : Z -> Z -> outcome unit;
  set_ylim : Z -> Z -> outcome unit
}.

(** One turn of the loop of [main], from the copies of the deques taken
    under the lock to the call of [set_ylim]: the arguments given to
    [set_xlim] and to [set_ylim] when the calls return, or [None] when
    [x] is empty and nothing is called. *)
Definition axis_limits (ax : axes) (b : Live.buffer)
  : outcome (option ((Z * Z) * (Z * Z))) :=
  let x := b.1 in
  let y := b.2 in
  match x with
  | [] => Done None
  | _ =>
      _ ← set_data ax x y;
      lo ← of_result (py_min y);
      let ymin := lo - 2 in
      hi ← of_result (py_max y);
      let ymax := hi + 2 in
      xlo ← of_result (py_min x);
      xhi ← of_result (py_max x);
      _ ← set_xlim ax xlo (xhi + 1);
      _ ← set_ylim ax ymax ymin;
      Done (Some ((xlo, xhi + 1), (ymax, ymin)))
  end.

End LivePlot.

(** A line in which the reader finds neither a counter nor an RSSI. *)
Definition silent (raw : string) : Prop :=
  re_search Live.COUNTER_RE (strip raw) = None /\
  re_search Live.RSSI_RE (strip raw) = None.

(** The lines of one packet on the serial port: the counter line, lines
    without a value, the RSSI line, lines without a value. *)
Definition live_packet (eol : string)
    (p : string * string * list string * list string) : list string :=
  (field_line "" TxCounter p.1.1.1 +:+ eol) :: p.1.2 ++
  (field_line "" RssiDbm p.1.1.2 +:+ eol) :: p.2.

(** ** The log parser of [helper scripts/ble_logs_to_csv.py] *)

Module BleLogsToCsv.

Definition TX_DEVICE_NAME : string := "A72Aziz".

(** The compiled patterns of [parse_log]. *)
Definition rx_unix_re : regex :=
  [Lit "RX Unix ms (ESP32):"; Star Space; Group Digit].
Definition tx_counter_re : regex :=
  [Lit "TX counter (payload):"; Star Space; Group Digit].
Definition tx_unix_re : regex :=
  [Lit "TX Unix ms (payload):"; Star Space; Group Digit].
Definition delta_re : regex :=
  [Lit "Delta = "; Star Dot; Lit ":"; Star Space; Group SignDigit;
   Plus Space; Lit "ms"].
Definition rssi_re : regex :=
  [Lit "RSSI:"; Star Space; Group SignDigit; Star Space; Lit "dBm"].

Definition block_start : string := "=== TARGET BLE DEVICE DETECTED ===".

(** The local variables of [parse_log]; a record of the script is a dict
    from column names to values. *)
Record pstate := {
  records : list (gmap string Csv.value);
  current : option (gmap string Csv.value)
}.

Definition init : pstate := {| records := []; current := None |}.

(** ["rssi_dbm" in current] *)
Definition has_rssi (cur : gmap string Csv.value) : bool :=
  bool_decide (is_Some (cur !! "rssi_dbm")).

(** [current and "rssi_dbm" in current], for a dict [current]: an empty
    dict is false. *)
Definition nonempty_with_rssi (cur : gmap string Csv.value) : bool :=
  negb (bool_decide (cur = ∅)) && has_rssi cur.

(** [current["tx_device_name"] = TX_DEVICE_NAME], [records.append(current)] *)
Definition flush (st : pstate) (cur : gmap string Csv.value) : list (gmap string Csv.value) :=
  records st ++ [<["tx_device_name" := Csv.VStr TX_DEVICE_NAME]> cur].

(** [current[key] = int(m.group(1))], then [continue]. *)
Definition write_field (st : pstate) (cur : gmap string Csv.value) (key g : string)
  : result pstate :=
  v ← int g;
  Ok {| records := records st; current := Some (<[key := Csv.VInt v]> cur) |}.

(** One turn of the loop [for raw_line in f]. *)
Definition parse_line (st : pstate) (raw_line : string) : result pstate :=
  let line := strip raw_line in
  if startswith block_start line then
    Ok {| records :=
            match current st with
            | Some cur => if nonempty_with_rssi cur then flush st cur else records st
            | None => records st
            end;
          current := Some ∅ |}
  else
  match current st with
  | None => Ok st
  | Some cur =>
  match re_match rx_unix_re line with
  | Some g => write_field st cur "rx_unix_ms(esp32)" g
  | None =>
  match re_match tx_counter_re line with
  | Some g => write_field st cur "payload_counter" g
  | None =>
  match re_match tx_unix_re line with
  | Some g => write_field st cur "tx_unix_ms(phone)" g
  | None =>
  match re_match delta_re line with
  | Some g => write_field st cur "delta_ms" g
  | None =>
  match re_match rssi_re line with
  | Some g => write_field st cur "rssi_dbm" g
  | None =>
  if String.eqb line "" && has_rssi cur then
    Ok {| records := flush st cur; current := None |}
  else Ok st
  end end end end end end.

(** The loop over the lines of the file. *)
Fixpoint parse_lines (st : pstate) (lines : list string) : result pstate :=
  match lines with
  | [] => Ok st
  | raw_line :: rest => st' ← parse_line st raw_line; parse_lines st' rest
  end.

(** The flush after the loop, and [return records]. *)
Definition finish (st : pstate) : list (gmap string Csv.value) :=
  match current st with
  | Some cur => if nonempty_with_rssi cur then flush st cur else records st
  | None => records st
  end.

(** [parse_log(path)], on the lines that iterating over the file gives. *)
Definition parse_log (lines : list string) : result (list (gmap string Csv.value)) :=
  st ← parse_lines init lines; Ok (finish st).

(** The body of the loop of [main] for a file that exists:
    [write_csv(parse_log(path), csv_path)]. *)
Definition export (lines : list string) : result (option (list (list Csv.value))) :=
  records ← parse_log lines; Ok (Csv.write_csv records).

End BleLogsToCsv.

(** The dict of [ble_logs_to_csv.py] with the values of a record of
    [analyze_ble_logs.py], before the device name is added. *)
Definition put (key : string) (o : option Z) (d : gmap string Csv.value)
  : gmap string Csv.value :=
  match o with
  | Some v => <[key := Csv.VInt v]> d
  | None => d
  end.

Definition dict_of (r : record) : gmap string Csv.value :=
  put "rx_unix_ms(esp32)" (rx_unix_ms r)
    (put "payload_counter" (tx_counter r)
       (put "tx_unix_ms(phone)" (tx_unix_ms r)
          (put "delta_ms" (delta_ms r)
             (put "rssi_dbm" (rssi_dbm r) ∅)))).

Definition csv_record (r : record) : gmap string Csv.value :=
  <["tx_device_name" := Csv.VStr BleLogsToCsv.TX_DEVICE_NAME]> (dict_of r).

(** The column name under which the CSV script stores a field. *)
Definition column_of (f : field) : string :=
  match f with
  | RxUnixMs => "rx_unix_ms(esp32)"
  | TxCounter => "payload_counter"
  | TxUnixMs => "tx_unix_ms(phone)"
  | DeltaMs => "delta_ms"
  | RssiDbm => "rssi_dbm"
  end.

(** A cell of the CSV file for a value that may be missing. *)
Definition cell (o : option Z) : Csv.value :=
  match o with
  | Some v => Csv.VInt v
  | None => Csv.VStr ""
  end.

(** The row of the CSV file for a record. *)
Definition row_of (r : record) : list Csv.value :=
  [cell (tx_unix_ms r); cell (rx_unix_ms r); cell (tx_counter r);
   cell (delta_ms r); cell (rssi_dbm r); Csv.VStr "A72Aziz"].

(** The states of the two parsers hold the same records and the same
    open record. *)
Definition related (st : pstate) (cst : BleLogsToCsv.pstate) : Prop :=
  BleLogsToCsv.records cst = map csv_record (st_records st) /\
  BleLogsToCsv.current cst = dict_of <$> st_current st.

(** What the CSV script gives for the result of [analyze_ble_logs.py]. *)
Definition csv_of (res : result (list record))
  : result (list (gmap string Csv.value)) :=
  match res with
  | Ok records => Ok (map csv_record records)
  | Raise e => Raise e
  end.

(** A log that starts with a scan-cycle marker whose number has one digit
    more than [int] converts. *)
Definition long_marker_log : list string :=
  ["=== Scan cycle #" +:+ long_numeral +:+ " START ==="; block_start;
   "RSSI: -60 dBm"; ""].

(** The values of the records are small enough for the float
    conversions of the summary: the sums of the RSSI values and of the
    deltas are below [2^1000] and the TX times below [2^999] in absolute
    value. *)
Definition in_float_range (records : list record) : Prop :=
  Z.abs (sum (omap rssi_dbm records)) < 2 ^ 1000 /\
  Z.abs (sum (omap delta_ms records)) < 2 ^ 1000 /\
  forall r v, r ∈ records -> tx_unix_ms r = Some v -> Z.abs v < 2 ^ 999.

(** ** The grid of histograms and the end of [main]
       ([analyze_ble_logs_combine.py]) *)

Module Grid.

(** [math.ceil(x)] on a float: the least integer not below [x];
    [ValueError] for NaN, [OverflowError] for an infinity. *)
Definition ceil (x : float) : result Z :=
  match x with
  | S754_zero _ => Ok 0
  | S754_nan => Raise ValueError
  | S754_infinity _ => Raise OverflowError
  | S754_finite s m e =>
      Ok (if s then - Z.shiftl (Zpos m) e else - Z.shiftl (Zneg m) e)
  end.

(** [math.sqrt(n)] on an int: the int is converted first. *)
Definition sqrt_int (n : Z) : result float :=
  x ← float_of_int n;
  match SFsqrt prec emax x with
  | S754_nan => Raise ValueError
  | r => Ok r
  end.

(** [cols = math.ceil(math.sqrt(n))], [rows = math.ceil(n / cols)]. *)
Definition shape (n : Z) : result (Z * Z) :=
  r ← sqrt_int n;
  cols ← ceil r;
  q ← int_truediv n cols;
  rows ← ceil q;
  Ok (rows, cols).

(** The loop [for idx, (label, rssi_vals) in enumerate(hist_data)] from
    the index [idx] on: [ax = axes[idx]], which raises [IndexError] when
    [axes] has no such entry, then [ax.hist(rssi_vals, bins=20)]. *)
Fixpoint draw_axes (lib : library) (n_axes idx : Z)
    (hist_data : list (string * list Z)) : outcome unit :=
  match hist_data with
  | [] => Done tt
  | (_, rssi_vals) :: rest =>
      if idx <? n_axes then
        _ ← plt_hist lib rssi_vals;
        draw_axes lib n_axes (idx + 1) rest
      else Failed (PyExn IndexError)
  end.

(** The calls of [hist] on the series, one after the other. *)
Fixpoint hist_each (lib : library) (series : list (list Z)) : outcome unit :=
  match series with
  | [] => Done tt
  | vals :: rest => _ ← plt_hist lib vals; hist_each lib rest
  end.

(** [plot_hist_grid(hist_data, out_path)]: the rows and columns given to
    [plt.subplots], the histograms drawn on the first axes, and the
    indices of the axes that are removed; [axes] has [rows * cols]
    entries.  [None] when nothing is drawn. *)
Definition plot_hist_grid (lib : library) (hist_data : list (string * list Z))
  : outcome (option (Z * Z * list (string * list Z) * list Z)) :=
  match hist_data with
  | [] => Done None
  | _ =>
      let n := Z.of_nat (length hist_data) in
      '(rows, cols) ← of_result (shape n);
      _ ← draw_axes lib (rows * cols) 0 hist_data;
      Done (Some (rows, cols, hist_data, seqZ n (rows * cols - n)))
  end.

(** [plot_mean_rssi_bar(mean_data, out_path, expected_count)]: for each
    bar the label and the count that its tick text is made of, and the
    heights; [None] when nothing is drawn. *)
Definition plot_mean_rssi_bar (mean_data : list (string * Z * float))
  : option (list (string * Z) * list float) :=
  match mean_data with
  | [] => None
  | _ => Some (map fst mean_data, map snd mean_data)
  end.

(** The figures that [main] saves after its loop. *)
Record figures := {
  combined : option (list (list Z * list Z));
  hist_grid : option (Z * Z * list (string * list Z) * list Z);
  mean_bar : option (list (string * Z) * list float);
  loss_bar : option (list string * list Z * list float * list Z * list float)
}.

(** [main()], on the files that exist: the loop, then the four combined
    figures, each under its own test; [expected_count] is 200.  The
    combined plot and the two bar charts are given by what they draw: their
    drawing calls get indices, floats of the summaries, and the RSSI lists
    that [plt.plot] has drawn before in the figures of the files, and are
    taken to return. *)
Definition main (lib : library) (files : list (string * string * list string))
  : outcome figures :=
  let expected_count := 200 in
  acc ← main_loop lib expected_count nothing files;
  let combined :=
    if 1 <? Z.of_nat (length (all_line_data acc))
    then Some (plot_combined_rssi_vs_counter (all_line_data acc))
    else None in
  grid ← (if 1 <? Z.of_nat (length (all_hist_data acc))
          then plot_hist_grid lib (all_hist_data acc)
          else Done None);
  let mean_bar :=
    match all_mean_data acc with
    | [] => None
    | _ => plot_mean_rssi_bar (all_mean_data acc)
    end in
  let loss_bar :=
    match all_loss_data acc with
    | [] => None
    | _ => plot_loss_and_receive_bars (all_loss_data acc) expected_count
    end in
  Done {| combined := combined; hist_grid := grid; mean_bar := mean_bar;
          loss_bar := loss_bar |}.

(** The shape is right for [n] histograms: there is an axis for each, no
    row stays empty, and the grid is as close to a square as it can be. *)
Definition fits (n : Z) (rc : Z * Z) : bool :=
  let '(rows, cols) := rc in
  (n <=? rows * cols) && ((rows - 1) * cols <? n) &&
  ((cols - 1) * (cols - 1) <? n) && (n <=? cols * cols).

Definition shape_fits (n : Z) : bool :=
  match shape n with
  | Ok rc => fits n rc
  | Raise _ => false
  end.

End Grid.

(** ** The loop of [main] of [analyze_ble_logs.py] *)

(** The body of the loop for one file that exists: the summary, then the
    two plots of the file. *)
Definition analyze_file (lib : library) (path : string) (lines : list string)
  : outcome unit :=
  records ← of_result (parse_log path lines);
  _ ← of_result (AnalyzeBleLogs.summarize_records records);
  _ ← plot_rssi_vs_counter lib records;
  _ ← plot_rssi_hist lib records;
  Done tt.

(** ** Properties *)

(** *** The result monad *)

Lemma bind_Ok {A B} (m : result A) (f : A -> result B) (b : B) :
  m ≫= f = Ok b -> exists a, m = Ok a /\ f a = Ok b.
Proof. destruct m as [a|e]; simpl; [eauto | discriminate]. Qed.

Ltac inv_bind H :=
  let a := fresh "v" in
  let Ha := fresh "Hv" in
  apply bind_Ok in H; destruct H as (a & Ha & H).

Ltac inv_ok :=
  repeat match goal with
    | H : Ok _ = Ok _ |- _ => injection H as H; try subst
    | H : Raise _ = Ok _ |- _ => discriminate H
    | H : _ ≫= _ = Ok _ |- _ => inv_bind H
    end.

(** *** Floats: when a division or a conversion does not overflow *)

Lemma digits2_pos_size (p : positive) : digits2_pos p = Pos.size p.
Proof. induction p; simpl; congruence. Qed.

Lemma Zdigits2_nonneg (m : Z) : 0 <= Zdigits2 m.
Proof. destruct m; simpl; lia. Qed.

Lemma Zdigits2_gt (m : Z) : 0 <= m -> m < 2 ^ Zdigits2 m.
Proof.
  destruct m as [|p|p]; simpl; [lia| |lia]. intros _.
  rewrite digits2_pos_size. pose proof (Pos.size_gt p) as H.
  apply Pos2Z.pos_lt_pos in H. by rewrite Pos2Z.inj_pow in H.
Qed.

Lemma Zdigits2_le_of_lt_pow (m k : Z) :
  0 <= m -> 0 <= k -> m < 2 ^ k -> Zdigits2 m <= k.
Proof.
  destruct m as [|p|p]; simpl; [lia| |lia]. intros _ Hk Hlt.
  rewrite digits2_pos_size.
  destruct (Z_le_gt_dec (Z.pos (Pos.size p)) k) as [|Hgt]; [assumption|exfalso].
  pose proof (Pos.size_le p) as H. apply Pos2Z.pos_le_pos in H.
  rewrite Pos2Z.inj_pow in H. change (Z.pos 2) with 2 in H.
  replace (Z.pos (Pos.size p)) with (Z.succ (Z.pos (Pos.size p) - 1)) in H by lia.
  rewrite Z.pow_succ_r in H by lia.
  assert (2 ^ k <= 2 ^ (Z.pos (Pos.size p) - 1)) by (apply Z.pow_le_mono_r; lia).
  lia.
Qed.

Lemma shr_1_m (mrs : shr_record) :
  0 <= shr_m mrs -> shr_m (shr_1 mrs) = Z.div2 (shr_m mrs).
Proof. destruct mrs as [[|[p|p|]|p] r s]; simpl; intros; try reflexivity; lia. Qed.

Lemma Zdigits2_div2 (m : Z) :
  0 <= m -> Zdigits2 (Z.div2 m) = Z.max (Zdigits2 m - 1) 0.
Proof. destruct m as [|[p|p|]|p]; simpl; intros; lia. Qed.

Lemma iter_pos_count {A} (f : A -> A) (P : Z -> A -> Prop) :
  (forall k x, 0 <= k -> P k x -> P (k + 1) (f x)) ->
  forall p k x, 0 <= k -> P k x -> P (k + Z.pos p) (SpecFloat.iter_pos f p x).
Proof.
  intros Hf. induction p as [p IH|p IH|]; intros k x Hk HP; simpl.
  - replace (k + Z.pos p~1) with (k + 1 + Z.pos p + Z.pos p) by lia.
    apply IH; [lia|]. apply IH; [lia|]. by apply Hf.
  - replace (k + Z.pos p~0) with (k + Z.pos p + Z.pos p) by lia.
    apply IH; [lia|]. by apply IH.
  - by apply Hf.
Qed.

Lemma iter_shr_1 (p : positive) (mrs : shr_record) :
  0 <= shr_m mrs ->
  0 <= shr_m (SpecFloat.iter_pos shr_1 p mrs) /\
  Zdigits2 (shr_m (SpecFloat.iter_pos shr_1 p mrs)) <= Z.max (Zdigits2 (shr_m mrs) - Z.pos p) 0.
Proof.
  intros Hm.
  apply (iter_pos_count shr_1
           (fun k x => 0 <= shr_m x /\
                       Zdigits2 (shr_m x) <= Z.max (Zdigits2 (shr_m mrs) - k) 0)
           ) with (k := 0) (p := p) (x := mrs).
  - intros k x Hk [H0 Hd]. rewrite shr_1_m by done. split.
    + destruct (shr_m x) as [|[q|q|]|q]; simpl; lia.
    + rewrite Zdigits2_div2 by done. lia.
  - lia.
  - split; [done|]. pose proof (Zdigits2_nonneg (shr_m mrs)). lia.
Qed.

Lemma shr_fexp_spec (m e : Z) (l : location) :
  0 <= m ->
  0 <= shr_m (shr_fexp prec emax m e l).1 /\
  (shr_fexp prec emax m e l).2 = Z.max e (fexp prec emax (Zdigits2 m + e)) /\
  Zdigits2 (shr_m (shr_fexp prec emax m e l).1) + (shr_fexp prec emax m e l).2
    <= Z.max (Zdigits2 m + e) (shr_fexp prec emax m e l).2.
Proof.
  intros Hm. unfold shr_fexp, shr.
  assert (Hloc : shr_m (shr_record_of_loc m l) = m) by (by destruct l as [|[]]).
  destruct (fexp prec emax (Zdigits2 m + e) - e) as [|p|p] eqn:Hn; simpl.
  - rewrite Hloc. lia.
  - destruct (iter_shr_1 p (shr_record_of_loc m l)) as [H0 Hd]; [by rewrite Hloc|].
    rewrite Hloc in Hd. lia.
  - rewrite Hloc. lia.
Qed.

Lemma round_nearest_even_bounds (m : Z) (l : location) :
  0 <= m -> m <= round_nearest_even m l <= m + 1.
Proof. destruct l as [|[]]; simpl; try lia. destruct (Z.even m); lia. Qed.

Lemma Zdigits2_round (m : Z) (l : location) :
  0 <= m -> Zdigits2 (round_nearest_even m l) <= Zdigits2 m + 1.
Proof.
  intros Hm. pose proof (round_nearest_even_bounds m l Hm).
  pose proof (Zdigits2_nonneg m). pose proof (Zdigits2_gt m Hm).
  apply Zdigits2_le_of_lt_pow; [lia | lia |].
  rewrite Z.pow_add_r by lia. lia.
Qed.

(** Rounding does not overflow when the value is below [2 ^ 1023]. *)
Lemma binary_round_aux_finite (sx : bool) (mx ex : Z) (lx : location) (s : bool) :
  0 <= mx -> Zdigits2 mx + ex <= 1023 -> ex <= 971 ->
  binary_round_aux prec emax sx mx ex lx <> S754_infinity s.
Proof.
  intros Hm Hd He. unfold binary_round_aux.
  pose proof (shr_fexp_spec mx ex lx Hm) as (H0 & He1 & Hd1).
  destruct (shr_fexp prec emax mx ex lx) as [mrs1 e1]. simpl in *.
  set (m1 := round_nearest_even (shr_m mrs1) (loc_of_shr_record mrs1)).
  assert (Hm1 : 0 <= m1)
    by (pose proof (round_nearest_even_bounds _ (loc_of_shr_record mrs1) H0); lia).
  pose proof (Zdigits2_round _ (loc_of_shr_record mrs1) H0) as Hr. fold m1 in Hr.
  pose proof (shr_fexp_spec m1 e1 loc_Exact Hm1) as (_ & He2 & _).
  destruct (shr_fexp prec emax m1 e1 loc_Exact) as [mrs2 e2]. simpl in *.
  destruct (shr_m mrs2); try discriminate.
  destruct (Z.leb_spec e2 (emax - prec)); [discriminate|].
  unfold fexp, SpecFloat.emin, emax, prec in *. lia.
Qed.

Lemma Zdigits2_shiftl (m s : Z) :
  0 <= m -> 0 <= s -> Zdigits2 (m * 2 ^ s) <= Zdigits2 m + s.
Proof.
  intros Hm Hs. pose proof (Zdigits2_nonneg m). pose proof (Zdigits2_gt m Hm).
  apply Zdigits2_le_of_lt_pow; [nia | lia |].
  rewrite Z.pow_add_r by lia. nia.
Qed.

Lemma Zdigits2_mono (a b : Z) : 0 <= a <= b -> Zdigits2 a <= Zdigits2 b.
Proof.
  intros [Ha Hab]. pose proof (Zdigits2_gt b (Z.le_trans _ _ _ Ha Hab)).
  apply Zdigits2_le_of_lt_pow; [lia | apply Zdigits2_nonneg | lia].
Qed.

(** The quotient of two positive integers does not overflow when the
    dividend is below [2 ^ 1000], or is at most the divisor. *)
Lemma SFdiv_exact_finite (sx sy s : bool) (mx my : positive) :
  Zdigits2 (Z.pos mx) <= 1000 \/ Z.pos mx <= Z.pos my ->
  SFdiv prec emax (S754_finite sx mx 0) (S754_finite sy my 0) <> S754_infinity s.
Proof.
  intros Hd. unfold SFdiv, SFdiv_core_binary.
  set (e' := Z.min (fexp prec emax (Zdigits2 (Z.pos mx) + 0 - (Zdigits2 (Z.pos my) + 0)))
                   (0 - 0)).
  assert (He' : e' <= 0) by (subst e'; lia).
  set (m' := match 0 - 0 - e' with
             | 0 => Z.pos mx
             | Z.pos _ => Z.shiftl (Z.pos mx) (0 - 0 - e')
             | Z.neg _ => 0
             end).
  assert (Hm' : m' = Z.pos mx * 2 ^ (- e')).
  { subst m'. destruct (0 - 0 - e') as [|p|p] eqn:Hs.
    - replace (- e') with 0 by lia. lia.
    - rewrite Z.shiftl_mul_pow2 by lia. f_equal. f_equal. lia.
    - lia. }
  pose proof (Z_div_mod m' (Z.pos my) eq_refl) as Hdiv.
  destruct (Z.div_eucl m' (Z.pos my)) as [q r]. destruct Hdiv as [Hq Hr].
  assert (Hq0 : 0 <= q) by nia.
  assert (Hqm : q <= m') by nia.
  assert (Hpow : 0 < 2 ^ (- e')) by (apply Z.pow_pos_nonneg; lia).
  apply binary_round_aux_finite; [exact Hq0 | | lia].
  destruct Hd as [Hd | Hle].
  - assert (Zdigits2 q <= Zdigits2 (Z.pos mx) + - e'); [|lia].
    etransitivity; [apply Zdigits2_mono; split; [exact Hq0 | exact Hqm]|].
    rewrite Hm'. apply Zdigits2_shiftl; lia.
  - assert (Zdigits2 q <= - e' + 1); [|lia].
    apply Zdigits2_le_of_lt_pow; [lia | lia |].
    rewrite Z.pow_add_r by lia. nia.
Qed.

Lemma pos_iter_xO (m d : positive) :
  Z.pos (Pos.iter xO m d) = Z.pos m * 2 ^ Z.pos d.
Proof.
  induction d as [|d IH] using Pos.peano_ind.
  - simpl. lia.
  - rewrite Pos.iter_succ, Pos2Z.inj_xO, IH, Pos2Z.inj_succ, Z.pow_succ_r by lia. lia.
Qed.

(** An integer below [2 ^ 1000] converts without overflow. *)
Lemma binary_normalize_finite (z : Z) (s : bool) :
  Zdigits2 z <= 1000 ->
  binary_normalize prec emax z 0 false <> S754_infinity s.
Proof.
  intros Hd.
  assert (Hpos : forall sx m, Zdigits2 (Z.pos m) <= 1000 ->
                              binary_round prec emax sx m 0 <> S754_infinity s).
  { intros sx m Hm. unfold binary_round, shl_align.
    destruct (fexp prec emax (Z.pos (digits2_pos m) + 0) - 0) as [|p|p] eqn:Hf.
    - apply binary_round_aux_finite; [lia | simpl in *; lia | lia].
    - apply binary_round_aux_finite; [lia | simpl in *; lia | lia].
    - apply binary_round_aux_finite; [lia | |].
      + rewrite pos_iter_xO.
        pose proof (Zdigits2_shiftl (Z.pos m) (Z.pos p)). simpl in *. lia.
      + unfold fexp, SpecFloat.emin, prec, emax in *. simpl in *. lia. }
  destruct z as [|m|m]; simpl; [discriminate | by apply Hpos ..].
Qed.

Lemma Zdigits2_bound (z : Z) : Z.abs z < 2 ^ 1000 -> Zdigits2 z <= 1000.
Proof.
  intros H. destruct z as [|p|p]; [simpl; lia | |];
    apply (Zdigits2_le_of_lt_pow (Z.pos p)); lia.
Qed.

Lemma int_truediv_returns (a b : Z) :
  b <> 0 -> Z.abs a < 2 ^ 1000 \/ Z.abs a <= Z.abs b ->
  exists q, int_truediv a b = Ok q.
Proof.
  intros Hb Ha. unfold int_truediv. destruct (Z.eqb_spec b 0) as [|_]; [done|].
  unfold finite_or_overflow.
  destruct (SFdiv prec emax (exact a) (exact b)) as [| s | |] eqn:Hq; eauto.
  exfalso.
  assert (Hd : Zdigits2 a <= 1000 \/ Z.abs a <= Z.abs b)
    by (destruct Ha as [Ha|Ha]; [left; by apply Zdigits2_bound | by right]).
  destruct a as [|pa|pa], b as [|pb|pb]; try done; unfold exact in Hq;
    try (by apply SFdiv_exact_finite in Hq); simpl in Hq; done.
Qed.

Lemma float_of_int_returns (z : Z) :
  Z.abs z < 2 ^ 1000 -> exists x, float_of_int z = Ok x.
Proof.
  intros Hz. unfold float_of_int, finite_or_overflow.
  destruct (binary_normalize prec emax z 0 false) as [| s | |] eqn:Hq; eauto.
  exfalso. by apply (binary_normalize_finite _ s) in Hq; [|apply Zdigits2_bound].
Qed.

(** *** Strings *)

Lemma strip_prefix_app (p s rest : string) :
  strip_prefix p s = Some rest -> s = p +:+ rest.
Proof.
  revert s. induction p as [|a p IH]; intros s H; simpl in H.
  - by injection H as ->.
  - destruct s as [|b s]; [discriminate H|].
    destruct (Ascii.eqb_spec a b) as [->|]; [|discriminate H].
    change (String b s = String b (p +:+ rest)). f_equal. by apply IH.
Qed.

(** *** The parser emits complete records only *)

Lemma has_rssi_complete r : has_rssi r = true -> complete r.
Proof. unfold has_rssi, complete. destruct (rssi_dbm r); [eauto | discriminate]. Qed.

Lemma flush_complete path st cur :
  Forall complete (st_records st) -> has_rssi cur = true ->
  Forall complete (flush path st cur).
Proof.
  intros Hst Hcur. unfold flush. apply Forall_app. split; [exact Hst|].
  constructor; [|constructor]. apply has_rssi_complete in Hcur. exact Hcur.
Qed.

Lemma write_field_records st cur f g st' :
  write_field st cur f g = Ok st' ->
  st_records st' = st_records st /\ st_scan_cycle st' = st_scan_cycle st /\
  exists v, int g = Ok v /\ st_current st' = Some (write f v cur).
Proof. unfold write_field. intros H. inv_ok. simpl. eauto. Qed.

(** What one line can do to the list of records: nothing, or append the
    open record, which then has its RSSI. *)
Lemma parse_line_records path st raw st' :
  parse_line path st raw = Ok st' ->
  st_records st' = st_records st \/
  exists cur, st_current st = Some cur /\ has_rssi cur = true /\
              st_records st' = flush path st cur.
Proof.
  unfold parse_line. intros H.
  repeat case_match; inv_ok; simpl; eauto;
    try (apply write_field_records in H; destruct H as (-> & _); eauto).
  match goal with Hb : _ && _ = true |- _ => apply andb_prop in Hb as [_ ?] end.
  eauto.
Qed.

Lemma parse_line_complete path st raw st' :
  parse_line path st raw = Ok st' ->
  Forall complete (st_records st) -> Forall complete (st_records st').
Proof.
  intros H Hst. apply parse_line_records in H as [-> | (cur & _ & Hc & ->)];
    [exact Hst | by apply flush_complete].
Qed.

Lemma parse_lines_complete path lines : forall st st',
  parse_lines path st lines = Ok st' ->
  Forall complete (st_records st) -> Forall complete (st_records st').
Proof.
  induction lines as [|raw rest IH]; simpl; intros st st' H Hst.
  - by inv_ok.
  - inv_ok. eapply IH; [exact H|]. by eapply parse_line_complete.
Qed.

Lemma finish_complete path st :
  Forall complete (st_records st) -> Forall complete (finish path st).
Proof.
  intros Hst. unfold finish. repeat case_match; try exact Hst.
  by apply flush_complete.
Qed.

(** C1, counterexample: a record without RSSI is not dropped at a blank
    line.  After the block-start marker, a counter line and a blank line the
    record is still open, without RSSI; the RSSI line that follows the blank
    line completes it, and it is emitted with its counter. *)
Lemma blank_line_keeps_incomplete_record :
  parse_lines "x.log" init [block_start; "TX counter (payload): 2"; ""] =
    Ok {| st_records := []; st_scan_cycle := None;
          st_current := Some (write TxCounter 2 (new_record None)) |} /\
  parse_log "x.log"
    [block_start; "TX counter (payload): 2"; ""; "RSSI: -48 dBm"; ""] =
    Ok [{| file := Some "x.log"; scan_cycle := None; rx_unix_ms := None;
           tx_counter := Some 2; tx_unix_ms := None; delta_ms := None;
           rssi_dbm := Some (-48) |}].
Proof. split; reflexivity. Qed.

(** C1, amended: every record in the list returned by [parse_log] has the
    key ["rssi_dbm"], for every path and every sequence of lines; and while
    the open record lacks that key, no line of any kind adds to the list of
    records: a block-start marker drops the record and opens a fresh one,
    the end of the input drops it, and a blank line does not drop it but
    leaves it open as it is (a later RSSI line can still complete it).  A
    record without RSSI is therefore never in the list that the summaries
    and plots are computed from. *)
Theorem parse_log_emits_only_complete (path : string) (lines : list string)
    (records : list record) :
  parse_log path lines = Ok records ->
  Forall (fun r => is_Some (rssi_dbm r)) records /\
  (forall st cur, st_current st = Some cur -> rssi_dbm cur = None ->
     (forall raw st', parse_line path st raw = Ok st' ->
                      st_records st' = st_records st) /\
     (forall raw, startswith block_start (strip raw) = true ->
        parse_line path st raw =
          Ok {| st_records := st_records st; st_scan_cycle := st_scan_cycle st;
                st_current := Some (new_record (st_scan_cycle st)) |}) /\
     (forall raw, strip raw = "" -> parse_line path st raw = Ok st) /\
     finish path st = st_records st).
Proof.
  intros H. split.
  - unfold parse_log in H. inv_ok. apply finish_complete.
    eapply parse_lines_complete; [exact Hv|]. constructor.
  - intros st cur Hcur Hnone.
    assert (Hno : has_rssi cur = false) by (unfold has_rssi; by rewrite Hnone).
    split; [|split; [|split]].
    + intros raw st' Hstep.
      apply parse_line_records in Hstep as [-> | (c & Hc & Hr & _)]; [done|].
      congruence.
    + intros raw Hstart. unfold parse_line.
      assert (re_match scan_start_re (strip raw) = None) as Hscan.
      { unfold startswith in Hstart.
        destruct (strip_prefix block_start (strip raw)) as [rest|] eqn:Hp;
          [|discriminate Hstart].
        apply strip_prefix_app in Hp. rewrite Hp. reflexivity. }
      rewrite Hscan, Hstart, Hcur, Hno. reflexivity.
    + intros raw Hblank. unfold parse_line. rewrite Hblank. simpl.
      rewrite Hcur, Hno. reflexivity.
    + unfold finish. by rewrite Hcur, Hno.
Qed.

Lemma parse_log_emits_only_complete_witness :
  parse_log "x.log" two_blocks_log =
    Ok [{| file := Some "x.log"; scan_cycle := None; rx_unix_ms := None;
           tx_counter := Some 1; tx_unix_ms := None; delta_ms := None;
           rssi_dbm := Some (-48) |}] /\
  Forall (fun r => is_Some (rssi_dbm r))
    [{| file := Some "x.log"; scan_cycle := None; rx_unix_ms := None;
        tx_counter := Some 1; tx_unix_ms := None; delta_ms := None;
        rssi_dbm := Some (-48) |}].
Proof.
  split; [reflexivity|].
  apply (parse_log_emits_only_complete "x.log" two_blocks_log). reflexivity.
Defined.

(** *** Scenario 1 *)

(** C7: one block-start marker, the five field lines of the scenario and a
    blank line give exactly one record; it carries the file name and the
    five parsed values (1000, 5, 990, 10, -60), and its scan cycle is
    Python's [None] since no scan-cycle marker came before.  The same holds
    when the lines come without their newline characters. *)
Theorem parse_log_scenario1 (path : string) :
  parse_log path scenario1_log =
    Ok [{| file := Some (basename path); scan_cycle := None;
           rx_unix_ms := Some 1000; tx_counter := Some 5;
           tx_unix_ms := Some 990; delta_ms := Some 10;
           rssi_dbm := Some (-60) |}] /\
  parse_log path
    [block_start; "RX Unix ms (ESP32): 1000"; "TX counter (payload): 5";
     "TX Unix ms (payload): 990"; "Delta = x: 10 ms"; "RSSI: -60 dBm"; ""] =
    Ok [{| file := Some (basename path); scan_cycle := None;
           rx_unix_ms := Some 1000; tx_counter := Some 5;
           tx_unix_ms := Some 990; delta_ms := Some 10;
           rssi_dbm := Some (-60) |}].
Proof. split; reflexivity. Qed.

(** *** One field per line *)

(** C8, counterexample: the live reader runs both searches on every line;
    on a line that carries a counter and an RSSI it assigns both variables
    and appends the pair at once. *)
Lemma live_line_sets_two_fields :
  exists st1 st2,
    Live.read_counter Live.init "TX counter (payload): 5 RSSI: -60 dBm" = Ok st1 /\
    Live.read_rssi st1 "TX counter (payload): 5 RSSI: -60 dBm" = Ok st2 /\
    Live.current_counter st2 = Some 5 /\ Live.current_rssi st2 = Some (-60) /\
    Live.reader_step 500 Live.init "TX counter (payload): 5 RSSI: -60 dBm" =
      {| Live.current_counter := None; Live.current_rssi := None;
         Live.buf := ([5], [-60]) |}.
Proof. do 2 eexists. repeat split. Qed.

Ltac solve_field_case :=
  match goal with
  | H : write_field _ ?cur ?f ?g = Ok _ |- _ =>
      apply write_field_records in H;
      destruct H as (_ & _ & v & Hint & Hcur');
      right; left;
      let pre := match f with
                 | RxUnixMs => constr:(@nil field)
                 | TxCounter => constr:([RxUnixMs])
                 | TxUnixMs => constr:([RxUnixMs; TxCounter])
                 | DeltaMs => constr:([RxUnixMs; TxCounter; TxUnixMs])
                 | RssiDbm => constr:([RxUnixMs; TxCounter; TxUnixMs; DeltaMs])
                 end in
      exists cur, f, g, v, pre; eexists;
      split_and!;
        [reflexivity | reflexivity | repeat constructor; assumption
        | assumption | assumption | assumption]
  end.

(** C8, amended: in [parse_log] a line writes at most one key of the open
    record: the line leaves the open record as it is, or writes exactly one
    key, the one of the first pattern in the fixed order that matches, or is
    a block-start marker that opens a fresh record, or is the blank line
    that closes the record.  The live reader has no such rule: it searches
    for the counter and for the RSSI on every line, one after the other, so
    a line on which both searches succeed gives both values (and the pair is
    appended at once), and a line on which one succeeds gives that one. *)
Theorem one_field_per_line_offline_only :
  (forall path st raw st',
     parse_line path st raw = Ok st' ->
     st_current st' = st_current st \/
     (exists cur f g v pre post,
        st_current st = Some cur /\
        fields_in_order = pre ++ f :: post /\
        Forall (fun f' => re_match (pattern_of f') (strip raw) = None) pre /\
        re_match (pattern_of f) (strip raw) = Some g /\
        int g = Ok v /\
        st_current st' = Some (write f v cur)) \/
     (startswith block_start (strip raw) = true /\
      st_current st' = Some (new_record (st_scan_cycle st))) \/
     (strip raw = "" /\ st_current st' = None)) /\
  (forall max_points st raw gc c gr r,
     raw <> "" ->
     re_search Live.COUNTER_RE (strip raw) = Some gc -> int gc = Ok c ->
     re_search Live.RSSI_RE (strip raw) = Some gr -> int gr = Ok r ->
     Live.reader_step max_points st raw =
       {| Live.current_counter := None; Live.current_rssi := None;
          Live.buf := Live.append_pair max_points (Live.buf st) (c, r) |}) /\
  (forall max_points st raw gc c,
     raw <> "" ->
     re_search Live.COUNTER_RE (strip raw) = Some gc -> int gc = Ok c ->
     re_search Live.RSSI_RE (strip raw) = None ->
     Live.reader_step max_points st raw =
       Live.emit max_points
         {| Live.current_counter := Some c;
            Live.current_rssi := Live.current_rssi st; Live.buf := Live.buf st |}) /\
  (forall max_points st raw gr r,
     raw <> "" ->
     re_search Live.COUNTER_RE (strip raw) = None ->
     re_search Live.RSSI_RE (strip raw) = Some gr -> int gr = Ok r ->
     Live.reader_step max_points st raw =
       Live.emit max_points
         {| Live.current_counter := Live.current_counter st;
            Live.current_rssi := Some r; Live.buf := Live.buf st |}).
Proof.
  split; [|split; [|split]].
  - intros path st raw st' H. unfold parse_line in H.
    repeat case_match; inv_ok; simpl; eauto; try solve_field_case.
    match goal with
    | Hb : _ && _ = true |- _ =>
        apply andb_prop in Hb as [Hb _]; apply String.eqb_eq in Hb
    end.
    eauto 6.
  - intros mp st raw gc c gr r Hne Hc Hic Hr Hir. unfold Live.reader_step.
    unfold Live.read_counter. rewrite Hc, Hic. simpl.
    unfold Live.read_rssi. rewrite Hr, Hir. simpl. reflexivity.
  - intros mp st raw gc c Hne Hc Hic Hr. unfold Live.reader_step.
    unfold Live.read_counter. rewrite Hc, Hic. simpl.
    unfold Live.read_rssi. rewrite Hr. reflexivity.
  - intros mp st raw gr r Hne Hc Hr Hir. unfold Live.reader_step.
    unfold Live.read_counter. rewrite Hc.
    unfold Live.read_rssi. rewrite Hr, Hir. simpl. by destruct st.
Qed.

Lemma one_field_per_line_offline_only_witness :
  Live.reader_step 500 Live.init "TX counter (payload): 5 RSSI: -60 dBm" =
    {| Live.current_counter := None; Live.current_rssi := None;
       Live.buf := Live.append_pair 500 ([], []) (5, -60) |}.
Proof.
  apply (proj1 (proj2 one_field_per_line_offline_only) 500 Live.init
           "TX counter (payload): 5 RSSI: -60 dBm" "5" 5 "-60" (-60));
    [discriminate | reflexivity ..].
Defined.

(** *** The live buffer *)

Lemma tail_drop {A} (l : list A) : tail l = drop 1 l.
Proof. by destruct l. Qed.

Lemma append_pair_bound (max_points : Z) (b : Live.buffer) (p : Z * Z) :
  0 <= max_points ->
  length b.1 = length b.2 -> Z.of_nat (length b.1) <= max_points ->
  length (Live.append_pair max_points b p).1 =
    length (Live.append_pair max_points b p).2 /\
  Z.of_nat (length (Live.append_pair max_points b p).1) <= max_points.
Proof.
  intros Hmp Heq Hle. unfold Live.append_pair.
  destruct (Z.gtb_spec (Z.of_nat (length (b.1 ++ [p.1]))) max_points) as [Hgt|Hngt];
    simpl; rewrite ?tail_drop, ?length_drop, ?length_app in *; simpl in *; lia.
Qed.

(** After any sequence of appends to the empty buffer, the two deques hold
    the counters and the RSSI values of the last [max_points] pairs. *)
Lemma foldl_append_pair (max_points : Z) (pairs : list (Z * Z)) :
  0 <= max_points ->
  foldl (Live.append_pair max_points) ([], []) pairs =
    ((drop (length pairs - Z.to_nat max_points) pairs).*1,
     (drop (length pairs - Z.to_nat max_points) pairs).*2).
Proof.
  intros Hmp. induction pairs as [|p pairs IH] using rev_ind; [reflexivity|].
  rewrite foldl_app. simpl. rewrite IH. clear IH.
  unfold Live.append_pair. simpl.
  set (k := (length pairs - Z.to_nat max_points)%nat).
  assert (Hk : (k <= length pairs)%nat) by lia.
  rewrite length_app, length_fmap, length_drop, length_app. simpl.
  destruct (Z.gtb_spec (Z.of_nat (length pairs - k + 1)) max_points) as [Hgt|Hngt].
  - replace (length pairs + 1 - Z.to_nat max_points)%nat with (S k) by lia.
    rewrite !tail_drop. replace (S k) with (k + 1)%nat by lia.
    rewrite <- !drop_drop, !fmap_drop, !fmap_app.
    by rewrite !(drop_app_le _ _ k) by (rewrite ?length_fmap; lia).
  - replace (length pairs + 1 - Z.to_nat max_points)%nat with k by lia.
    rewrite !fmap_drop, !fmap_app.
    by rewrite !(drop_app_le _ _ k) by (rewrite ?length_fmap; lia).
Qed.

Lemma reader_step_bound (max_points : Z) (st : Live.rstate) (raw : string) :
  0 <= max_points ->
  length (Live.buf st).1 = length (Live.buf st).2 ->
  Z.of_nat (length (Live.buf st).1) <= max_points ->
  length (Live.buf (Live.reader_step max_points st raw)).1 =
    length (Live.buf (Live.reader_step max_points st raw)).2 /\
  Z.of_nat (length (Live.buf (Live.reader_step max_points st raw)).1) <= max_points.
Proof.
  intros Hmp Heq Hle. unfold Live.reader_step.
  destruct (Live.read_counter st (strip raw)) as [st1|] eqn:H1; [|done].
  assert (Hb1 : Live.buf st1 = Live.buf st).
  { unfold Live.read_counter in H1. repeat case_match; inv_ok; done. }
  destruct (Live.read_rssi st1 (strip raw)) as [st2|] eqn:H2;
    [|by rewrite Hb1].
  assert (Hb2 : Live.buf st2 = Live.buf st).
  { unfold Live.read_rssi in H2. repeat case_match; inv_ok; done. }
  unfold Live.emit. repeat case_match; simpl; rewrite ?Hb2; try done.
  by apply append_pair_bound.
Qed.

(** C4: for a cap [max_points >= 0], after any sequence of appends to the
    empty buffer the two deques have the same length, at most [max_points],
    and hold, index by index, the counters and the RSSI values of the most
    recent pairs in their order of arrival (so what was evicted is the
    oldest pairs, counter and RSSI together); the same bound holds for the
    buffer of the reader thread after any sequence of lines; and with
    [max_points = 3] the four appends of the scenario leave
    [(2,-55), (3,-60), (4,-65)]. *)
Theorem live_buffer_bounded_fifo (max_points : Z) (pairs : list (Z * Z)) :
  0 <= max_points ->
  let b := foldl (Live.append_pair max_points) ([], []) pairs in
  Z.of_nat (length b.1) <= max_points /\
  length b.2 = length b.1 /\
  zip b.1 b.2 = drop (length pairs - Z.to_nat max_points) pairs /\
  (forall lines,
     let rb := Live.buf (Live.serial_reader max_points lines) in
     Z.of_nat (length rb.1) <= max_points /\ length rb.2 = length rb.1) /\
  foldl (Live.append_pair 3) ([], []) [(1, -50); (2, -55); (3, -60); (4, -65)] =
    ([2; 3; 4], [-55; -60; -65]).
Proof.
  intros Hmp b. subst b. rewrite foldl_append_pair by done. simpl.
  rewrite !length_fmap, length_drop, zip_fst_snd.
  split_and!; try done; try lia.
  intros lines. unfold Live.serial_reader.
  cut (length (Live.buf (foldl (Live.reader_step max_points) Live.init lines)).1 =
       length (Live.buf (foldl (Live.reader_step max_points) Live.init lines)).2 /\
       Z.of_nat (length (Live.buf (foldl (Live.reader_step max_points) Live.init lines)).1)
         <= max_points).
  { intros [-> ?]. done. }
  induction lines as [|raw lines IH] using rev_ind; [simpl; lia|].
  rewrite foldl_app. simpl. destruct IH as [IH1 IH2].
  by apply reader_step_bound.
Qed.

Lemma live_buffer_bounded_fifo_witness :
  let b := foldl (Live.append_pair 2) ([], []) [(7, -40); (8, -41); (9, -42)] in
  Z.of_nat (length b.1) <= 2 /\ length b.2 = length b.1 /\
  zip b.1 b.2 = [(8, -41); (9, -42)].
Proof.
  pose proof (live_buffer_bounded_fifo 2 [(7, -40); (8, -41); (9, -42)]) as H.
  destruct H as (H1 & H2 & H3 & _); [lia|].
  split; [exact H1|]. split; [exact H2|exact H3].
Defined.

(** *** The combined index axis *)

(** C5, counterexample: with three points in the first file and two in the
    second, the second file is drawn at the indices 7 and 8, not 8 and 9. *)
Lemma combined_index_second_session_at_7 :
  map fst (plot_combined_rssi_vs_counter
             [("A", 3, [10; 11; 12], [-50; -51; -52]);
              ("B", 2, [20; 21], [-60; -61])]) = [[0; 1; 2]; [7; 8]] /\
  map fst (plot_combined_rssi_vs_counter
             [("A", 3, [10; 11; 12], [-50; -51; -52]);
              ("B", 2, [20; 21], [-60; -61])]) <> [[0; 1; 2]; [8; 9]].
Proof. split; [reflexivity | discriminate]. Qed.

Lemma last_indices (off : Z) (len : nat) :
  last (map (fun i => off + Z.of_nat i) (seq 0 (S len))) = Some (off + Z.of_nat len).
Proof. rewrite seq_S, map_app. simpl. by rewrite last_snoc. Qed.

(** C5, amended: on the virtual index axis a file with points starts five
    index units after the last index of the file before it: when the first
    of two consecutive entries has [k > 0] points and starts at [off], it
    takes the indices [off, ..., off + k - 1] and the next entry starts at
    [off + k - 1 + 5]; so when file A has three points, at 0, 1 and 2, the
    two points of file B are at 7 and 8. *)
Theorem combined_index_gap (off : Z) (a b : sequence) (rest : list sequence) :
  a.1.2 <> [] ->
  (exists tl,
     plot_loop off (a :: b :: rest) =
       (map (fun i => off + Z.of_nat i) (seq 0 (length a.1.2)), a.2) ::
       (map (fun i => off + Z.of_nat (length a.1.2) - 1 + 5 + Z.of_nat i)
            (seq 0 (length b.1.2)), b.2) :: tl) /\
  (length a.1.2 = 3%nat -> length b.1.2 = 2%nat ->
   plot_combined_rssi_vs_counter [a; b] = [([0; 1; 2], a.2); ([7; 8], b.2)]).
Proof.
  destruct a as [[[la na] xa] ya], b as [[[lb nb] xb] yb]. cbn [fst snd].
  intros Hne. destruct xa as [|x xa]; [done|]. clear Hne. split.
  - eexists. cbn [plot_loop].
    change (length (x :: xa)) with (S (length xa)). rewrite last_indices.
    do 2 f_equal. f_equal. apply map_ext. intros i. lia.
  - intros Ha Hb. unfold plot_combined_rssi_vs_counter, plot_loop.
    rewrite Ha, Hb. reflexivity.
Qed.

Lemma combined_index_gap_witness :
  plot_combined_rssi_vs_counter
    [("A", 3, [10; 11; 12], [-50; -51; -52]); ("B", 2, [20; 21], [-60; -61])] =
    [([0; 1; 2], [-50; -51; -52]); ([7; 8], [-60; -61])].
Proof.
  apply (combined_index_gap 0 ("A", 3, [10; 11; 12], [-50; -51; -52])
           ("B", 2, [20; 21], [-60; -61]) []); [discriminate | reflexivity ..].
Defined.

(** *** The CSV export *)

Lemma writerow_row_dict (r : gmap string Csv.value) :
  Csv.writerow Csv.header (Csv.row_dict r) =
    map (fun col => default (Csv.VStr "") (r !! col)) Csv.header.
Proof.
  unfold Csv.writerow, Csv.row_dict, Csv.header. simpl.
  repeat f_equal; by simplify_map_eq.
Qed.

(** C9: for a list of records that is not empty, [write_csv] writes the
    header row with the six column names in their fixed order and then one
    row per record, in the order of the list; each row has six cells, the
    cell of a column being the record's value under that key, or the empty
    string when the record has no such key.  For the empty list no file is
    written, so no row is. *)
Theorem write_csv_rows (records : list (gmap string Csv.value)) :
  records <> [] ->
  Csv.header =
    ["tx_unix_ms(phone)"; "rx_unix_ms(esp32)"; "payload_counter"; "delta_ms";
     "rssi_dbm"; "tx_device_name"] /\
  (exists rows,
     Csv.write_csv records = Some (map Csv.VStr Csv.header :: rows) /\
     length rows = length records /\
     forall i r, records !! i = Some r ->
       exists row, rows !! i = Some row /\ length row = 6%nat /\
         forall j col, Csv.header !! j = Some col ->
           row !! j = Some (default (Csv.VStr "") (r !! col))) /\
  Csv.write_csv [] = None.
Proof.
  intros Hne. split; [reflexivity|]. split; [|reflexivity].
  exists (map (fun r => Csv.writerow Csv.header (Csv.row_dict r)) records).
  split; [by destruct records|]. split; [by rewrite length_map|].
  intros i r Hi. exists (Csv.writerow Csv.header (Csv.row_dict r)).
  split; [by rewrite list_lookup_fmap, Hi|]. split; [reflexivity|].
  intros j col Hj. rewrite writerow_row_dict, list_lookup_fmap, Hj. reflexivity.
Qed.

Lemma write_csv_rows_witness :
  Csv.write_csv [ {[ "rssi_dbm" := Csv.VInt (-60);
                     "payload_counter" := Csv.VInt 5;
                     "tx_device_name" := Csv.VStr "A72Aziz" ]} ] =
    Some [map Csv.VStr Csv.header;
          [Csv.VStr ""; Csv.VStr ""; Csv.VInt 5; Csv.VStr ""; Csv.VInt (-60);
           Csv.VStr "A72Aziz"]] /\
  Csv.write_csv [] = None.
Proof.
  split; [reflexivity|].
  apply (write_csv_rows [ {[ "rssi_dbm" := Csv.VInt (-60) ]} ]). discriminate.
Defined.

(** *** The sort by TX time *)

Lemma insert_by_key_Permutation (r : record) (l : list record) : insert_by_key r l ≡ₚ r :: l.
Proof.
  induction l as [|x l IH]; simpl; [done|].
  destruct (sort_key r <=? sort_key x); [done|].
  rewrite IH. apply Permutation_swap.
Qed.

Lemma sorted_Permutation (records : list record) : sorted records ≡ₚ records.
Proof.
  induction records as [|r l IH]; simpl; [done|].
  fold (sorted l). by rewrite insert_by_key_Permutation, IH.
Qed.

Lemma insert_by_key_StronglySorted (r : record) (l : list record) :
  StronglySorted le_key l -> StronglySorted le_key (insert_by_key r l).
Proof.
  induction 1 as [|x l Hl IH Hx]; simpl; [repeat constructor|].
  destruct (Z.leb_spec (sort_key r) (sort_key x)) as [Hle|Hgt].
  - constructor; [by constructor|]. constructor; [exact Hle|].
    eapply Forall_impl; [exact Hx|]. unfold le_key. intros; lia.
  - constructor; [exact IH|].
    rewrite insert_by_key_Permutation. constructor; [unfold le_key; lia | exact Hx].
Qed.

Lemma sorted_StronglySorted (records : list record) :
  StronglySorted le_key (sorted records).
Proof.
  induction records as [|r l IH]; simpl; [constructor|].
  by apply insert_by_key_StronglySorted.
Qed.

(** The sort is stable: the records with one key keep their order. *)
Lemma insert_filter_key (k : Z) (r : record) (l : list record) :
  filter (fun x => sort_key x = k) (insert_by_key r l) =
  filter (fun x => sort_key x = k) (r :: l).
Proof.
  induction l as [|x l IH]; simpl; [done|].
  destruct (Z.leb_spec (sort_key r) (sort_key x)) as [Hle|Hgt]; [done|].
  rewrite !filter_cons in *.
  destruct (decide (sort_key x = k)), (decide (sort_key r = k));
    rewrite IH; try done; lia.
Qed.

Lemma sorted_stable (k : Z) (records : list record) :
  filter (fun x => sort_key x = k) (sorted records) =
  filter (fun x => sort_key x = k) records.
Proof.
  induction records as [|r l IH]; simpl; [done|]. fold (sorted l).
  by rewrite insert_filter_key, !filter_cons, IH.
Qed.

Lemma sorted_length (records : list record) :
  length (sorted records) = length records.
Proof. apply Permutation_length, sorted_Permutation. Qed.

(** *** Lists of present values *)

Lemma omap_first {A B} (f : A -> option B) (l : list A) (b : B) (t : list B) :
  omap f l = b :: t ->
  exists pre x post, l = pre ++ x :: post /\ Forall (fun y => f y = None) pre /\
                     f x = Some b.
Proof.
  induction l as [|a l IH]; simpl; [done|].
  destruct (f a) as [b'|] eqn:Hfa; intros H.
  - injection H as -> _. by exists [], a, l.
  - destruct (IH H) as (pre & x & post & -> & Hpre & Hx).
    exists (a :: pre), x, post. split; [done|]. split; [by constructor | done].
Qed.

Lemma omap_last {A B} (f : A -> option B) (l : list A) (b : B) :
  last (omap f l) = Some b ->
  exists pre x post, l = pre ++ x :: post /\ Forall (fun y => f y = None) post /\
                     f x = Some b.
Proof.
  induction l as [|a l IH] using rev_ind; simpl; [done|].
  rewrite omap_app. simpl. destruct (f a) as [b'|] eqn:Hfa; simpl.
  - rewrite last_snoc. intros [= ->]. by exists l, a, [].
  - rewrite app_nil_r. intros H.
    destruct (IH H) as (pre & x & post & -> & Hpost & Hx).
    exists pre, x, (post ++ [a]). split; [by rewrite <- app_assoc|].
    split; [|done]. apply Forall_app. split; [done | by constructor].
Qed.

Lemma item_first_Ok (l : list Z) (c : Z) : item_first l = Ok c -> exists t, l = c :: t.
Proof. destruct l; simpl; intros H; inv_ok; eauto. Qed.

Lemma item_last_Ok (l : list Z) (c : Z) : item_last l = Ok c -> last l = Some c.
Proof. unfold item_last. destruct (last l); intros H; by inv_ok. Qed.

(** *** What a summary holds *)

Lemma summary_of_Ok (records : list record) (expected_count : Z) (s : summary) :
  summary_of records expected_count = Ok s ->
  n s = Z.of_nat (length records) /\
  mean_or_nan (omap rssi_dbm (sorted records)) = Ok (mean_rssi s) /\
  mean_or_nan (omap delta_ms (sorted records)) = Ok (mean_delta s) /\
  min_rssi s = min_or_none (omap rssi_dbm (sorted records)) /\
  max_rssi s = max_or_none (omap rssi_dbm (sorted records)) /\
  min_delta s = min_or_none (omap delta_ms (sorted records)) /\
  max_delta s = max_or_none (omap delta_ms (sorted records)) /\
  item_first (omap tx_counter (sorted records)) = Ok (first_counter s) /\
  item_last (omap tx_counter (sorted records)) = Ok (last_counter s) /\
  loss_count s = Z.max (expected_count - Z.of_nat (length records)) 0 /\
  loss_pct_of (loss_count s) expected_count = Ok (loss_pct s) /\
  duration_of (head (sorted records) ≫= tx_unix_ms)
              (last (sorted records) ≫= tx_unix_ms) = Ok (duration_s s).
Proof.
  unfold summary_of. intros H. inv_ok. simpl.
  rewrite sorted_length in *. by split_and!.
Qed.

(** *** When the summary is printed *)

(** The loss percentage is computed without an exception, whatever the
    expected count and the number of records. *)
Lemma loss_pct_of_returns (expected_count n : Z) :
  0 <= n -> exists p, loss_pct_of (Z.max (expected_count - n) 0) expected_count = Ok p.
Proof.
  intros Hn. unfold loss_pct_of.
  destruct (Z.gtb_spec expected_count 0) as [He|He]; [|eauto].
  destruct (int_truediv_returns (Z.max (expected_count - n) 0) expected_count)
    as [q ->]; [lia | right; lia |]. simpl. eauto.
Qed.

Lemma sum_Permutation (l1 l2 : list Z) : l1 ≡ₚ l2 -> sum l1 = sum l2.
Proof. induction 1; simpl; lia. Qed.

Lemma sum_omap_sorted (f : record -> option Z) (records : list record) :
  sum (omap f (sorted records)) = sum (omap f records).
Proof. apply sum_Permutation. by rewrite sorted_Permutation. Qed.

Lemma mean_or_nan_returns (l : list Z) :
  Z.abs (sum l) < 2 ^ 1000 -> exists m, mean_or_nan l = Ok m.
Proof.
  intros H. destruct l as [|x l]; [simpl; eauto|].
  unfold mean_or_nan. apply int_truediv_returns; [simpl; lia | by left].
Qed.

Lemma duration_of_returns (first_tx last_tx : option Z) :
  (forall v, first_tx = Some v -> Z.abs v < 2 ^ 999) ->
  (forall v, last_tx = Some v -> Z.abs v < 2 ^ 999) ->
  exists d, duration_of first_tx last_tx = Ok d.
Proof.
  intros Hf Hl. unfold duration_of.
  destruct (truthy first_tx && truthy last_tx); [|eauto].
  unfold int_div_float.
  destruct (float_of_int_returns (default 0 last_tx - default 0 first_tx)) as [x ->].
  { change (2 ^ 1000) with (2 ^ 999 + 2 ^ 999).
    destruct first_tx as [a|], last_tx as [b|]; simpl;
      try specialize (Hf _ eq_refl); try specialize (Hl _ eq_refl); lia. }
  simpl. eauto.
Qed.

(** When the summary is printed. *)
Lemma summary_of_returns (records : list record) (expected_count : Z) :
  (exists r, r ∈ records /\ is_Some (tx_counter r)) ->
  Z.abs (sum (omap rssi_dbm records)) < 2 ^ 1000 ->
  Z.abs (sum (omap delta_ms records)) < 2 ^ 1000 ->
  (forall r v, r ∈ records -> tx_unix_ms r = Some v -> Z.abs v < 2 ^ 999) ->
  exists s, summary_of records expected_count = Ok s.
Proof.
  intros (r & Hr & [c Hc]) Hrssi Hdelta Htx. unfold summary_of.
  destruct (mean_or_nan_returns (omap rssi_dbm (sorted records))) as [m1 ->];
    [by rewrite sum_omap_sorted|].
  destruct (mean_or_nan_returns (omap delta_ms (sorted records))) as [m2 ->];
    [by rewrite sum_omap_sorted|].
  simpl.
  assert (Hcs : exists c0 t, omap tx_counter (sorted records) = c0 :: t).
  { destruct (omap tx_counter (sorted records)) as [|c0 t] eqn:Ho; [|eauto].
    assert (Hin : c ∈ omap tx_counter (sorted records)).
    { apply list_elem_of_omap. exists r. split; [|done].
      by rewrite sorted_Permutation. }
    rewrite Ho in Hin. by apply elem_of_nil in Hin. }
  destruct Hcs as (c0 & t & ->). simpl.
  assert (Hfin : exists c', item_last (c0 :: t) = Ok c').
  { unfold item_last. destruct (last (c0 :: t)) eqn:Hl; [eauto|].
    by apply last_None in Hl. }
  destruct Hfin as [c' ->]. simpl.
  destruct (loss_pct_of_returns expected_count (Z.of_nat (length (sorted records))))
    as [p ->]; [lia|]. simpl.
  destruct (duration_of_returns (head (sorted records) ≫= tx_unix_ms)
                                (last (sorted records) ≫= tx_unix_ms)) as [d ->].
  - intros v Hv. destruct (head (sorted records)) as [x|] eqn:Hh; [|done].
    apply (Htx x); [|done]. rewrite <- sorted_Permutation.
    by apply head_Some_elem_of.
  - intros v Hv. destruct (last (sorted records)) as [x|] eqn:Hh; [|done].
    apply (Htx x); [|done]. rewrite <- sorted_Permutation.
    by apply last_Some_elem_of.
  - simpl. eauto.
Qed.

(** *** The loss estimate *)

(** C2, counterexample: for the empty list and [expected_count = 0] the
    function returns the loss percentage 100.0, which is not NaN. *)
Lemma loss_pct_of_empty_session_is_100 :
  AnalyzeBleLogsCombine.summarize_records [] 0 = Ok (NoPackets, (0, nan, 0, lit 100)) /\
  is_nan (lit 100) = false.
Proof. split; reflexivity. Qed.

(** What the returned tuple holds. *)
Lemma summarize_records_loss (records : list record) (expected_count : Z)
    (rep : report) (n_packets : Z) (mean : float) (loss : Z) (pct : float) :
  AnalyzeBleLogsCombine.summarize_records records expected_count =
    Ok (rep, (n_packets, mean, loss, pct)) ->
  n_packets = Z.of_nat (length records) /\
  (records = [] -> loss = expected_count /\ pct = lit 100) /\
  (records <> [] ->
     loss = Z.max (expected_count - n_packets) 0 /\
     (expected_count <= 0 -> pct = nan) /\
     (0 < expected_count ->
        exists q, int_truediv loss expected_count = Ok q /\
                  pct = float_mul q (lit 100)) /\
     exists s, rep = Summary s /\ loss_count s = loss /\ loss_pct s = pct).
Proof.
  intros H. unfold AnalyzeBleLogsCombine.summarize_records in H.
  destruct records as [|r l]; [by inv_ok|].
  inv_ok. apply summary_of_Ok in Hv.
  destruct Hv as (Hn & _ & _ & _ & _ & _ & _ & _ & _ & Hl & Hp & _).
  split; [exact Hn|]. split; [done|]. intros _.
  rewrite Hn. split; [exact Hl|].
  unfold loss_pct_of in Hp. split; [|split].
  - intros He. destruct (Z.gtb_spec expected_count 0); [lia|]. by inv_ok.
  - intros He. destruct (Z.gtb_spec expected_count 0); [|lia]. inv_ok. eauto.
  - eauto.
Qed.

(** The same for analyze_ble_logs.py, where the expected count is 200. *)
Lemma summarize_records_loss_200 (records : list record) (s : summary) :
  AnalyzeBleLogs.summarize_records records = Ok (Summary s) ->
  loss_count s = Z.max (200 - Z.of_nat (length records)) 0 /\
  exists q, int_truediv (loss_count s) 200 = Ok q /\
            loss_pct s = float_mul q (lit 100).
Proof.
  intros Hs. unfold AnalyzeBleLogs.summarize_records in Hs.
  destruct records as [|r l]; [by inv_ok|].
  inv_ok. apply summary_of_Ok in Hv.
  destruct Hv as (_ & _ & _ & _ & _ & _ & _ & _ & _ & Hl & Hp & _).
  split; [exact Hl|]. unfold loss_pct_of in Hp. simpl in Hp. inv_ok. eauto.
Qed.

(** C2, amended: whenever [summarize_records] returns, the count it returns
    is the length of the list.  For a list that is not empty, the loss count
    is [max(expected_count - n, 0)] and the loss percentage is
    [loss_count / expected_count * 100.0] (one int division, one float
    product) when [expected_count > 0] and NaN otherwise; the printed block
    shows the same two values.  For the empty list the function returns the
    loss count [expected_count] and the loss percentage 100.0 whatever
    [expected_count] is.  With 150 records and [expected_count = 200]: 50
    and 25.0.  The loss percentage is never an exception, for any count and
    any expected count, and the function does return for a list in which
    some record has a counter and whose values are below [2 ^ 999] in
    magnitude.  The function of analyze_ble_logs.py computes the same with
    [expected_count] fixed to 200. *)
Theorem loss_estimate (records : list record) (expected_count : Z) :
  (forall rep n_packets mean loss pct,
     AnalyzeBleLogsCombine.summarize_records records expected_count =
       Ok (rep, (n_packets, mean, loss, pct)) ->
     n_packets = Z.of_nat (length records) /\
     (records = [] -> loss = expected_count /\ pct = lit 100) /\
     (records <> [] ->
        loss = Z.max (expected_count - n_packets) 0 /\
        (expected_count <= 0 -> pct = nan) /\
        (0 < expected_count ->
           exists q, int_truediv loss expected_count = Ok q /\
                     pct = float_mul q (lit 100)) /\
        exists s, rep = Summary s /\ loss_count s = loss /\ loss_pct s = pct) /\
     (expected_count = 200 -> n_packets = 150 -> loss = 50 /\ pct = lit 25)) /\
  (forall n, 0 <= n ->
     exists p, loss_pct_of (Z.max (expected_count - n) 0) expected_count = Ok p) /\
  ((exists r, r ∈ records /\ is_Some (tx_counter r)) ->
   Z.abs (sum (omap rssi_dbm records)) < 2 ^ 1000 ->
   Z.abs (sum (omap delta_ms records)) < 2 ^ 1000 ->
   (forall r v, r ∈ records -> tx_unix_ms r = Some v -> Z.abs v < 2 ^ 999) ->
   exists s mean pct,
     AnalyzeBleLogsCombine.summarize_records records expected_count =
       Ok (Summary s,
           (Z.of_nat (length records), mean,
            Z.max (expected_count - Z.of_nat (length records)) 0, pct))) /\
  (forall recs s,
     AnalyzeBleLogs.summarize_records recs = Ok (Summary s) ->
     loss_count s = Z.max (200 - Z.of_nat (length recs)) 0 /\
     exists q, int_truediv (loss_count s) 200 = Ok q /\
               loss_pct s = float_mul q (lit 100)).
Proof.
  split_and!.
  - intros rep n_packets mean loss pct H.
    destruct (summarize_records_loss _ _ _ _ _ _ _ H) as (Hn & Hempty & Hfull).
    split_and!; try done.
    intros -> Hn150. destruct records as [|r l]; [simpl in Hn; lia|].
    destruct Hfull as (Hl & _ & Hq & _); [done|].
    rewrite Hn150 in Hl. change (Z.max (200 - 150) 0) with 50 in Hl. subst loss.
    split; [done|]. destruct Hq as (q & Hq & ->); [lia|].
    vm_compute in Hq. by inv_ok.
  - intros n Hn. by apply loss_pct_of_returns.
  - intros Hc Hr Hd Htx.
    destruct (summary_of_returns records expected_count Hc Hr Hd Htx) as [s Hs].
    assert (Hne : records <> []).
    { destruct Hc as (r & Hin & _). intros ->. by apply elem_of_nil in Hin. }
    assert (Hsum : AnalyzeBleLogsCombine.summarize_records records expected_count =
                     Ok (Summary s, (n s, mean_rssi s, loss_count s, loss_pct s))).
    { unfold AnalyzeBleLogsCombine.summarize_records.
      destruct records; [done|]. by rewrite Hs. }
    apply summary_of_Ok in Hs.
    destruct Hs as (Hn & _ & _ & _ & _ & _ & _ & _ & _ & Hl & _).
    rewrite Hn, Hl in Hsum. eauto.
  - intros recs s Hs. by apply summarize_records_loss_200.
Qed.

Lemma loss_estimate_witness :
  exists s mean,
    AnalyzeBleLogsCombine.summarize_records session150 200 =
      Ok (Summary s, (150, mean, 50, lit 25)) /\
    150 = Z.of_nat (length session150) /\ loss_count s = 50 /\
    loss_pct s = lit 25.
Proof.
  eassert (H : AnalyzeBleLogsCombine.summarize_records session150 200 =
                 Ok (Summary _, (150, _, 50, lit 25)))
    by (vm_compute; reflexivity).
  do 2 eexists. split; [exact H|].
  destruct (proj1 (loss_estimate session150 200) _ _ _ _ _ H) as (Hn & _ & Hfull & _).
  split; [exact Hn|]. destruct Hfull as (_ & _ & _ & s & Hs & Hl & Hp); [done|].
  injection Hs as <-. by split.
Defined.

(** *** First and last counter, time span *)

(** C3, counterexample: the record with the smallest TX time has no
    counter; the first counter reported is 7, which belongs to the record in
    the second position of the sorted order. *)
Lemma first_counter_skips_records_without_counter :
  sorted [packet (Some 200) (Some 7) None (-55); packet (Some 100) None None (-50)] =
    [packet (Some 100) None None (-50); packet (Some 200) (Some 7) None (-55)] /\
  (head (sorted [packet (Some 200) (Some 7) None (-55);
                 packet (Some 100) None None (-50)]) ≫= tx_counter) = None /\
  exists s ret,
    AnalyzeBleLogsCombine.summarize_records
      [packet (Some 200) (Some 7) None (-55); packet (Some 100) None None (-50)] 200 =
      Ok (Summary s, ret) /\
    first_counter s = 7.
Proof. split; [reflexivity|]. split; [reflexivity|]. do 2 eexists. split; reflexivity. Qed.

(** C3, amended: whenever [summarize_records] prints a summary for a list
    of records, the order it works on is the stable sort of the list by TX
    time, ascending, a missing TX time counting as zero: a permutation of
    the list, with keys in non-decreasing order, records with equal keys in
    their original order.  The first counter reported is the counter of the
    first record of that order that has a counter, the last counter that of
    the last record that has one; these are the records at the first and
    last positions when those carry a counter.  The time span is computed
    from the TX times of the records at the first and last positions. *)
Theorem summary_follows_sorted_order (records : list record) (expected_count : Z)
    (s : summary) (ret : Z * float * Z * float) :
  AnalyzeBleLogsCombine.summarize_records records expected_count =
    Ok (Summary s, ret) ->
  sorted records ≡ₚ records /\
  StronglySorted
    (fun a b => default 0 (tx_unix_ms a) <= default 0 (tx_unix_ms b))
    (sorted records) /\
  (forall k,
     filter (fun r => default 0 (tx_unix_ms r) = k) (sorted records) =
     filter (fun r => default 0 (tx_unix_ms r) = k) records) /\
  (exists pre r post,
     sorted records = pre ++ r :: post /\
     Forall (fun x => tx_counter x = None) pre /\
     tx_counter r = Some (first_counter s)) /\
  (exists pre r post,
     sorted records = pre ++ r :: post /\
     Forall (fun x => tx_counter x = None) post /\
     tx_counter r = Some (last_counter s)) /\
  (forall r c, head (sorted records) = Some r -> tx_counter r = Some c ->
               first_counter s = c) /\
  (forall r c, last (sorted records) = Some r -> tx_counter r = Some c ->
               last_counter s = c) /\
  duration_of (head (sorted records) ≫= tx_unix_ms)
              (last (sorted records) ≫= tx_unix_ms) = Ok (duration_s s).
Proof.
  intros H. unfold AnalyzeBleLogsCombine.summarize_records in H.
  destruct records as [|r0 l]; [by inv_ok|]. inv_ok.
  apply summary_of_Ok in Hv.
  destruct Hv as (_ & _ & _ & _ & _ & _ & _ & Hf & Hl & _ & _ & Hd).
  apply item_first_Ok in Hf as [t Hf]. apply item_last_Ok in Hl.
  split; [apply sorted_Permutation|].
  split; [apply sorted_StronglySorted|].
  split; [intros k; apply sorted_stable|].
  split; [by eapply omap_first|].
  split; [by eapply omap_last|].
  split; [|split; [|exact Hd]].
  - intros r c Hr Hc. destruct (sorted (r0 :: l)) as [|x rs]; [done|].
    simpl in Hr. injection Hr as ->. simpl in Hf. rewrite Hc in Hf. congruence.
  - intros r c Hr Hc. destruct (sorted (r0 :: l)) as [|x rs] using rev_ind; [done|].
    rewrite last_snoc in Hr. injection Hr as ->.
    rewrite omap_app in Hl. simpl in Hl. rewrite Hc in Hl. simpl in Hl.
    rewrite last_snoc in Hl. congruence.
Qed.

Lemma summary_follows_sorted_order_witness :
  exists s ret,
    AnalyzeBleLogsCombine.summarize_records
      [packet (Some 200) (Some 7) None (-55); packet (Some 100) None None (-50);
       packet None (Some 9) None (-52)] 200 = Ok (Summary s, ret) /\
    exists pre r post,
      sorted [packet (Some 200) (Some 7) None (-55); packet (Some 100) None None (-50);
              packet None (Some 9) None (-52)] = pre ++ r :: post /\
      Forall (fun x => tx_counter x = None) post /\
      tx_counter r = Some (last_counter s).
Proof.
  eassert (H : AnalyzeBleLogsCombine.summarize_records
                 [packet (Some 200) (Some 7) None (-55);
                  packet (Some 100) None None (-50);
                  packet None (Some 9) None (-52)] 200 = Ok (Summary _, _))
    by (vm_compute; reflexivity).
  do 2 eexists. split; [exact H|].
  exact (proj1 (proj2 (proj2 (proj2 (proj2 (summary_follows_sorted_order _ _ _ _ H)))))).
Defined.

(** *** Lists without any counter *)

(** C6: a block with an RSSI line only gives a complete record without
    the key ["tx_counter"]; on the list made of that record both
    [summarize_records] raise [IndexError] (at [counters[0]]).  They return
    nothing for any non-empty list in which no record has a counter.  The
    empty list gives the "no packets" notice and, in the combined script,
    the tuple [(0, nan, expected_count, 100.0)]. *)
Theorem summarize_records_raises_without_counter :
  parse_log "a.log" rssi_only_log = Ok [packet None None None (-60)] /\
  AnalyzeBleLogsCombine.summarize_records [packet None None None (-60)] 200 =
    Raise IndexError /\
  AnalyzeBleLogs.summarize_records [packet None None None (-60)] =
    Raise IndexError /\
  (forall records expected_count res,
     records <> [] -> Forall (fun r => tx_counter r = None) records ->
     AnalyzeBleLogsCombine.summarize_records records expected_count <> Ok res) /\
  (forall expected_count,
     AnalyzeBleLogsCombine.summarize_records [] expected_count =
       Ok (NoPackets, (0, nan, expected_count, lit 100))).
Proof.
  split_and!; try reflexivity.
  intros records e res Hne Hall H.
  unfold AnalyzeBleLogsCombine.summarize_records in H.
  destruct records as [|r0 l]; [done|]. inv_ok.
  apply summary_of_Ok in Hv.
  destruct Hv as (_ & _ & _ & _ & _ & _ & _ & Hf & _).
  apply item_first_Ok in Hf as [t Hf]. apply omap_first in Hf.
  destruct Hf as (pre & x & post & Hs & _ & Hx).
  assert (Hin : x ∈ r0 :: l).
  { rewrite <- sorted_Permutation, Hs. set_solver. }
  rewrite Forall_forall in Hall. rewrite (Hall x Hin) in Hx. discriminate.
Qed.

(** *** The time span *)

(** C10: for a list of records that is not empty, when the TX time of the
    record at the first or at the last position of the sorted order is
    absent or is 0, every summary that [summarize_records] prints, in either
    script, has NaN as its time span; and the summary is printed, with that
    NaN, when some record has a counter and the values are below [2 ^ 999]
    in magnitude. *)
Theorem zero_timestamp_gives_nan_span (records : list record) (expected_count : Z) :
  records <> [] ->
  (head (sorted records) ≫= tx_unix_ms) = None \/
  (head (sorted records) ≫= tx_unix_ms) = Some 0 \/
  (last (sorted records) ≫= tx_unix_ms) = None \/
  (last (sorted records) ≫= tx_unix_ms) = Some 0 ->
  (forall s ret,
     AnalyzeBleLogsCombine.summarize_records records expected_count =
       Ok (Summary s, ret) ->
     duration_s s = nan) /\
  (forall s,
     AnalyzeBleLogs.summarize_records records = Ok (Summary s) ->
     duration_s s = nan) /\
  ((exists r, r ∈ records /\ is_Some (tx_counter r)) ->
   Z.abs (sum (omap rssi_dbm records)) < 2 ^ 1000 ->
   Z.abs (sum (omap delta_ms records)) < 2 ^ 1000 ->
   (forall r v, r ∈ records -> tx_unix_ms r = Some v -> Z.abs v < 2 ^ 999) ->
   (exists s ret,
      AnalyzeBleLogsCombine.summarize_records records expected_count =
        Ok (Summary s, ret) /\
      duration_s s = nan) /\
   (exists s,
      AnalyzeBleLogs.summarize_records records = Ok (Summary s) /\
      duration_s s = nan)).
Proof.
  intros Hne Hzero.
  assert (Hd : duration_of (head (sorted records) ≫= tx_unix_ms)
                           (last (sorted records) ≫= tx_unix_ms) = Ok nan).
  { unfold duration_of.
    destruct Hzero as [-> | [-> | [-> | ->]]]; simpl; rewrite ?andb_false_r; done. }
  assert (Hnan : forall e s, summary_of records e = Ok s -> duration_s s = nan).
  { intros e s Hs. apply summary_of_Ok in Hs.
    destruct Hs as (_ & _ & _ & _ & _ & _ & _ & _ & _ & _ & _ & Hd').
    rewrite Hd in Hd'. by inv_ok. }
  split_and!.
  - intros s ret H. unfold AnalyzeBleLogsCombine.summarize_records in H.
    destruct records as [|r0 l]; [done|]. inv_ok. by eapply Hnan.
  - intros s H. unfold AnalyzeBleLogs.summarize_records in H.
    destruct records as [|r0 l]; [done|]. inv_ok. by eapply Hnan.
  - intros Hc Hr Hdl Htx. split.
    + destruct (summary_of_returns records expected_count Hc Hr Hdl Htx) as [s Hs].
      exists s, (n s, mean_rssi s, loss_count s, loss_pct s).
      split; [|by eapply Hnan].
      unfold AnalyzeBleLogsCombine.summarize_records.
      destruct records; [done|]. by rewrite Hs.
    + destruct (summary_of_returns records 200 Hc Hr Hdl Htx) as [s Hs].
      exists s. split; [|by eapply Hnan].
      unfold AnalyzeBleLogs.summarize_records.
      destruct records; [done|]. by rewrite Hs.
Qed.

Lemma zero_timestamp_gives_nan_span_witness :
  exists s ret,
    AnalyzeBleLogsCombine.summarize_records
      [packet (Some 5000) (Some 2) (Some 12) (-61);
       packet (Some 0) (Some 1) (Some 10) (-60)] 200 = Ok (Summary s, ret) /\
    duration_s s = nan.
Proof.
  eassert (H : AnalyzeBleLogsCombine.summarize_records
                 [packet (Some 5000) (Some 2) (Some 12) (-61);
                  packet (Some 0) (Some 1) (Some 10) (-60)] 200 = Ok (Summary _, _))
    by (vm_compute; reflexivity).
  do 2 eexists. split; [exact H|].
  refine (proj1 (zero_timestamp_gives_nan_span _ 200 _ _) _ _ H);
    [discriminate | right; left; reflexivity].
Defined.

(** ** Further properties of the scripts *)

(** *** Strings and repetitions *)

Lemma append_cons (a : ascii) (s t : string) :
  String a s +:+ t = String a (s +:+ t).
Proof. reflexivity. Qed.

Lemma append_nil_l (s : string) : "" +:+ s = s.
Proof. reflexivity. Qed.

Lemma append_assoc (s t u : string) : (s +:+ t) +:+ u = s +:+ (t +:+ u).
Proof. induction s as [|a s IH]; [done|]. by rewrite !append_cons, IH. Qed.

Lemma append_nil_r (s : string) : s +:+ "" = s.
Proof. induction s as [|a s IH]; [done|]. by rewrite append_cons, IH. Qed.

Lemma string_forallb_app (p : ascii -> bool) (s t : string) :
  string_forallb p (s +:+ t) = string_forallb p s && string_forallb p t.
Proof.
  induction s as [|a s IH]; [done|]. rewrite append_cons. simpl.
  by rewrite IH, andb_assoc.
Qed.

Lemma all_digits_forallb (s : string) : all_digits s = string_forallb is_digit s.
Proof. unfold all_digits. induction s as [|a s IH]; simpl; [done|]. by rewrite IH. Qed.

Lemma string_forallb_impl (p q : ascii -> bool) (s : string) :
  (forall a, p a = true -> q a = true) ->
  string_forallb p s = true -> string_forallb q s = true.
Proof.
  intros Hpq. induction s as [|a s IH]; simpl; [done|].
  intros [Ha Hs]%andb_prop. by rewrite (Hpq a Ha), IH.
Qed.

(** A repetition whose continuation fails on every longer take stops at
    the take [s1]. *)
Lemma rep_skip {A} (c : cls) (s : string) : forall (k : string -> string -> option A),
  (forall t r, s = t +:+ r -> t <> "" -> string_forallb (in_cls c) t = true ->
               k t r = None) ->
  rep c k s = k "" s.
Proof.
  induction s as [|a s IH]; intros k Hk; simpl; [done|].
  destruct (in_cls c a) eqn:Ha; [|done].
  rewrite IH.
  - rewrite (Hk (String a "") s); [done | done | done | by simpl; rewrite Ha].
  - intros t r -> Ht Hc. apply (Hk (String a t) r); [done | done |].
    simpl. by rewrite Ha, Hc.
Qed.

Lemma rep_longest {A} (c : cls) (s1 s2 : string) (x : A) :
  forall (k : string -> string -> option A),
  string_forallb (in_cls c) s1 = true ->
  (forall t r, s2 = t +:+ r -> t <> "" -> string_forallb (in_cls c) t = true ->
               k (s1 +:+ t) r = None) ->
  k s1 s2 = Some x ->
  rep c k (s1 +:+ s2) = Some x.
Proof.
  induction s1 as [|a s1 IH]; intros k Hc Hk Hx.
  - rewrite append_nil_l. rewrite rep_skip; [done|]. exact Hk.
  - simpl in Hc. apply andb_prop in Hc as [Ha Hc].
    rewrite append_cons. simpl. rewrite Ha.
    rewrite (IH (fun taken rest => k (String a taken) rest)); done.
Qed.

(** The same when what follows cannot be taken at all. *)
Lemma rep_boundary {A} (c : cls) (s1 s2 : string) (x : A)
    (k : string -> string -> option A) :
  string_forallb (in_cls c) s1 = true ->
  match s2 with String a _ => in_cls c a = false | EmptyString => True end ->
  k s1 s2 = Some x ->
  rep c k (s1 +:+ s2) = Some x.
Proof.
  intros Hc Hb Hx. apply rep_longest; [done | | done].
  intros t r -> Ht Hct. destruct t as [|a t]; [done|].
  rewrite append_cons in Hb. simpl in Hct. by rewrite Hb in Hct.
Qed.

(** *** Stripping *)

Lemma rstrip_spaces (w : string) : string_forallb is_space w = true -> rstrip w = "".
Proof.
  induction w as [|a w IH]; simpl; [done|].
  intros [Ha Hw]%andb_prop. by rewrite IH, Ha.
Qed.

Lemma rstrip_app_spaces (s w : string) :
  string_forallb is_space w = true -> rstrip (s +:+ w) = rstrip s.
Proof.
  intros Hw. induction s as [|a s IH].
  - by rewrite append_nil_l, rstrip_spaces.
  - rewrite append_cons. simpl. by rewrite IH.
Qed.

Lemma rstrip_nonspace (d : string) :
  string_forallb (fun a => negb (is_space a)) d = true -> rstrip d = d.
Proof.
  induction d as [|a d IH]; simpl; [done|].
  intros [Ha Hd]%andb_prop. rewrite IH by done.
  apply negb_true_iff in Ha. rewrite Ha. by destruct d.
Qed.

Lemma rstrip_app_nonspace (s d : string) :
  d <> "" -> string_forallb (fun a => negb (is_space a)) d = true ->
  rstrip (s +:+ d) = s +:+ d.
Proof.
  intros Hne Hd. induction s as [|a s IH].
  - by rewrite append_nil_l, rstrip_nonspace.
  - rewrite append_cons. simpl. rewrite IH.
    destruct (s +:+ d) eqn:Hsd; [|done].
    destruct s; [|done]. by rewrite append_nil_l in Hsd.
Qed.

Lemma is_digit_nonspace (a : ascii) : is_digit a = true -> negb (is_space a) = true.
Proof. destruct a as [[] [] [] [] [] [] [] []]; done. Qed.

Lemma is_digit_not_minus (a : ascii) : is_digit a = true -> Ascii.eqb a "-" = false.
Proof. destruct a as [[] [] [] [] [] [] [] []]; done. Qed.

Lemma is_digit_not_newline (a : ascii) : is_digit a = true -> Ascii.eqb a newline = false.
Proof. destruct a as [[] [] [] [] [] [] [] []]; done. Qed.

Lemma sign_digit_nonspace (a : ascii) :
  in_cls SignDigit a = true -> negb (is_space a) = true.
Proof. destruct a as [[] [] [] [] [] [] [] []]; done. Qed.

Lemma sign_digit_not_colon (a : ascii) :
  in_cls SignDigit a = true -> Ascii.eqb a ":" = false.
Proof. destruct a as [[] [] [] [] [] [] [] []]; done. Qed.

(** *** Tokens *)

Lemma int_digits (tok : string) :
  all_digits tok = true -> tok <> "" -> within_limit tok = true ->
  int tok = Ok (digits_value 0 tok).
Proof.
  intros Hd Hne Hl. destruct tok as [|a tok]; [done|]. unfold int. rewrite Hd, Hl.
  rewrite all_digits_forallb in Hd. simpl in Hd. apply andb_prop in Hd as [Ha _].
  by rewrite (is_digit_not_minus a Ha).
Qed.

Lemma int_Ok_sign_digits (tok : string) (v : Z) :
  int tok = Ok v -> tok <> "" /\ string_forallb (in_cls SignDigit) tok = true.
Proof.
  unfold int. destruct tok as [|a tok]; [done|].
  destruct (Ascii.eqb a "-") eqn:Ha.
  - destruct tok as [|b tok]; [done|].
    destruct (all_digits (String b tok)) eqn:Hd; [|done]. intros _. split; [done|].
    rewrite all_digits_forallb in Hd.
    change (in_cls SignDigit a && string_forallb (in_cls SignDigit) (String b tok) = true).
    unfold in_cls at 1. rewrite Ha. simpl orb.
    eapply string_forallb_impl; [|exact Hd]. intros c Hc. simpl. by rewrite Hc, orb_true_r.
  - destruct (all_digits (String a tok)) eqn:Hd; [|done]. intros _. split; [done|].
    rewrite all_digits_forallb in Hd.
    eapply string_forallb_impl; [|exact Hd]. intros c Hc. simpl. by rewrite Hc, orb_true_r.
Qed.

(** What a token of a field is: its characters, and its value. *)
Lemma token_of_spec (f : field) (tok : string) :
  token_of f tok = true ->
  tok <> "" /\
  string_forallb (in_cls (match f with DeltaMs | RssiDbm => SignDigit | _ => Digit end))
    tok = true /\
  exists v, int tok = Ok v.
Proof.
  unfold token_of. intros H.
  destruct (int tok) as [v|] eqn:Hi; [|done].
  destruct (int_Ok_sign_digits tok v Hi) as [Hne Hs].
  split; [done|]. split; [|eauto].
  destruct f; try done; by rewrite <- all_digits_forallb.
Qed.

Lemma strip_prefix_append (p s : string) : strip_prefix p (p +:+ s) = Some s.
Proof.
  induction p as [|a p IH]; [done|]. rewrite append_cons. simpl.
  by rewrite Ascii.eqb_refl.
Qed.

Lemma first_not_in (c : cls) (tok rest : string) (q : ascii -> bool) :
  tok <> "" -> string_forallb q tok = true ->
  (forall a, q a = true -> in_cls c a = false) ->
  match tok +:+ rest with String a _ => in_cls c a = false | EmptyString => True end.
Proof.
  destruct tok as [|a tok]; [done|]. intros _ H Hq. rewrite append_cons.
  simpl in H. apply andb_prop in H as [Ha _]. by apply Hq.
Qed.

(** *** Matching a line of the log format *)

Lemma run_unsigned (lit tok : string) :
  tok <> "" -> string_forallb is_digit tok = true ->
  re_match [Lit lit; Star Space; Group Digit] (lit +:+ " " +:+ tok) = Some tok.
Proof.
  intros Hne Hd. unfold re_match. cbn [run]. rewrite strip_prefix_append.
  apply (rep_boundary Space " " tok); [done | |].
  { rewrite <- (append_nil_r tok). apply (first_not_in Space tok "" is_digit); try done.
    intros a Ha. apply is_digit_nonspace in Ha. by apply negb_true_iff in Ha. }
  rewrite <- (append_nil_r tok) at 1. by apply rep_boundary; [|simpl|destruct tok].
Qed.

Lemma run_rssi (tok : string) :
  tok <> "" -> string_forallb (in_cls SignDigit) tok = true ->
  re_match rssi_re ("RSSI:" +:+ " " +:+ tok +:+ " dBm") = Some tok.
Proof.
  intros Hne Hd. unfold re_match, rssi_re. cbn [run]. rewrite strip_prefix_append.
  apply (rep_boundary Space " " (tok +:+ " dBm")); [done | |].
  { apply (first_not_in Space tok " dBm" (in_cls SignDigit)); try done.
    intros a Ha. apply sign_digit_nonspace in Ha. by apply negb_true_iff in Ha. }
  apply rep_boundary; [done | done |]. by destruct tok.
Qed.

Lemma no_colon_suffix (t r s : string) :
  string_forallb (fun a => negb (Ascii.eqb a ":")) s = true ->
  String ":" s = t +:+ r -> t <> "" ->
  string_forallb (fun a => negb (Ascii.eqb a ":")) r = true.
Proof.
  intros Hs Heq Ht. destruct t as [|a t]; [done|].
  rewrite append_cons in Heq. injection Heq as _ ->.
  rewrite string_forallb_app in Hs. by apply andb_prop in Hs as [_ ?].
Qed.

Lemma run_delta (label tok : string) :
  string_forallb (in_cls Dot) label = true ->
  tok <> "" -> string_forallb (in_cls SignDigit) tok = true ->
  re_match delta_re ("Delta = " +:+ label +:+ ":" +:+ " " +:+ tok +:+ " ms") = Some tok.
Proof.
  intros Hl Hne Hd. unfold re_match, delta_re. cbn [run].
  rewrite strip_prefix_append.
  apply (rep_longest Dot label); [done | |].
  - intros t r Heq Ht _.
    assert (Hr : string_forallb (fun a => negb (Ascii.eqb a ":")) r = true).
    { apply (no_colon_suffix t r (" " +:+ tok +:+ " ms")); [|done|done].
      rewrite append_cons, append_nil_l. simpl.
      rewrite string_forallb_app. apply andb_true_intro. split; [|done].
      eapply string_forallb_impl; [|exact Hd].
      intros a Ha. by rewrite (sign_digit_not_colon a Ha). }
    destruct r as [|a r]; [done|]. simpl in Hr. apply andb_prop in Hr as [Ha _].
    apply negb_true_iff in Ha. cbn [run strip_prefix].
    rewrite Ascii.eqb_sym in Ha. by rewrite Ha.
  - rewrite strip_prefix_append.
    apply (rep_boundary Space " " (tok +:+ " ms")); [done | |].
    { apply (first_not_in Space tok " ms" (in_cls SignDigit)); try done.
      intros a Ha. apply sign_digit_nonspace in Ha. by apply negb_true_iff in Ha. }
    apply rep_boundary; [done | done |]. by destruct tok.
Qed.

Lemma lstrip_id (s : string) :
  match s with String a _ => is_space a = false | EmptyString => True end ->
  lstrip s = s.
Proof. destruct s as [|a s]; simpl; [done|]. by intros ->. Qed.

Lemma strip_field_line (label : string) (f : field) (tok eol : string) :
  token_of f tok = true -> string_forallb is_space eol = true ->
  strip (field_line label f tok +:+ eol) = field_line label f tok.
Proof.
  intros Ht He. apply token_of_spec in Ht as (Hne & Hc & _).
  unfold strip. rewrite lstrip_id by (by destruct f).
  rewrite rstrip_app_spaces by done.
  destruct f; unfold field_line.
  - apply rstrip_app_nonspace; [done|].
    eapply string_forallb_impl; [|exact Hc]. apply is_digit_nonspace.
  - apply rstrip_app_nonspace; [done|].
    eapply string_forallb_impl; [|exact Hc]. apply is_digit_nonspace.
  - apply rstrip_app_nonspace; [done|].
    eapply string_forallb_impl; [|exact Hc]. apply is_digit_nonspace.
  - replace ("Delta = " +:+ label +:+ ": " +:+ tok +:+ " ms")
      with (("Delta = " +:+ label +:+ ": " +:+ tok +:+ " ") +:+ "ms")
      by (by rewrite !append_assoc).
    by apply rstrip_app_nonspace.
  - replace ("RSSI: " +:+ tok +:+ " dBm") with (("RSSI: " +:+ tok +:+ " ") +:+ "dBm")
      by (by rewrite !append_assoc).
    by apply rstrip_app_nonspace.
Qed.

Lemma other_patterns_fail (label : string) (f f' : field) (tok : string) :
  f' <> f -> re_match (pattern_of f') (field_line label f tok) = None.
Proof. by destruct f, f'. Qed.

(** The pattern of a field matches a line of that field and captures the
    token; the patterns of the other fields do not match the line, and the
    line is neither a scan-cycle marker nor a block-start marker. *)
Lemma field_line_matches (label : string) (f : field) (tok : string) :
  token_of f tok = true -> string_forallb (in_cls Dot) label = true ->
  re_match (pattern_of f) (field_line label f tok) = Some tok /\
  re_match scan_start_re (field_line label f tok) = None /\
  startswith block_start (field_line label f tok) = false.
Proof.
  intros Ht Hl. apply token_of_spec in Ht as (Hne & Hc & _).
  split; [|split; by destruct f].
  destruct f; simpl pattern_of; unfold field_line.
  - by apply (run_unsigned "RX Unix ms (ESP32):" tok).
  - by apply (run_unsigned "TX counter (payload):" tok).
  - by apply (run_unsigned "TX Unix ms (payload):" tok).
  - by apply (run_delta label tok).
  - by apply (run_rssi tok).
Qed.

(** A line of a field, with any trailing whitespace, writes that field. *)
Lemma parse_line_field (path : string) (st : pstate) (cur : record)
    (label : string) (f : field) (tok eol : string) (v : Z) :
  st_current st = Some cur ->
  token_of f tok = true -> int tok = Ok v ->
  string_forallb (in_cls Dot) label = true ->
  string_forallb is_space eol = true ->
  parse_line path st (field_line label f tok +:+ eol) =
    Ok {| st_records := st_records st; st_scan_cycle := st_scan_cycle st;
          st_current := Some (write f v cur) |}.
Proof.
  intros Hcur Ht Hi Hl He. unfold parse_line.
  rewrite strip_field_line by done.
  destruct (field_line_matches label f tok Ht Hl) as (Hm & Hs & Hb).
  rewrite Hs, Hb, Hcur.
  destruct f; simpl pattern_of in Hm;
    rewrite ?(other_patterns_fail label _ RxUnixMs) by done;
    rewrite ?(other_patterns_fail label _ TxCounter) by done;
    rewrite ?(other_patterns_fail label _ TxUnixMs) by done;
    rewrite ?(other_patterns_fail label _ DeltaMs) by done;
    rewrite Hm; unfold write_field; by rewrite Hi.
Qed.

(** *** Parsing a block of the log format *)

Lemma parse_lines_app (path : string) (l1 l2 : list string) : forall st,
  parse_lines path st (l1 ++ l2) =
    st' ← parse_lines path st l1; parse_lines path st' l2.
Proof.
  induction l1 as [|raw l1 IH]; intros st; simpl; [done|].
  destruct (parse_line path st raw) as [st1|e]; simpl; [apply IH | done].
Qed.

Lemma token_value_int (f : field) (tok : string) :
  token_of f tok = true -> int tok = Ok (token_value tok).
Proof.
  intros Ht. apply token_of_spec in Ht as (_ & _ & v & Hv).
  unfold token_value. by rewrite Hv.
Qed.

Lemma parse_lines_fields (path label eol : string) (fts : list (field * string)) :
  string_forallb (in_cls Dot) label = true ->
  string_forallb is_space eol = true ->
  Forall (fun ft => token_of ft.1 ft.2 = true) fts ->
  forall st cur, st_current st = Some cur ->
  parse_lines path st (map (fun ft => field_line label ft.1 ft.2 +:+ eol) fts) =
    Ok {| st_records := st_records st; st_scan_cycle := st_scan_cycle st;
          st_current := Some (write_tokens cur fts) |}.
Proof.
  intros Hl He Hts. induction Hts as [|[f tok] fts Ht _ IH]; intros st cur Hcur.
  - simpl. destruct st. simpl in Hcur. by rewrite Hcur.
  - simpl in Ht. cbn [map parse_lines fst snd].
    rewrite (parse_line_field path st cur label f tok eol (token_value tok));
      [|done|done|by eapply token_value_int|done|done].
    simpl. by rewrite (IH _ (write f (token_value tok) cur)).
Qed.

Lemma strip_spaces (w : string) : string_forallb is_space w = true -> strip w = "".
Proof.
  intros Hw. unfold strip.
  assert (lstrip w = "") as ->; [|done].
  induction w as [|a w IH]; simpl; [done|].
  simpl in Hw. apply andb_prop in Hw as [-> Hw]. by apply IH.
Qed.

Lemma strip_block_start (eol : string) :
  string_forallb is_space eol = true -> strip (block_start +:+ eol) = block_start.
Proof.
  intros He. unfold strip. rewrite lstrip_id by done.
  by rewrite rstrip_app_spaces.
Qed.

(** X1: a block of the log format, with tokens that [int] converts
    (numerals of the field's pattern with at most 4300 digits), parses to
    one record whose fields are the tokens' values, written in the order of
    the lines (a later line of a field replaces an earlier one), provided
    one of the lines is an RSSI line; without an RSSI line the block gives
    no record. *)
Theorem parse_log_block (path label eol : string) (fts : list (field * string)) :
  string_forallb (in_cls Dot) label = true ->
  string_forallb is_space eol = true ->
  Forall (fun ft => token_of ft.1 ft.2 = true) fts ->
  parse_log path (block_lines label eol fts) =
    Ok (if has_rssi (write_tokens (new_record None) fts)
        then [set_scan_cycle None
                (set_file (basename path) (write_tokens (new_record None) fts))]
        else []).
Proof.
  intros Hl He Hts. unfold parse_log, block_lines. cbn [parse_lines].
  assert (Hstart : parse_line path init (block_start +:+ eol) =
            Ok {| st_records := []; st_scan_cycle := None;
                  st_current := Some (new_record None) |}).
  { unfold parse_line. by rewrite strip_block_start. }
  rewrite Hstart. simpl mbind. rewrite parse_lines_app.
  rewrite (parse_lines_fields path label eol fts Hl He Hts _ (new_record None)) by done.
  simpl mbind. cbn [parse_lines]. unfold parse_line at 1.
  rewrite strip_spaces by done. cbn [st_current st_records st_scan_cycle].
  replace (re_match scan_start_re "") with (@None string) by done.
  replace (startswith block_start "") with false by done.
  replace (re_match rx_unix_re "") with (@None string) by done.
  replace (re_match tx_counter_re "") with (@None string) by done.
  replace (re_match tx_unix_re "") with (@None string) by done.
  replace (re_match delta_re "") with (@None string) by done.
  replace (re_match rssi_re "") with (@None string) by done.
  destruct (has_rssi (write_tokens (new_record None) fts)) eqn:Hr; simpl.
  - done.
  - unfold finish. simpl. by rewrite Hr.
Qed.

Lemma parse_log_block_witness :
  parse_log "logs/a.log"
    (block_lines "x" (String newline "")
       [(RxUnixMs, "1000"); (TxCounter, "5"); (TxUnixMs, "990");
        (DeltaMs, "-10"); (RssiDbm, "-71"); (RssiDbm, "-60")]) =
    Ok [{| file := Some "a.log"; scan_cycle := None; rx_unix_ms := Some 1000;
           tx_counter := Some 5; tx_unix_ms := Some 990; delta_ms := Some (-10);
           rssi_dbm := Some (-60) |}].
Proof.
  apply (parse_log_block "logs/a.log" "x" (String newline "")
           [(RxUnixMs, "1000"); (TxCounter, "5"); (TxUnixMs, "990");
            (DeltaMs, "-10"); (RssiDbm, "-71"); (RssiDbm, "-60")]);
    [reflexivity | reflexivity | repeat constructor].
Defined.

(** *** More invariants of the parsing loop *)

Lemma parse_lines_records_inv (P : record -> Prop) (path : string) :
  (forall st cur, has_rssi cur = true -> Forall P (st_records st) ->
                  Forall P (flush path st cur)) ->
  forall lines st st', parse_lines path st lines = Ok st' ->
  Forall P (st_records st) -> Forall P (st_records st').
Proof.
  intros Hflush. induction lines as [|raw rest IH]; simpl; intros st st' H Hst.
  - by inv_ok.
  - inv_ok. eapply IH; [exact H|].
    apply parse_line_records in Hv as [-> | (cur & _ & Hc & ->)]; [done|].
    by apply Hflush.
Qed.

(** X2: every record that [parse_log] returns carries the base name of
    the path under the key ["file"]. *)
Theorem parse_log_records_tagged (path : string) (lines : list string)
    (records : list record) :
  parse_log path lines = Ok records ->
  Forall (fun r => file r = Some (basename path)) records.
Proof.
  intros H. unfold parse_log in H. inv_ok.
  assert (Hflush : forall st cur, has_rssi cur = true ->
            Forall (tagged path) (st_records st) -> Forall (tagged path) (flush path st cur)).
  { intros st cur _ Hst. unfold flush. apply Forall_app. split; [done|].
    by repeat constructor. }
  assert (Hst : Forall (tagged path) (st_records v)).
  { eapply (parse_lines_records_inv (tagged path)); [exact Hflush | exact Hv |].
    constructor. }
  unfold finish. repeat case_match; try done. by apply Hflush.
Qed.

Lemma parse_log_records_tagged_witness :
  exists records,
    parse_log "logs/x.log" two_blocks_log = Ok records /\
    Forall (fun r => file r = Some (basename "logs/x.log")) records.
Proof.
  eassert (H : parse_log "logs/x.log" two_blocks_log = Ok _) by (vm_compute; reflexivity).
  eexists. split; [exact H|].
  exact (parse_log_records_tagged "logs/x.log" two_blocks_log _ H).
Defined.

Lemma parse_line_count (path : string) (st st' : pstate) (raw : string) :
  parse_line path st raw = Ok st' ->
  (length (st_records st') + open_count st' <=
   length (st_records st) + open_count st + count_block_starts [raw])%nat.
Proof.
  unfold parse_line, count_block_starts, is_block_start, open_count. intros H.
  rewrite filter_cons, filter_nil.
  repeat case_match; inv_ok; simpl in *;
    try (apply write_field_records in H as (Hr & _); rewrite Hr);
    unfold flush; rewrite ?length_app; simpl; try lia; congruence.
Qed.

Lemma count_block_starts_cons (raw : string) (lines : list string) :
  count_block_starts (raw :: lines) =
    (count_block_starts [raw] + count_block_starts lines)%nat.
Proof.
  unfold count_block_starts. rewrite !filter_cons, filter_nil.
  by destruct (decide _).
Qed.

Lemma parse_lines_count (path : string) (lines : list string) : forall st st',
  parse_lines path st lines = Ok st' ->
  (length (st_records st') + open_count st' <=
   length (st_records st) + open_count st + count_block_starts lines)%nat.
Proof.
  induction lines as [|raw rest IH]; simpl; intros st st' H.
  - inv_ok. unfold count_block_starts. simpl. lia.
  - inv_ok. apply parse_line_count in Hv. apply IH in H.
    rewrite count_block_starts_cons. lia.
Qed.

(** X3: [parse_log] returns at most one record per block-start marker of
    the input. *)
Theorem parse_log_at_most_one_record_per_block (path : string)
    (lines : list string) (records : list record) :
  parse_log path lines = Ok records ->
  (length records <= count_block_starts lines)%nat.
Proof.
  intros H. unfold parse_log in H. inv_ok.
  apply parse_lines_count in Hv. unfold finish, open_count, flush in *.
  simpl in Hv. repeat case_match; rewrite ?length_app; simpl; lia.
Qed.

Lemma parse_log_at_most_one_record_per_block_witness :
  exists records,
    parse_log "x.log" two_blocks_log = Ok records /\
    (length records <= count_block_starts two_blocks_log)%nat.
Proof.
  eassert (H : parse_log "x.log" two_blocks_log = Ok _) by (vm_compute; reflexivity).
  eexists. split; [exact H|].
  exact (parse_log_at_most_one_record_per_block "x.log" two_blocks_log _ H).
Defined.

Lemma parse_line_prefix (path : string) (st st' : pstate) (raw : string) :
  parse_line path st raw = Ok st' -> st_records st `prefix_of` st_records st'.
Proof.
  intros H. apply parse_line_records in H as [-> | (cur & _ & _ & ->)]; [done|].
  unfold flush. by apply prefix_app_r.
Qed.

Lemma parse_lines_prefix (path : string) (lines : list string) : forall st st',
  parse_lines path st lines = Ok st' -> st_records st `prefix_of` st_records st'.
Proof.
  induction lines as [|raw rest IH]; simpl; intros st st' H.
  - by inv_ok.
  - inv_ok. etransitivity; [by eapply parse_line_prefix | by eapply IH].
Qed.

Lemma finish_prefix (path : string) (st : pstate) :
  st_records st `prefix_of` finish path st /\
  (length (finish path st) <= S (length (st_records st)))%nat.
Proof.
  unfold finish, flush. repeat case_match; rewrite ?length_app; simpl;
    split; try done; try lia. by apply prefix_app_r.
Qed.

(** X4: lines appended to a log change no record already returned for the
    log, except that the last one (whose block may still be open at the end
    of the log) can change or vanish: the result for the longer log starts
    with all the records of the shorter log but possibly the last. *)
Theorem parse_log_append_keeps_records (path : string) (l1 l2 : list string)
    (r1 r12 : list record) :
  parse_log path l1 = Ok r1 ->
  parse_log path (l1 ++ l2) = Ok r12 ->
  take (length r1 - 1) r1 `prefix_of` r12.
Proof.
  unfold parse_log. rewrite parse_lines_app. intros H1 H12.
  apply bind_Ok in H1 as (st1 & Hst1 & H1).
  apply bind_Ok in H12 as (st12 & Hv & H12).
  rewrite Hst1 in Hv. simpl in Hv. injection H1 as <-. injection H12 as <-.
  destruct (finish_prefix path st1) as [[k Hk] Hlen].
  apply parse_lines_prefix in Hv.
  destruct (finish_prefix path st12) as [Hp _].
  etransitivity; [|etransitivity; [exact Hv | exact Hp]].
  rewrite Hk in *. rewrite length_app in Hlen.
  destruct k as [|x k]; [rewrite app_nil_r; apply prefix_take|].
  destruct k; [|simpl in Hlen; lia].
  rewrite length_app. simpl. rewrite take_app_le by lia.
  rewrite take_ge by lia. done.
Qed.

Lemma parse_log_append_keeps_records_witness :
  exists r1 r12,
    parse_log "x.log" (scenario1_log ++ two_blocks_log) = Ok r1 /\
    parse_log "x.log" ((scenario1_log ++ two_blocks_log) ++ ["RSSI: -50 dBm"; ""]) =
      Ok r12 /\
    length r1 = 2%nat /\ length r12 = 3%nat /\
    take (length r1 - 1) r1 `prefix_of` r12.
Proof.
  eassert (H1 : parse_log "x.log" (scenario1_log ++ two_blocks_log) = Ok _)
    by (vm_compute; reflexivity).
  eassert (H12 : parse_log "x.log"
                   ((scenario1_log ++ two_blocks_log) ++ ["RSSI: -50 dBm"; ""]) = Ok _)
    by (vm_compute; reflexivity).
  do 2 eexists. split; [exact H1|]. split; [exact H12|].
  split; [reflexivity|]. split; [reflexivity|].
  exact (parse_log_append_keeps_records "x.log" _ _ _ _ H1 H12).
Defined.

Lemma parse_line_plain_closed (path : string) (st : pstate) (raw : string) :
  st_current st = None -> plain_line raw -> parse_line path st raw = Ok st.
Proof.
  intros Hc [Hs Hb]. unfold parse_line. unfold is_block_start in Hb.
  by rewrite Hs, Hb, Hc.
Qed.

(** X5: lines in front of the first block-start marker that are not
    scan-cycle markers have no effect on the result. *)
Theorem parse_log_ignores_lines_before_first_block (path : string)
    (junk lines : list string) :
  Forall plain_line junk ->
  parse_log path (junk ++ lines) = parse_log path lines.
Proof.
  intros Hj. unfold parse_log. rewrite parse_lines_app.
  assert (parse_lines path init junk = Ok init) as ->; [|done].
  induction Hj as [|raw junk Hraw _ IH]; simpl; [done|].
  by rewrite parse_line_plain_closed.
Qed.

Lemma parse_log_ignores_lines_before_first_block_witness :
  Forall plain_line ["boot"; "RSSI: -1 dBm"] /\
  parse_log "x.log" (["boot"; "RSSI: -1 dBm"] ++ two_blocks_log) =
    parse_log "x.log" two_blocks_log.
Proof.
  assert (H : Forall plain_line ["boot"; "RSSI: -1 dBm"])
    by (repeat constructor).
  split; [exact H|].
  exact (parse_log_ignores_lines_before_first_block "x.log" _ two_blocks_log H).
Defined.

(** *** When the parser raises *)

Lemma rep_sound {A} (c : cls) (s : string) (x : A) :
  forall (k : string -> string -> option A),
  rep c k s = Some x ->
  exists t r, s = t +:+ r /\ string_forallb (in_cls c) t = true /\ k t r = Some x.
Proof.
  induction s as [|a s IH]; intros k H; simpl in H.
  - by exists "", "".
  - destruct (in_cls c a) eqn:Ha; [|by exists "", (String a s)].
    destruct (rep c (fun taken rest => k (String a taken) rest) s) as [y|] eqn:Hr.
    + injection H as ->. apply IH in Hr as (t & r & -> & Ht & Hk).
      exists (String a t), r. split; [done|]. split; [|done]. simpl. by rewrite Ha.
    + by exists "", (String a s).
Qed.

Lemma int_raises_ValueError (s : string) (e : exn) : int s = Raise e -> e = ValueError.
Proof. unfold int. repeat case_match; congruence. Qed.

Lemma group_digits_int (k : string -> string -> option string) (s g : string) :
  (forall taken rest x, k taken rest = Some x -> x = taken) ->
  rep Digit (nonempty k) s = Some g ->
  within_limit g = true ->
  exists v, int g = Ok v.
Proof.
  intros Hk H Hl. apply rep_sound in H as (t & r & _ & Ht & Hx).
  destruct t as [|a t]; [done|]. simpl in Hx. apply Hk in Hx as ->.
  eexists. apply int_digits; [by rewrite all_digits_forallb | done | done].
Qed.

(** The groups of the four patterns with digits only convert when they
    are within the limit of [int]. *)
Lemma digit_patterns_int (line g : string) :
  re_match scan_start_re line = Some g \/ re_match rx_unix_re line = Some g \/
  re_match tx_counter_re line = Some g \/ re_match tx_unix_re line = Some g ->
  within_limit g = true ->
  exists v, int g = Ok v.
Proof.
  intros Hm Hlim.
  assert (Hu : forall lit, re_match [Lit lit; Star Space; Group Digit] line = Some g ->
                           exists v, int g = Ok v).
  { intros lit H. unfold re_match in H. cbn [run] in H.
    destruct (strip_prefix lit line) as [rest|]; [|done].
    apply rep_sound in H as (_ & r & _ & _ & H).
    eapply group_digits_int; [|exact H|exact Hlim]. intros taken rest' x. by intros [= ->]. }
  destruct Hm as [H | [H | [H | H]]]; try (by eapply Hu).
  unfold re_match, scan_start_re in H. cbn [run] in H.
  destruct (strip_prefix "=== Scan cycle #" line) as [rest|]; [|done].
  apply (group_digits_int (fun taken rest => run [Lit " START"] rest taken) rest g);
    [|exact H|exact Hlim].
  intros taken rest' x Hx. cbn [run] in Hx.
  destruct (strip_prefix " START" rest'); [by injection Hx as -> | done].
Qed.

Lemma parse_log_raises_ValueError (path : string) (lines : list string) (e : exn) :
  parse_log path lines = Raise e -> e = ValueError.
Proof.
  intros H. unfold parse_log in H.
  destruct (parse_lines path init lines) as [st|e'] eqn:Hl; [done|].
  simpl in H. injection H as ->. revert Hl. generalize init.
  induction lines as [|raw rest IH]; intros st Hl; simpl in Hl; [done|].
  destruct (parse_line path st raw) as [st1|e1] eqn:H1; simpl in Hl;
    [by eapply IH|]. injection Hl as ->.
  unfold parse_line, write_field in H1.
  repeat case_match; try done;
    match type of H1 with
    | int ?g ≫= _ = _ =>
        destruct (int g) eqn:Hg; simpl in H1; [done|];
        apply int_raises_ValueError in Hg; congruence
    end.
Qed.

(** X6: [parse_log] raises nothing but [ValueError]; it raises nothing at
    all when every token that a line gives to the delta or the RSSI pattern
    is an integer numeral that [int] converts, and every group of digits that
    a line gives to the scan-cycle pattern or to one of the three unsigned
    patterns is within the limit of 4300 digits; and the limit matters: a
    counter of 4301 digits makes it raise. *)
Theorem parse_log_raises_only_on_bad_token (path : string) (lines : list string) :
  (forall e, parse_log path lines = Raise e -> e = ValueError) /\
  ((forall raw g,
      raw ∈ lines ->
      (re_match delta_re (strip raw) = Some g \/ re_match rssi_re (strip raw) = Some g ->
       exists v, int g = Ok v) /\
      (re_match scan_start_re (strip raw) = Some g \/
       re_match rx_unix_re (strip raw) = Some g \/
       re_match tx_counter_re (strip raw) = Some g \/
       re_match tx_unix_re (strip raw) = Some g ->
       within_limit g = true)) ->
   exists records, parse_log path lines = Ok records) /\
  parse_log path [block_start; "TX counter (payload): " +:+ long_numeral; "RSSI: -60 dBm"] =
    Raise ValueError.
Proof.
  split; [|split].
  - apply parse_log_raises_ValueError.
  - intros Hok. unfold parse_log.
    assert (Hl : exists st, parse_lines path init lines = Ok st).
    { generalize init. induction lines as [|raw rest IH]; intros st; simpl; [eauto|].
      assert (H1 : exists st1, parse_line path st raw = Ok st1).
      { assert (Hraw : forall g,
                  re_match delta_re (strip raw) = Some g \/
                  re_match rssi_re (strip raw) = Some g -> exists v, int g = Ok v)
          by (intros g; apply Hok; left).
        assert (Hdig : forall g,
                  re_match scan_start_re (strip raw) = Some g \/
                  re_match rx_unix_re (strip raw) = Some g \/
                  re_match tx_counter_re (strip raw) = Some g \/
                  re_match tx_unix_re (strip raw) = Some g -> exists v, int g = Ok v).
        { intros g Hg. apply (digit_patterns_int (strip raw) g Hg).
          apply (Hok raw g); [left | exact Hg]. }
        unfold parse_line, write_field.
        repeat case_match; eauto;
          match goal with
          | |- exists _, int ?g ≫= _ = _ =>
              first [ destruct (Hdig g) as [v ->]; [by eauto|]
                    | destruct (Hraw g) as [v ->]; [by eauto|] ];
              simpl; eauto
          end. }
      destruct H1 as [st1 ->]. simpl. apply IH.
      intros raw' g Hin. apply Hok. by right. }
    destruct Hl as [st ->]. simpl. eauto.
  - vm_compute. reflexivity.
Qed.

Lemma parse_log_raises_only_on_bad_token_witness :
  exists records, parse_log "x.log" rssi_only_log = Ok records.
Proof.
  apply (proj1 (proj2 (parse_log_raises_only_on_bad_token "x.log" rssi_only_log))).
  intros raw g Hin. unfold rssi_only_log in Hin.
  repeat (apply elem_of_cons in Hin as [-> | Hin]);
    [| |  | by apply elem_of_nil in Hin];
    (split; [intros [Hm | Hm] | intros [Hm | [Hm | [Hm | Hm]]]]);
    vm_compute in Hm; try discriminate Hm.
  injection Hm as <-. by eexists.
Defined.

(** *** Minimum and maximum *)

Lemma foldl_min_spec (l : list Z) : forall x,
  (foldl Z.min x l = x \/ foldl Z.min x l ∈ l) /\
  foldl Z.min x l <= x /\ Forall (fun y => foldl Z.min x l <= y) l.
Proof.
  induction l as [|a l IH]; intros x; simpl.
  - split; [by left|]. split; [lia | constructor].
  - destruct (IH (Z.min x a)) as (Hin & Hle & Hall).
    split; [|split; [lia | constructor; [lia | done]]].
    destruct Hin as [Heq | Hin]; [|right; by right].
    rewrite Heq. destruct (Z.min_spec x a) as [[_ ->] | [_ ->]]; [by left|].
    right. by left.
Qed.

Lemma foldl_max_spec (l : list Z) : forall x,
  (foldl Z.max x l = x \/ foldl Z.max x l ∈ l) /\
  x <= foldl Z.max x l /\ Forall (fun y => y <= foldl Z.max x l) l.
Proof.
  induction l as [|a l IH]; intros x; simpl.
  - split; [by left|]. split; [lia | constructor].
  - destruct (IH (Z.max x a)) as (Hin & Hle & Hall).
    split; [|split; [lia | constructor; [lia | done]]].
    destruct Hin as [Heq | Hin]; [|right; by right].
    rewrite Heq. destruct (Z.max_spec x a) as [[_ ->] | [_ ->]]; [right; by left|].
    by left.
Qed.

Lemma min_or_none_spec (l : list Z) :
  match min_or_none l with
  | Some m => m ∈ l /\ Forall (fun y => m <= y) l
  | None => l = []
  end.
Proof.
  destruct l as [|x l]; simpl; [done|].
  destruct (foldl_min_spec l x) as (Hin & Hle & Hall).
  split; [|by constructor]. destruct Hin as [-> | Hin]; [by left | by right].
Qed.

Lemma max_or_none_spec (l : list Z) :
  match max_or_none l with
  | Some m => m ∈ l /\ Forall (fun y => y <= m) l
  | None => l = []
  end.
Proof.
  destruct l as [|x l]; simpl; [done|].
  destruct (foldl_max_spec l x) as (Hin & Hle & Hall).
  split; [|by constructor]. destruct Hin as [-> | Hin]; [by left | by right].
Qed.

Lemma elem_of_omap_sorted (f : record -> option Z) (records : list record) (v : Z) :
  v ∈ omap f (sorted records) <-> exists r, r ∈ records /\ f r = Some v.
Proof.
  rewrite list_elem_of_omap. split; intros (r & Hr & Hf); exists r; split; try done.
  - by rewrite <- sorted_Permutation.
  - by rewrite sorted_Permutation.
Qed.

(** X7: in every summary the minimum printed for the RSSI is the RSSI of
    some record and is at most the RSSI of every record that has one, the
    maximum likewise from above, and the same for the delta; [None] is
    printed exactly when no record has the value. *)
Theorem summary_min_max (records : list record) (expected_count : Z)
    (s : summary) (ret : Z * float * Z * float) :
  AnalyzeBleLogsCombine.summarize_records records expected_count =
    Ok (Summary s, ret) ->
  let extreme (f : record -> option Z) (le : Z -> Z -> Prop) (o : option Z) :=
    match o with
    | Some m => (exists r, r ∈ records /\ f r = Some m) /\
                forall r v, r ∈ records -> f r = Some v -> le m v
    | None => forall r, r ∈ records -> f r = None
    end in
  extreme rssi_dbm Z.le (min_rssi s) /\
  extreme rssi_dbm Z.ge (max_rssi s) /\
  extreme delta_ms Z.le (min_delta s) /\
  extreme delta_ms Z.ge (max_delta s).
Proof.
  intros H extreme. unfold AnalyzeBleLogsCombine.summarize_records in H.
  destruct records as [|r0 l]; [by inv_ok|]. inv_ok.
  apply summary_of_Ok in Hv.
  destruct Hv as (_ & _ & _ & -> & -> & -> & -> & _).
  assert (Hmin : forall f, extreme f Z.le (min_or_none (omap f (sorted (r0 :: l))))).
  { intros f. pose proof (min_or_none_spec (omap f (sorted (r0 :: l)))) as Hs.
    unfold extreme. destruct (min_or_none _) as [m|].
    - destruct Hs as [Hin Hall]. split; [by apply elem_of_omap_sorted|].
      intros r v Hr Hf. rewrite Forall_forall in Hall. apply Hall.
      apply elem_of_omap_sorted. eauto.
    - intros r Hr. destruct (f r) as [v|] eqn:Hf; [|done].
      assert (Hin : v ∈ omap f (sorted (r0 :: l))) by (apply elem_of_omap_sorted; eauto).
      rewrite Hs in Hin. by apply elem_of_nil in Hin. }
  assert (Hmax : forall f, extreme f Z.ge (max_or_none (omap f (sorted (r0 :: l))))).
  { intros f. pose proof (max_or_none_spec (omap f (sorted (r0 :: l)))) as Hs.
    unfold extreme. destruct (max_or_none _) as [m|].
    - destruct Hs as [Hin Hall]. split; [by apply elem_of_omap_sorted|].
      intros r v Hr Hf. rewrite Forall_forall in Hall. apply Z.le_ge, Hall.
      apply elem_of_omap_sorted. eauto.
    - intros r Hr. destruct (f r) as [v|] eqn:Hf; [|done].
      assert (Hin : v ∈ omap f (sorted (r0 :: l))) by (apply elem_of_omap_sorted; eauto).
      rewrite Hs in Hin. by apply elem_of_nil in Hin. }
  split_and!; [apply Hmin | apply Hmax | apply Hmin | apply Hmax].
Qed.

Lemma summary_min_max_witness :
  exists s ret,
    AnalyzeBleLogsCombine.summarize_records
      [packet (Some 2000) (Some 2) (Some 12) (-70); packet (Some 1000) (Some 1) None (-55)]
      200 = Ok (Summary s, ret) /\
    min_rssi s = Some (-70) /\ max_rssi s = Some (-55) /\
    forall r v,
      r ∈ [packet (Some 2000) (Some 2) (Some 12) (-70);
           packet (Some 1000) (Some 1) None (-55)] ->
      rssi_dbm r = Some v -> -70 <= v.
Proof.
  eassert (H : AnalyzeBleLogsCombine.summarize_records
                 [packet (Some 2000) (Some 2) (Some 12) (-70);
                  packet (Some 1000) (Some 1) None (-55)] 200 = Ok (Summary _, _))
    by (vm_compute; reflexivity).
  do 2 eexists. split; [exact H|]. split; [reflexivity|]. split; [reflexivity|].
  exact (proj2 (proj1 (summary_min_max _ _ _ _ H))).
Defined.

(** *** The summary and the order of the records *)

Lemma mean_or_nan_Permutation (l l' : list Z) :
  l ≡ₚ l' -> mean_or_nan l = mean_or_nan l'.
Proof.
  intros Hp. unfold mean_or_nan.
  rewrite (sum_Permutation l l' Hp), (Permutation_length Hp).
  destruct l, l'; try done.
  - by apply Permutation_nil_cons in Hp.
  - symmetry in Hp. by apply Permutation_nil_cons in Hp.
Qed.

Lemma min_or_none_Permutation (l l' : list Z) :
  l ≡ₚ l' -> min_or_none l = min_or_none l'.
Proof.
  intros Hp. pose proof (min_or_none_spec l) as H. pose proof (min_or_none_spec l') as H'.
  destruct (min_or_none l) as [m|], (min_or_none l') as [m'|]; try done.
  - destruct H as [Hin Hall], H' as [Hin' Hall']. rewrite Forall_forall in Hall, Hall'.
    f_equal. apply Z.le_antisymm; [apply Hall; by rewrite Hp | apply Hall'; by rewrite <- Hp].
  - subst l'. apply Permutation_nil_r in Hp. subst l. destruct H as [H _].
    by apply elem_of_nil in H.
  - subst l. apply Permutation_nil in Hp. subst l'. destruct H' as [H _].
    by apply elem_of_nil in H.
Qed.

Lemma max_or_none_Permutation (l l' : list Z) :
  l ≡ₚ l' -> max_or_none l = max_or_none l'.
Proof.
  intros Hp. pose proof (max_or_none_spec l) as H. pose proof (max_or_none_spec l') as H'.
  destruct (max_or_none l) as [m|], (max_or_none l') as [m'|]; try done.
  - destruct H as [Hin Hall], H' as [Hin' Hall']. rewrite Forall_forall in Hall, Hall'.
    f_equal. apply Z.le_antisymm; [apply Hall'; by rewrite <- Hp | apply Hall; by rewrite Hp].
  - subst l'. apply Permutation_nil_r in Hp. subst l. destruct H as [H _].
    by apply elem_of_nil in H.
  - subst l. apply Permutation_nil in Hp. subst l'. destruct H' as [H _].
    by apply elem_of_nil in H.
Qed.

(** Two sorted lists with the same elements are equal, when elements that
    are below each other are equal. *)
Lemma sorted_lists_equal {A} (R : A -> A -> Prop) (l1 : list A) : forall l2,
  (forall x y, x ∈ l1 -> y ∈ l2 -> R x y -> R y x -> x = y) ->
  StronglySorted R l1 -> StronglySorted R l2 -> l1 ≡ₚ l2 -> l1 = l2.
Proof.
  induction l1 as [|a l1 IH]; intros l2 Hanti H1 H2 Hp.
  - symmetry. by apply Permutation_nil.
  - destruct l2 as [|b l2]; [by apply Permutation_nil_r in Hp|].
    apply StronglySorted_inv in H1 as [H1 Ha]. apply StronglySorted_inv in H2 as [H2 Hb].
    rewrite Forall_forall in Ha, Hb.
    assert (Hab : a = b).
    { assert (Hin_a : a ∈ b :: l2) by (rewrite <- Hp; by left).
      assert (Hin_b : b ∈ a :: l1) by (rewrite Hp; by left).
      apply elem_of_cons in Hin_a as [? | Hin_a]; [done|].
      apply elem_of_cons in Hin_b as [? | Hin_b]; [done|].
      apply Hanti; [by left | by left | by apply Ha | by apply Hb]. }
    subst b. f_equal. apply IH; [|done|done|by apply Permutation_cons_inv in Hp].
    intros x y Hx Hy. apply Hanti; by right.
Qed.

Lemma sorted_keys_StronglySorted (records : list record) :
  StronglySorted Z.le (map sort_key (sorted records)).
Proof.
  pose proof (sorted_StronglySorted records) as H.
  induction H as [|x l _ IH Hx]; simpl; constructor; [done|].
  apply Forall_fmap. exact Hx.
Qed.

Lemma sorted_keys_Permutation (l l' : list record) :
  l ≡ₚ l' -> map sort_key (sorted l) = map sort_key (sorted l').
Proof.
  intros Hp. apply (sorted_lists_equal Z.le).
  - intros; lia.
  - apply sorted_keys_StronglySorted.
  - apply sorted_keys_StronglySorted.
  - apply Permutation_map. by rewrite !sorted_Permutation.
Qed.

Lemma sorted_Permutation_eq (l l' : list record) :
  l ≡ₚ l' ->
  (forall x y, x ∈ l -> y ∈ l -> sort_key x = sort_key y -> x = y) ->
  sorted l = sorted l'.
Proof.
  intros Hp Hinj. apply (sorted_lists_equal le_key).
  - intros x y Hx Hy Hxy Hyx. unfold le_key in *. apply Hinj.
    + by rewrite <- sorted_Permutation.
    + by rewrite Hp, <- sorted_Permutation.
    + lia.
  - apply sorted_StronglySorted.
  - apply sorted_StronglySorted.
  - by rewrite !sorted_Permutation.
Qed.

Lemma duration_of_default (a b : option Z) :
  duration_of a b = duration_of (Some (default 0 a)) (Some (default 0 b)).
Proof. unfold duration_of. by destruct a, b. Qed.

Lemma head_key (l : list record) :
  default 0 (head l ≫= tx_unix_ms) = default 0 (head (map sort_key l)).
Proof. by destruct l. Qed.

Lemma last_key (l : list record) :
  default 0 (last l ≫= tx_unix_ms) = default 0 (last (map sort_key l)).
Proof.
  induction l as [|x l _] using rev_ind; [done|].
  rewrite map_app. simpl map. by rewrite !last_snoc.
Qed.

Lemma duration_of_keys (l : list record) :
  duration_of (head l ≫= tx_unix_ms) (last l ≫= tx_unix_ms) =
  duration_of (Some (default 0 (head (map sort_key l))))
              (Some (default 0 (last (map sort_key l)))).
Proof. by rewrite duration_of_default, head_key, last_key. Qed.

(** X8: the summary of a list of records does not depend on the order of
    the list, up to the counter range: for a permutation of the list the
    function returns as well, with the same tuple, the same loss, time span
    and RSSI and delta statistics; and when no two different records have
    the same TX-time key, with the same first and last counter too. *)
Theorem summary_order_independent (records records' : list record)
    (expected_count : Z) (s : summary) (ret : Z * float * Z * float) :
  records ≡ₚ records' ->
  AnalyzeBleLogsCombine.summarize_records records expected_count =
    Ok (Summary s, ret) ->
  exists s',
    AnalyzeBleLogsCombine.summarize_records records' expected_count =
      Ok (Summary s', ret) /\
    n s' = n s /\ loss_count s' = loss_count s /\ loss_pct s' = loss_pct s /\
    duration_s s' = duration_s s /\
    mean_rssi s' = mean_rssi s /\ min_rssi s' = min_rssi s /\
    max_rssi s' = max_rssi s /\
    mean_delta s' = mean_delta s /\ min_delta s' = min_delta s /\
    max_delta s' = max_delta s /\
    ((forall x y, x ∈ records -> y ∈ records ->
                  default 0 (tx_unix_ms x) = default 0 (tx_unix_ms y) -> x = y) ->
     s' = s).
Proof.
  intros Hp H. unfold AnalyzeBleLogsCombine.summarize_records in H.
  destruct records as [|r0 l]; [by inv_ok|]. inv_ok.
  assert (Hne : records' <> []).
  { intros ->. by apply Permutation_nil_r in Hp. }
  assert (Hsum : forall s', summary_of records' expected_count = Ok s' ->
            AnalyzeBleLogsCombine.summarize_records records' expected_count =
              Ok (Summary s', (n s', mean_rssi s', loss_count s', loss_pct s'))).
  { intros s' Hs'. unfold AnalyzeBleLogsCombine.summarize_records.
    destruct records'; [done|]. by rewrite Hs'. }
  assert (Hom : forall f : record -> option Z,
            omap f (sorted (r0 :: l)) ≡ₚ omap f (sorted records')).
  { intros f. by rewrite !sorted_Permutation, Hp. }
  pose proof Hv as Hs. apply summary_of_Ok in Hs.
  destruct Hs as (Hn & Hm1 & Hm2 & Hmin1 & Hmax1 & Hmin2 & Hmax2 & Hf & Hl & Hlc & Hlp & Hd).
  assert (Hret : exists s', summary_of records' expected_count = Ok s').
  { unfold summary_of.
    rewrite <- (mean_or_nan_Permutation _ _ (Hom rssi_dbm)), Hm1.
    rewrite <- (mean_or_nan_Permutation _ _ (Hom delta_ms)), Hm2. simpl.
    apply item_first_Ok in Hf as [t Hf].
    destruct (omap tx_counter (sorted records')) as [|c' t'] eqn:Hc'.
    { pose proof (Hom tx_counter) as Hpc. rewrite Hf, Hc' in Hpc.
      by apply Permutation_nil_r in Hpc. }
    simpl.
    assert (Hfin : exists c'', item_last (c' :: t') = Ok c'').
    { unfold item_last. destruct (last (c' :: t')) eqn:Hl'; [eauto|].
      by apply last_None in Hl'. }
    destruct Hfin as [c'' ->]. simpl.
    rewrite sorted_length, <- (Permutation_length Hp), <- Hlc, Hlp. simpl.
    rewrite duration_of_keys, <- (sorted_keys_Permutation _ _ Hp), <- duration_of_keys, Hd.
    simpl. eauto. }
  destruct Hret as [s' Hs']. exists s'.
  pose proof Hs' as Hs2. apply summary_of_Ok in Hs2.
  destruct Hs2 as (Hn' & Hm1' & Hm2' & Hmin1' & Hmax1' & Hmin2' & Hmax2' & Hf' & Hl'
                   & Hlc' & Hlp' & Hd').
  rewrite <- (Permutation_length Hp) in Hn', Hlc'.
  rewrite <- (mean_or_nan_Permutation _ _ (Hom rssi_dbm)), Hm1 in Hm1'.
  rewrite <- (mean_or_nan_Permutation _ _ (Hom delta_ms)), Hm2 in Hm2'.
  rewrite duration_of_keys, <- (sorted_keys_Permutation _ _ Hp), <- duration_of_keys, Hd
    in Hd'.
  rewrite <- (min_or_none_Permutation _ _ (Hom rssi_dbm)), <- Hmin1 in Hmin1'.
  rewrite <- (max_or_none_Permutation _ _ (Hom rssi_dbm)), <- Hmax1 in Hmax1'.
  rewrite <- (min_or_none_Permutation _ _ (Hom delta_ms)), <- Hmin2 in Hmin2'.
  rewrite <- (max_or_none_Permutation _ _ (Hom delta_ms)), <- Hmax2 in Hmax2'.
  assert (Hlceq : loss_count s' = loss_count s) by congruence.
  rewrite Hlceq, Hlp in Hlp'.
  inv_ok.
  split.
  { rewrite (Hsum s' Hs'). do 2 f_equal. congruence. }
  split_and!; try congruence.
  intros Hinj. rewrite <- (sorted_Permutation_eq _ _ Hp) in Hf', Hl' by exact Hinj.
  rewrite Hf in Hf'. rewrite Hl in Hl'.
  destruct s, s'; simpl in *. congruence.
Qed.

Lemma summary_order_independent_witness :
  exists s ret,
    AnalyzeBleLogsCombine.summarize_records
      [packet (Some 2000) (Some 2) None (-70); packet (Some 1000) (Some 1) None (-55)]
      200 = Ok (Summary s, ret) /\
    exists s',
      AnalyzeBleLogsCombine.summarize_records
        [packet (Some 1000) (Some 1) None (-55); packet (Some 2000) (Some 2) None (-70)]
        200 = Ok (Summary s', ret) /\
      mean_rssi s' = mean_rssi s /\ duration_s s' = duration_s s.
Proof.
  eassert (H : AnalyzeBleLogsCombine.summarize_records
                 [packet (Some 2000) (Some 2) None (-70);
                  packet (Some 1000) (Some 1) None (-55)] 200 = Ok (Summary _, _))
    by (vm_compute; reflexivity).
  do 2 eexists. split; [exact H|].
  destruct (summary_order_independent _
              [packet (Some 1000) (Some 1) None (-55);
               packet (Some 2000) (Some 2) None (-70)] _ _ _
              (perm_swap _ _ []) H)
    as (s' & Hs' & _ & _ & _ & Hd & Hm & _).
  exists s'. split; [exact Hs'|]. split; [exact Hm | exact Hd].
Defined.

(** *** Sign and NaN of the computed floats *)

Lemma binary_round_aux_cases (sx : bool) (mx ex : Z) (lx : location) :
  0 <= mx ->
  binary_round_aux prec emax sx mx ex lx = S754_zero sx \/
  binary_round_aux prec emax sx mx ex lx = S754_infinity sx \/
  exists m e, binary_round_aux prec emax sx mx ex lx = S754_finite sx m e.
Proof.
  intros Hm. unfold binary_round_aux.
  pose proof (shr_fexp_spec mx ex lx Hm) as (H0 & _ & _).
  destruct (shr_fexp prec emax mx ex lx) as [mrs1 e1]. simpl in H0.
  pose proof (round_nearest_even_bounds _ (loc_of_shr_record mrs1) H0) as Hr.
  pose proof (shr_fexp_spec (round_nearest_even (shr_m mrs1) (loc_of_shr_record mrs1))
                e1 loc_Exact) as (H2 & _ & _); [lia|].
  destruct (shr_fexp prec emax _ e1 loc_Exact) as [mrs2 e2]. simpl in H2.
  destruct (shr_m mrs2) as [|p|p]; [by left | | lia].
  destruct (e2 <=? emax - prec); [right; right; eauto | right; by left].
Qed.

Lemma SFdiv_finite_cases (sx sy : bool) (mx my : positive) (ex ey : Z) :
  let q := SFdiv prec emax (S754_finite sx mx ex) (S754_finite sy my ey) in
  q = S754_zero (xorb sx sy) \/ q = S754_infinity (xorb sx sy) \/
  exists m e, q = S754_finite (xorb sx sy) m e.
Proof.
  unfold SFdiv, SFdiv_core_binary.
  set (e' := Z.min _ _). set (m' := match ex - ey - e' with 0 => _ | _ => _ end).
  assert (Hm' : 0 <= m').
  { subst m'. destruct (ex - ey - e'); [lia | | lia].
    rewrite Z.shiftl_mul_pow2 by lia. apply Z.mul_nonneg_nonneg; [lia|].
    apply Z.pow_nonneg. lia. }
  pose proof (Z_div_mod m' (Z.pos my) eq_refl) as Hdiv.
  destruct (Z.div_eucl m' (Z.pos my)) as [q r]. destruct Hdiv as [Hq Hr].
  apply binary_round_aux_cases. nia.
Qed.

(** The quotient of two ints is never NaN. *)
Lemma int_truediv_not_nan (a b : Z) (q : float) :
  int_truediv a b = Ok q -> is_nan q = false.
Proof.
  unfold int_truediv. destruct (Z.eqb_spec b 0) as [|Hb]; [done|].
  unfold finite_or_overflow. intros H.
  assert (Hq : is_nan (SFdiv prec emax (exact a) (exact b)) = false).
  { destruct a as [|pa|pa], b as [|pb|pb]; try done; unfold exact;
      match goal with
      | |- is_nan (SFdiv _ _ (S754_finite ?sx ?mx 0) (S754_finite ?sy ?my 0)) = _ =>
          destruct (SFdiv_finite_cases sx sy mx my 0 0) as [-> | [-> | (m & e & ->)]]
      end; done. }
  destruct (SFdiv prec emax (exact a) (exact b)); by inv_ok.
Qed.

Lemma mean_or_nan_is_nan (l : list Z) (m : float) :
  mean_or_nan l = Ok m -> (is_nan m = true <-> l = []).
Proof.
  destruct l as [|x l]; simpl.
  - intros [= <-]. done.
  - intros H. apply int_truediv_not_nan in H. rewrite H. split; done.
Qed.

(** X9: in every summary the mean RSSI is NaN exactly when no record has
    an RSSI, and the mean delta is NaN exactly when no record has a delta;
    so the mean RSSI of records that [parse_log] returned is never NaN. *)
Theorem summary_mean_nan_iff_no_value (records : list record)
    (expected_count : Z) (s : summary) (ret : Z * float * Z * float) :
  AnalyzeBleLogsCombine.summarize_records records expected_count =
    Ok (Summary s, ret) ->
  (is_nan (mean_rssi s) = true <-> forall r, r ∈ records -> rssi_dbm r = None) /\
  (is_nan (mean_delta s) = true <-> forall r, r ∈ records -> delta_ms r = None) /\
  (Forall (fun r => is_Some (rssi_dbm r)) records -> is_nan (mean_rssi s) = false).
Proof.
  intros H. unfold AnalyzeBleLogsCombine.summarize_records in H.
  destruct records as [|r0 l]; [by inv_ok|]. inv_ok.
  apply summary_of_Ok in Hv. destruct Hv as (_ & Hm1 & Hm2 & _).
  apply mean_or_nan_is_nan in Hm1, Hm2.
  assert (Hnone : forall f : record -> option Z,
            omap f (sorted (r0 :: l)) = [] <-> forall r, r ∈ r0 :: l -> f r = None).
  { intros f. split.
    - intros Ho r Hr. destruct (f r) as [v|] eqn:Hf; [|done].
      assert (Hin : v ∈ omap f (sorted (r0 :: l))) by (apply elem_of_omap_sorted; eauto).
      rewrite Ho in Hin. by apply elem_of_nil in Hin.
    - intros Hall. destruct (omap f (sorted (r0 :: l))) as [|v t] eqn:Ho; [done|].
      assert (Hin : v ∈ omap f (sorted (r0 :: l))) by (rewrite Ho; by left).
      apply elem_of_omap_sorted in Hin as (r & Hr & Hf). by rewrite (Hall r Hr) in Hf. }
  split; [by rewrite Hm1, Hnone|]. split; [by rewrite Hm2, Hnone|].
  intros Hall. apply not_true_iff_false. rewrite Hm1, Hnone. intros Hn.
  apply Forall_cons in Hall as [[v Hv] _]. rewrite (Hn r0) in Hv; [done | by left].
Qed.

Lemma summary_mean_nan_iff_no_value_witness :
  exists s ret,
    AnalyzeBleLogsCombine.summarize_records
      [packet (Some 1000) (Some 1) None (-55)] 200 = Ok (Summary s, ret) /\
    is_nan (mean_rssi s) = false /\
    (is_nan (mean_delta s) = true <->
     forall r, r ∈ [packet (Some 1000) (Some 1) None (-55)] -> delta_ms r = None).
Proof.
  eassert (H : AnalyzeBleLogsCombine.summarize_records
                 [packet (Some 1000) (Some 1) None (-55)] 200 = Ok (Summary _, _))
    by (vm_compute; reflexivity).
  do 2 eexists. split; [exact H|].
  destruct (summary_mean_nan_iff_no_value _ _ _ _ H) as (_ & Hd & Hr).
  split; [|exact Hd]. apply Hr. repeat constructor. by eexists.
Defined.

Lemma sorted_head_le_last (ks : list Z) :
  StronglySorted Z.le ks -> default 0 (head ks) <= default 0 (last ks).
Proof.
  intros H. destruct H as [|x t _ Hx]; [done|]. simpl head.
  destruct (last (x :: t)) as [y|] eqn:Hl; [|by apply last_None in Hl].
  simpl. apply last_Some_elem_of in Hl. apply elem_of_cons in Hl as [-> | Hl]; [lia|].
  rewrite Forall_forall in Hx. by apply Hx.
Qed.

Lemma float_of_int_nonneg (z : Z) (x : float) :
  0 <= z -> float_of_int z = Ok x ->
  x = S754_zero false \/ exists m e, x = S754_finite false m e.
Proof.
  intros Hz. unfold float_of_int, finite_or_overflow, binary_normalize.
  destruct z as [|p|p]; [intros [= <-]; by left | | lia].
  unfold binary_round. destruct (shl_align p 0 _) as [mz ez].
  destruct (binary_round_aux_cases false (Z.pos mz) ez loc_Exact ltac:(lia))
    as [-> | [-> | (m & e & ->)]];
    [intros [= <-]; by left | done | intros [= <-]; right; eauto].
Qed.

(** X10: the time span of a summary is never negative: it is NaN, or a
    float that is not below zero. *)
Theorem summary_time_span_not_negative (records : list record)
    (expected_count : Z) (s : summary) (ret : Z * float * Z * float) :
  AnalyzeBleLogsCombine.summarize_records records expected_count =
    Ok (Summary s, ret) ->
  SFltb (duration_s s) (S754_zero false) = false.
Proof.
  intros H. unfold AnalyzeBleLogsCombine.summarize_records in H.
  destruct records as [|r0 l]; [by inv_ok|]. inv_ok.
  apply summary_of_Ok in Hv.
  destruct Hv as (_ & _ & _ & _ & _ & _ & _ & _ & _ & _ & _ & Hd).
  rewrite duration_of_keys in Hd. generalize dependent (duration_s s). intros d Hd.
  pose proof (sorted_head_le_last _ (sorted_keys_StronglySorted (r0 :: l))) as Hle.
  set (a := default 0 (head (map sort_key (sorted (r0 :: l))))) in *.
  set (b := default 0 (last (map sort_key (sorted (r0 :: l))))) in *.
  unfold duration_of in Hd. destruct (truthy _ && truthy _); [|by inv_ok].
  change (int_div_float (b - a) (lit 1000) = Ok d) in Hd.
  unfold int_div_float in Hd. inv_ok.
  apply float_of_int_nonneg in Hv; [|lia].
  assert (Hy : exists m e, lit 1000 = S754_finite false m e) by (vm_compute; eauto).
  destruct Hy as (my & ey & Hy). rewrite Hy in Hd. simpl in Hd. inv_ok.
  destruct Hv as [-> | (m & e & ->)]; [done|].
  destruct (SFdiv_finite_cases false false m my e ey) as [-> | [-> | (m' & e' & ->)]]; done.
Qed.

Lemma summary_time_span_not_negative_witness :
  exists s ret,
    AnalyzeBleLogsCombine.summarize_records
      [packet (Some 2000) (Some 2) None (-70); packet (Some 1000) (Some 1) None (-55)]
      200 = Ok (Summary s, ret) /\
    SFltb (duration_s s) (S754_zero false) = false.
Proof.
  eassert (H : AnalyzeBleLogsCombine.summarize_records
                 [packet (Some 2000) (Some 2) None (-70);
                  packet (Some 1000) (Some 1) None (-55)] 200 = Ok (Summary _, _))
    by (vm_compute; reflexivity).
  do 2 eexists. split; [exact H|].
  exact (summary_time_span_not_negative _ _ _ _ H).
Defined.

(** *** The per-file plots *)

Lemma bind_Done {A B} (m : outcome A) (f : A -> outcome B) (b : B) :
  m ≫= f = Done b -> exists a, m = Done a /\ f a = Done b.
Proof. destruct m as [a|e]; simpl; [eauto | discriminate]. Qed.

Lemma items_Done (key : string) (get : record -> option Z) (l : list record)
    (vs : list Z) :
  items key get l = Done vs <-> Forall (fun r => is_Some (get r)) l /\ vs = omap get l.
Proof.
  revert vs. induction l as [|r l IH]; intros vs; simpl.
  - split; [intros [= <-]; by split | by intros [_ ->]].
  - destruct (get r) as [v|] eqn:Hr.
    + split.
      * intros H. apply bind_Done in H as (vs' & Hvs & [= <-]).
        apply IH in Hvs as [Hall ->]. split; [|done]. constructor; [by rewrite Hr | done].
      * intros [Hall ->]. apply Forall_cons in Hall as [_ Hall].
        by rewrite (proj2 (IH (omap get l)) (conj Hall eq_refl)).
    + split; [done|]. intros [Hall _]. apply Forall_cons in Hall as [[v Hv] _].
      by rewrite Hr in Hv.
Qed.

Lemma items_Failed (key : string) (get : record -> option Z) (l : list record) :
  (exists r, r ∈ l /\ get r = None) -> items key get l = Failed (KeyError key).
Proof.
  intros (r & Hr & Hn). induction l as [|x l IH]; [by apply elem_of_nil in Hr|].
  simpl. destruct (get x) as [v|] eqn:Hx; [|done].
  apply elem_of_cons in Hr as [-> | Hr]; [congruence|]. by rewrite IH.
Qed.

Lemma omap_length_all {A B} (get : A -> option B) (l : list A) :
  Forall (fun r => is_Some (get r)) l -> length (omap get l) = length l.
Proof.
  induction 1 as [|r l [v Hv] _ IH]; simpl; [done|]. rewrite Hv. simpl. f_equal. exact IH.
Qed.

Lemma Forall_sorted (P : record -> Prop) (records : list record) :
  Forall P (sorted records) <-> Forall P records.
Proof. by rewrite sorted_Permutation. Qed.

(** X11: for records that all have an RSSI (as [parse_log] returns them):
    when every record has a counter, [plot_rssi_vs_counter] gives to
    [plt.plot] the counters and the RSSI values in the sorted order, one
    point per record, and returns or raises as that call does; as soon as
    one record has no counter it raises [KeyError] for the key
    ["tx_counter"], before anything is drawn. *)
Theorem plot_rssi_vs_counter_needs_counters (lib : library) (records : list record) :
  records <> [] ->
  Forall (fun r => is_Some (rssi_dbm r)) records ->
  (Forall (fun r => is_Some (tx_counter r)) records ->
   plot_rssi_vs_counter lib records =
     (_ ← plt_plot lib (omap tx_counter (sorted records)) (omap rssi_dbm (sorted records));
      Done (Some (omap tx_counter (sorted records), omap rssi_dbm (sorted records)))) /\
   length (omap tx_counter (sorted records)) = length records /\
   length (omap rssi_dbm (sorted records)) = length records) /\
  ((exists r, r ∈ records /\ tx_counter r = None) ->
   plot_rssi_vs_counter lib records = Failed (KeyError "tx_counter")).
Proof.
  intros Hne Hrssi. unfold plot_rssi_vs_counter.
  destruct records as [|r0 l]; [done|]. set (rs := sorted (r0 :: l)).
  assert (Hrs : rs ≡ₚ r0 :: l) by apply sorted_Permutation. clearbody rs. split.
  - intros Hc. rewrite <- Hrs in Hc, Hrssi.
    rewrite (proj2 (items_Done "tx_counter" tx_counter rs _) (conj Hc eq_refl)).
    cbn [mbind outcome_bind].
    rewrite (proj2 (items_Done "rssi_dbm" rssi_dbm rs _) (conj Hrssi eq_refl)).
    split; [done|].
    rewrite (omap_length_all tx_counter rs Hc), (omap_length_all rssi_dbm rs Hrssi).
    by rewrite (Permutation_length Hrs).
  - intros (r & Hr & Hn). rewrite (items_Failed "tx_counter" tx_counter rs); [reflexivity|].
    exists r. split; [by rewrite Hrs | done].
Qed.

Lemma plot_rssi_vs_counter_needs_counters_witness :
  plot_rssi_vs_counter returning
    [packet (Some 2000) (Some 2) None (-70); packet (Some 1000) None None (-55)] =
    Failed (KeyError "tx_counter") /\
  plot_rssi_vs_counter returning
    [packet (Some 2000) (Some 2) None (-70); packet (Some 1000) (Some 1) None (-55)] =
    Done (Some ([1; 2], [-55; -70])).
Proof.
  split.
  - apply (plot_rssi_vs_counter_needs_counters returning
             [packet (Some 2000) (Some 2) None (-70); packet (Some 1000) None None (-55)]);
      [discriminate | repeat constructor; by eexists |].
    exists (packet (Some 1000) None None (-55)). split; [|reflexivity].
    right. left.
  - apply (plot_rssi_vs_counter_needs_counters returning
             [packet (Some 2000) (Some 2) None (-70);
              packet (Some 1000) (Some 1) None (-55)]);
      [discriminate | repeat constructor; by eexists | repeat constructor; by eexists].
Defined.

(** *** The loop of [main] *)

Lemma parse_log_complete (path : string) (lines : list string) (records : list record) :
  parse_log path lines = Ok records -> Forall complete records.
Proof.
  intros H. unfold parse_log in H. inv_ok. apply finish_complete.
  eapply parse_lines_complete; [exact Hv | constructor].
Qed.

Lemma of_result_Done {A} (r : result A) (a : A) : of_result r = Done a -> r = Ok a.
Proof. destruct r; simpl; congruence. Qed.

Lemma summarize_records_nonempty (records : list record) (expected_count : Z) :
  records <> [] ->
  AnalyzeBleLogsCombine.summarize_records records expected_count =
    s ← summary_of records expected_count;
    Ok (Summary s, (n s, mean_rssi s, loss_count s, loss_pct s)).
Proof. by destruct records. Qed.

Lemma main_file_Done (lib : library) (expected_count : Z) (acc acc' : collected)
    (base path : string) (lines : list string) :
  main_file lib expected_count acc base path lines = Done acc' ->
  exists records,
    parse_log path lines = Ok records /\
    Forall (fun r => is_Some (tx_counter r)) records /\
    (records = [] -> acc' = acc) /\
    (records <> [] ->
     exists mean pct,
       is_nan mean = false /\
       length (omap tx_counter (sorted records)) = length records /\
       length (omap rssi_dbm (sorted records)) = length records /\
       acc' =
         {| all_line_data :=
              all_line_data acc ++
                [(base, Z.of_nat (length records),
                  omap tx_counter (sorted records), omap rssi_dbm (sorted records))];
            all_hist_data := all_hist_data acc ++ [(base, omap rssi_dbm records)];
            all_mean_data :=
              all_mean_data acc ++ [(base, Z.of_nat (length records), mean)];
            all_loss_data :=
              all_loss_data acc ++
                [(base, Z.max (expected_count - Z.of_nat (length records)) 0, pct)] |}).
Proof.
  unfold main_file. intros H.
  apply bind_Done in H as (records & Hp & H). apply of_result_Done in Hp.
  apply bind_Done in H as ([rep [[[n_packets mean] loss] pct]] & Hs & H).
  apply of_result_Done in Hs.
  apply bind_Done in H as (p1 & _ & H). apply bind_Done in H as (p2 & _ & H).
  exists records. split; [exact Hp|].
  destruct records as [|r0 l].
  { injection H as <-. by split_and!. }
  remember (r0 :: l) as records eqn:Hrec.
  assert (Hne : records <> []) by (by subst records).
  apply bind_Done in H as (xs & Hxs & H). apply bind_Done in H as (ys & Hys & H).
  apply items_Done in Hxs as [Hc ->]. apply items_Done in Hys as [Hr ->].
  apply (proj1 (Forall_sorted _ _)) in Hc. apply (proj1 (Forall_sorted _ _)) in Hr.
  split; [exact Hc|]. split; [done|]. intros _.
  destruct (summarize_records_loss _ _ _ _ _ _ _ Hs) as (Hn & _ & Hfull).
  destruct (Hfull Hne) as (Hl & _ & _ & s & -> & Hls & Hps).
  assert (Ho : exists v t, omap rssi_dbm records = v :: t).
  { pose proof Hr as Hr'. rewrite Hrec in Hr'. apply Forall_cons in Hr' as [[v Hv] _].
    rewrite Hrec. simpl. rewrite Hv. simpl. eauto. }
  assert (Hos : omap rssi_dbm (sorted records) <> []).
  { intros Hnil. destruct Ho as (v & t & Ho).
    assert (Hp' : omap rssi_dbm (sorted records) ≡ₚ omap rssi_dbm records)
      by (by rewrite sorted_Permutation).
    rewrite Hnil, Ho in Hp'. by apply Permutation_nil_cons in Hp'. }
  assert (Hmean : is_nan mean = false).
  { rewrite summarize_records_nonempty in Hs by done.
    inv_ok. apply summary_of_Ok in Hv. destruct Hv as (_ & Hm & _).
    apply mean_or_nan_is_nan in Hm. apply not_true_iff_false. by rewrite Hm. }
  exists mean, pct. split; [exact Hmean|].
  rewrite !omap_length_all by (by apply Forall_sorted).
  rewrite sorted_length. split; [done|]. split; [done|].
  injection H as <-. rewrite Hmean, Hn, Hl.
  destruct Ho as (v & t & ->). by rewrite Hn.
Qed.

(** X12: when the body of the loop of [main] completes for a file, every
    record of the file has a counter; a file without records leaves the four
    lists as they are, and a file with records adds exactly one entry to
    each of them: the counters and RSSI values in sorted order (as many as
    records), the RSSI values, the mean RSSI (never NaN) and the loss. *)
Theorem main_file_adds_one_entry (lib : library) (expected_count : Z)
    (acc acc' : collected) (base path : string) (lines : list string) :
  main_file lib expected_count acc base path lines = Done acc' ->
  exists records,
    parse_log path lines = Ok records /\
    Forall (fun r => is_Some (tx_counter r)) records /\
    (records = [] -> acc' = acc) /\
    (records <> [] ->
     exists mean pct,
       is_nan mean = false /\
       length (omap tx_counter (sorted records)) = length records /\
       length (omap rssi_dbm (sorted records)) = length records /\
       acc' =
         {| all_line_data :=
              all_line_data acc ++
                [(base, Z.of_nat (length records),
                  omap tx_counter (sorted records), omap rssi_dbm (sorted records))];
            all_hist_data := all_hist_data acc ++ [(base, omap rssi_dbm records)];
            all_mean_data :=
              all_mean_data acc ++ [(base, Z.of_nat (length records), mean)];
            all_loss_data :=
              all_loss_data acc ++
                [(base, Z.max (expected_count - Z.of_nat (length records)) 0, pct)] |}).
Proof. apply main_file_Done. Qed.

Lemma main_file_adds_one_entry_witness :
  exists acc' records,
    main_file returning 200 nothing "a" "logs/a.log" scenario1_log = Done acc' /\
    parse_log "logs/a.log" scenario1_log = Ok records /\
    length records = 1%nat /\
    Forall (fun r => is_Some (tx_counter r)) records /\
    map (fun d => d.1.2) (all_loss_data acc') = [199].
Proof.
  eassert (H : main_file returning 200 nothing "a" "logs/a.log" scenario1_log = Done _)
    by (vm_compute; reflexivity).
  destruct (main_file_adds_one_entry _ _ _ _ _ _ _ H) as (records & Hp & Hc & _ & _).
  eexists. exists records. split; [exact H|]. split; [exact Hp|].
  split; [|split; [exact Hc | reflexivity]].
  assert (Hp' : parse_log "logs/a.log" scenario1_log =
                Ok [{| file := Some "a.log"; scan_cycle := None;
                       rx_unix_ms := Some 1000; tx_counter := Some 5;
                       tx_unix_ms := Some 990; delta_ms := Some 10;
                       rssi_dbm := Some (-60) |}]) by (vm_compute; reflexivity).
  rewrite Hp' in Hp. by injection Hp as <-.
Defined.

(** A loop body that completes for a file with records has seen its two
    drawing calls return. *)
Lemma main_file_draws (lib : library) (expected_count : Z) (acc acc' : collected)
    (base path : string) (lines : list string) (records : list record) :
  main_file lib expected_count acc base path lines = Done acc' ->
  parse_log path lines = Ok records -> records <> [] ->
  plt_plot lib (omap tx_counter (sorted records)) (omap rssi_dbm (sorted records)) =
    Done tt /\
  plt_hist lib (omap rssi_dbm records) = Done tt.
Proof.
  unfold main_file. intros H Hp Hne. rewrite Hp in H. cbn [of_result mbind outcome_bind] in H.
  apply bind_Done in H as ([rep [[[n_packets mean] loss] pct]] & _ & H).
  apply bind_Done in H as (p1 & H1 & H). apply bind_Done in H as (p2 & H2 & _).
  unfold plot_rssi_vs_counter in H1. unfold plot_rssi_hist in H2.
  destruct records as [|r0 l]; [done|].
  apply bind_Done in H1 as (xs & Hxs & H1). apply bind_Done in H1 as (ys & Hys & H1).
  apply bind_Done in H1 as ([] & Hplot & _).
  apply items_Done in Hxs as [_ ->]. apply items_Done in Hys as [_ ->].
  apply bind_Done in H2 as (y & Hy & H2). apply bind_Done in H2 as ([] & Hhist & _).
  apply items_Done in Hy as [_ ->]. by split.
Qed.

Lemma omap_kept_file_cons (base path : string) (lines : list string)
    (files : list (string * string * list string)) :
  omap kept_file ((base, path, lines) :: files) =
    match parse_log path lines with
    | Ok (r :: l) => (base, r :: l) :: omap kept_file files
    | _ => omap kept_file files
    end.
Proof.
  change (omap kept_file ((base, path, lines) :: files)) with
    (match kept_file (base, path, lines) with
     | Some y => y :: omap kept_file files
     | None => omap kept_file files
     end).
  unfold kept_file at 1. cbn [fst snd].
  destruct (parse_log path lines) as [[|r l]|]; reflexivity.
Qed.

Lemma main_loop_Done (lib : library) (expected_count : Z)
    (files : list (string * string * list string)) :
  forall acc acc',
  main_loop lib expected_count acc files = Done acc' ->
  exists stats : list (float * float),
    length stats = length (omap kept_file files) /\
    Forall (fun e => e.2 <> [] /\
                     Forall (fun r => is_Some (tx_counter r)) e.2 /\
                     Forall (fun r => is_Some (rssi_dbm r)) e.2)
           (omap kept_file files) /\
    Forall (fun st => is_nan st.1 = false) stats /\
    all_line_data acc' =
      all_line_data acc ++
      map (fun e => (e.1, Z.of_nat (length e.2),
                     omap tx_counter (sorted e.2), omap rssi_dbm (sorted e.2)))
          (omap kept_file files) /\
    all_hist_data acc' =
      all_hist_data acc ++ map (fun e => (e.1, omap rssi_dbm e.2)) (omap kept_file files) /\
    all_mean_data acc' =
      all_mean_data acc ++
      zip_with (fun e st => (e.1, Z.of_nat (length e.2), st.1))
               (omap kept_file files) stats /\
    all_loss_data acc' =
      all_loss_data acc ++
      zip_with (fun e st =>
                  (e.1, Z.max (expected_count - Z.of_nat (length e.2)) 0, st.2))
               (omap kept_file files) stats.
Proof.
  induction files as [|[[base path] lines] files IH]; intros acc acc' H.
  - injection H as <-. exists []. simpl. rewrite !app_nil_r. by split_and!.
  - simpl in H. apply bind_Done in H as (acc1 & H1 & H).
    apply IH in H as (stats & Hlen & Hall & Hnan & Hl & Hh & Hm & Hlo). clear IH.
    pose proof H1 as H1'.
    apply main_file_Done in H1 as (records & Hp & Hc & Hnil & Hcons).
    assert (Hcomp : Forall complete records) by (by eapply parse_log_complete).
    rewrite omap_kept_file_cons, Hp.
    destruct records as [|r0 l].
    + rewrite (Hnil eq_refl) in *. exists stats. by split_and!.
    + destruct Hcons as (mean & pct & Hmean & _ & _ & ->); [done|].
      simpl in Hl, Hh, Hm, Hlo.
      exists ((mean, pct) :: stats).
      split; [simpl; by rewrite Hlen|].
      split; [constructor; [by split_and! | done]|].
      split; [by constructor|].
      rewrite Hl, Hh, Hm, Hlo. cbn [map zip_with fst snd].
      by rewrite <- !app_assoc.
Qed.

(** X13: what [main] has collected when its loop over the files has
    completed: the four lists have one entry for each file that gave
    records, in the order of the files and under the file's label; the
    entry holds the counters and the RSSI values in sorted order (one per
    record, and every record has both), the RSSI values, a mean RSSI that is
    not NaN, and the loss [max(expected_count - n, 0)]. *)
Theorem main_loop_lists_aligned (lib : library) (expected_count : Z)
    (files : list (string * string * list string)) (acc : collected) :
  main_loop lib expected_count nothing files = Done acc ->
  exists stats : list (float * float),
    length stats = length (omap kept_file files) /\
    Forall (fun e => e.2 <> [] /\
                     Forall (fun r => is_Some (tx_counter r)) e.2 /\
                     Forall (fun r => is_Some (rssi_dbm r)) e.2)
           (omap kept_file files) /\
    Forall (fun st => is_nan st.1 = false) stats /\
    all_line_data acc =
      map (fun e => (e.1, Z.of_nat (length e.2),
                     omap tx_counter (sorted e.2), omap rssi_dbm (sorted e.2)))
          (omap kept_file files) /\
    all_hist_data acc = map (fun e => (e.1, omap rssi_dbm e.2)) (omap kept_file files) /\
    all_mean_data acc =
      zip_with (fun e st => (e.1, Z.of_nat (length e.2), st.1))
               (omap kept_file files) stats /\
    all_loss_data acc =
      zip_with (fun e st =>
                  (e.1, Z.max (expected_count - Z.of_nat (length e.2)) 0, st.2))
               (omap kept_file files) stats.
Proof. intros H. by apply main_loop_Done in H. Qed.

Lemma main_loop_lists_aligned_witness :
  exists acc,
    main_loop returning 200 nothing
      [("a", "logs/a.log", scenario1_log); ("n", "logs/n.log", ["no block"]);
       ("b", "logs/b.log", two_blocks_log)] = Done acc /\
    map (fun d => d.1.1.1) (all_line_data acc) = ["a"; "b"] /\
    map fst (all_hist_data acc) = ["a"; "b"] /\
    map (fun d => d.1.2) (all_loss_data acc) = [199; 199] /\
    exists stats : list (float * float),
      length stats = 2%nat /\ Forall (fun st => is_nan st.1 = false) stats.
Proof.
  eassert (H : main_loop returning 200 nothing
                 [("a", "logs/a.log", scenario1_log); ("n", "logs/n.log", ["no block"]);
                  ("b", "logs/b.log", two_blocks_log)] = Done _)
    by (vm_compute; reflexivity).
  eexists. split; [exact H|]. do 3 (split; [reflexivity|]).
  destruct (main_loop_lists_aligned _ _ _ _ H) as (stats & Hlen & _ & Hnan & _).
  exists stats. split; [exact Hlen | exact Hnan].
Defined.

(** When the loop completes, the [hist] call on the RSSI values of every
    file that gave records has returned. *)
Lemma main_loop_hist_Done (lib : library) (expected_count : Z)
    (files : list (string * string * list string)) :
  forall acc acc',
  main_loop lib expected_count acc files = Done acc' ->
  Forall (fun e => plt_hist lib (omap rssi_dbm e.2) = Done tt) (omap kept_file files).
Proof.
  induction files as [|[[base path] lines] files IH]; intros acc acc' H; [constructor|].
  simpl in H. apply bind_Done in H as (acc1 & H1 & H).
  apply IH in H. clear IH. rewrite omap_kept_file_cons.
  destruct (main_file_Done _ _ _ _ _ _ _ H1) as (records & Hp & _).
  rewrite Hp. destruct records as [|r0 l]; [done|].
  constructor; [|done].
  by destruct (main_file_draws _ _ _ _ _ _ _ _ H1 Hp).
Qed.

Lemma map_zip_with_l {A B C D} (f : A -> B -> C) (g : C -> D) (h : A -> D)
    (l : list A) (k : list B) :
  length k = length l -> (forall a b, g (f a b) = h a) ->
  map g (zip_with f l k) = map h l.
Proof.
  intros Hlen Hg. revert k Hlen.
  induction l as [|a l IH]; intros [|b k] Hlen; simpl in *; try done.
  rewrite Hg. f_equal. apply IH. lia.
Qed.

Lemma plot_loss_and_receive_bars_Some (loss_data : list (string * Z * float))
    (expected_count : Z) :
  loss_data <> [] ->
  plot_loss_and_receive_bars loss_data expected_count =
    Some (map (fun d => d.1.1) loss_data, map (fun d => d.1.2) loss_data,
          map (fun d => d.2) loss_data,
          map (fun lc => expected_count - lc) (map (fun d => d.1.2) loss_data),
          map (fun lp => float_sub (lit 100) lp) (map (fun d => d.2) loss_data)).
Proof. by destruct loss_data. Qed.

(** X14: the bars that [plot_loss_and_receive_bars] draws from what
    [main] collected: one bar per file that gave records, under the file's
    label, and the received count of a file with [n] records is
    [min(n, expected_count)], so it is never above the expected count. *)
Theorem received_bars_are_capped (lib : library) (expected_count : Z)
    (files : list (string * string * list string)) (acc : collected) :
  main_loop lib expected_count nothing files = Done acc ->
  all_loss_data acc <> [] ->
  exists labels loss_counts loss_pcts recv_counts recv_pcts,
    plot_loss_and_receive_bars (all_loss_data acc) expected_count =
      Some (labels, loss_counts, loss_pcts, recv_counts, recv_pcts) /\
    labels = map fst (omap kept_file files) /\
    recv_counts =
      map (fun e => Z.min (Z.of_nat (length e.2)) expected_count)
          (omap kept_file files) /\
    Forall (fun rc => rc <= expected_count) recv_counts.
Proof.
  intros H Hne. apply main_loop_Done in H as (stats & Hlen & _ & _ & _ & _ & _ & Hlo).
  simpl in Hlo. rewrite plot_loss_and_receive_bars_Some by done. clear Hne.
  do 5 eexists. split; [reflexivity|]. rewrite Hlo.
  split; [by apply map_zip_with_l|].
  rewrite map_map.
  assert (Hrc : map (fun x : string * Z * float => expected_count - x.1.2)
                  (zip_with (fun (e : string * list record) (st : float * float) =>
                     (e.1, Z.max (expected_count - Z.of_nat (length e.2)) 0, st.2))
                     (omap kept_file files) stats) =
                map (fun e : string * list record =>
                       Z.min (Z.of_nat (length e.2)) expected_count)
                    (omap kept_file files)).
  { apply map_zip_with_l; [done|]. intros a b. simpl. lia. }
  rewrite Hrc. split; [done|]. apply Forall_forall. intros rc Hin.
  apply list_elem_of_fmap in Hin as (e & -> & _). lia.
Qed.

Lemma received_bars_are_capped_witness :
  exists acc labels loss_counts loss_pcts recv_counts recv_pcts,
    main_loop returning 1 nothing
      [("a", "logs/a.log", scenario1_log ++ two_blocks_log);
       ("b", "logs/b.log", two_blocks_log)] = Done acc /\
    plot_loss_and_receive_bars (all_loss_data acc) 1 =
      Some (labels, loss_counts, loss_pcts, recv_counts, recv_pcts) /\
    labels = ["a"; "b"] /\ recv_counts = [1; 1].
Proof.
  eassert (H : main_loop returning 1 nothing
                 [("a", "logs/a.log", scenario1_log ++ two_blocks_log);
                  ("b", "logs/b.log", two_blocks_log)] = Done _)
    by (vm_compute; reflexivity).
  destruct (received_bars_are_capped _ _ _ _ H)
    as (labels & lcs & lps & rcs & rps & Hplot & Hlabels & Hrcs & _); [discriminate|].
  eexists. exists labels, lcs, lps, rcs, rps. split; [exact H|]. split; [exact Hplot|].
  split; [rewrite Hlabels | rewrite Hrcs]; vm_compute; reflexivity.
Defined.

(** *** The combined plot *)

Lemma StronglySorted_lt_app (l1 l2 : list Z) :
  StronglySorted Z.lt l1 -> StronglySorted Z.lt l2 ->
  (forall a b, a ∈ l1 -> b ∈ l2 -> a < b) ->
  StronglySorted Z.lt (l1 ++ l2).
Proof.
  intros H1 H2 Hlt. induction H1 as [|a l1 H1 IH Ha]; simpl; [done|].
  constructor.
  - apply IH. intros x y Hx Hy. apply Hlt; [by right | done].
  - apply Forall_app. split; [done|]. apply Forall_forall. intros b Hb.
    apply Hlt; [by left | done].
Qed.

Lemma indices_StronglySorted (off : Z) (len : nat) :
  forall s, StronglySorted Z.lt (map (fun i => off + Z.of_nat i) (seq s len)).
Proof.
  induction len as [|len IH]; intros s; simpl; constructor; [apply IH|].
  apply Forall_forall. intros i Hi.
  apply list_elem_of_fmap in Hi as (k & -> & Hk). apply elem_of_seq in Hk. lia.
Qed.

(** X15: on the index axis of the combined plot no index is used twice:
    the indices of all files together, in the order of the files, increase
    strictly, starting from the offset (0 for the whole plot) or above;
    every file gets as many indices as it has counters, and its RSSI values
    are drawn as given. *)
Theorem plot_loop_indices_increase (seqs : list sequence) (off : Z) :
  map snd (plot_loop off seqs) = map snd seqs /\
  Forall2 (fun p (d : sequence) => length p.1 = length d.1.2) (plot_loop off seqs) seqs /\
  Forall (fun i => off <= i) (concat (map fst (plot_loop off seqs))) /\
  StronglySorted Z.lt (concat (map fst (plot_loop off seqs))).
Proof.
  revert off. induction seqs as [|[[[lb np] x_list] y_list] seqs IH]; intros off.
  - simpl. split_and!; constructor.
  - cbn [plot_loop]. set (len := length x_list).
    set (xs := map (fun i => off + Z.of_nat i) (seq 0 len)).
    assert (Hxs_lo : Forall (fun i => off <= i) xs).
    { apply Forall_forall. intros i Hi. apply list_elem_of_fmap in Hi as (k & -> & _). lia. }
    assert (Hxs_hi : forall x, last xs = Some x ->
              Forall (fun i => i <= x) xs /\ off <= x).
    { intros x Hx. subst xs. destruct len as [|len]; [done|].
      rewrite last_indices in Hx. injection Hx as <-. split; [|lia].
      apply Forall_forall. intros i Hi. apply list_elem_of_fmap in Hi as (k & -> & Hk).
      apply elem_of_seq in Hk. lia. }
    assert (Hxs_sorted : StronglySorted Z.lt xs).
    { apply indices_StronglySorted. }
    destruct (last xs) as [x|] eqn:Hlast.
    + destruct (IH (x + 5)) as (Hy & Hlen & Hlo & Hs).
      destruct (Hxs_hi x eq_refl) as [Hhi Hox].
      simpl. split_and!.
      * by rewrite Hy.
      * constructor; [|done]. subst xs. simpl. by rewrite length_map, length_seq.
      * apply Forall_app. split; [done|].
        eapply Forall_impl; [exact Hlo|]. simpl. intros; lia.
      * apply StronglySorted_lt_app; [done..|].
        intros a b Ha Hb.
        pose proof (proj1 (Forall_forall _ _) Hhi a Ha).
        pose proof (proj1 (Forall_forall _ _) Hlo b Hb).
        simpl in *. lia.
    + destruct (IH off) as (Hy & Hlen & Hlo & Hs).
      assert (xs = []) as Hnil by (by apply last_None).
      simpl. rewrite Hnil in *. simpl. split_and!; try done.
      * by rewrite Hy.
      * constructor; [|done]. simpl. subst xs len.
        apply (f_equal length) in Hnil. by rewrite length_map, length_seq in Hnil.
Qed.

Lemma plot_loop_closed_form (seqs : list sequence) :
  Forall (fun d : sequence => d.1.2 <> []) seqs ->
  forall off k d,
  seqs !! k = Some d ->
  plot_loop off seqs !! k =
    Some (map (fun i => off +
                 Z.of_nat (sum_list_with (fun d : sequence => length d.1.2 + 4)%nat
                             (take k seqs)) + Z.of_nat i)
              (seq 0 (length d.1.2)), d.2).
Proof.
  induction 1 as [|[[[lb np] x_list] y_list] seqs Hne _ IH]; intros off k d Hk; [done|].
  cbn [plot_loop]. simpl in Hne. destruct x_list as [|x0 x_list]; [done|]. clear Hne.
  change (length (x0 :: x_list)) with (S (length x_list)). rewrite last_indices.
  destruct k as [|k].
  - injection Hk as <-. cbn [lookup list_lookup take sum_list_with fst snd].
    do 2 f_equal. apply map_ext. intros i. lia.
  - cbn [lookup list_lookup] in Hk. cbn [lookup list_lookup take sum_list_with fst snd].
    rewrite (IH _ k d Hk). do 2 f_equal. apply map_ext. intros i.
    change (length (x0 :: x_list)) with (S (length x_list)). lia.
Qed.

Lemma line_data_closed_form (kept : list (string * list record)) :
  Forall (fun e => e.2 <> [] /\
                   Forall (fun r => is_Some (tx_counter r)) e.2 /\
                   Forall (fun r => is_Some (rssi_dbm r)) e.2) kept ->
  let line (e : string * list record) : sequence :=
    (e.1, Z.of_nat (length e.2), omap tx_counter (sorted e.2), omap rssi_dbm (sorted e.2)) in
  Forall (fun d : sequence => d.1.2 <> []) (map line kept) /\
  forall k,
    sum_list_with (fun d : sequence => length d.1.2 + 4)%nat (take k (map line kept)) =
    sum_list_with (fun e : string * list record => length e.2 + 4)%nat (take k kept).
Proof.
  intros Hall line.
  assert (Hlen : Forall (fun e => length (line e).1.2 = length e.2) kept).
  { eapply Forall_impl; [exact Hall|]. intros e (_ & Hc & _). simpl.
    rewrite omap_length_all by (by apply Forall_sorted). apply sorted_length. }
  split.
  - apply Forall_fmap, Forall_forall. intros e He.
    pose proof (proj1 (Forall_forall _ _) Hall e He) as (Hne & _).
    pose proof (proj1 (Forall_forall _ _) Hlen e He) as Hle.
    unfold compose. intros Hnil. simpl in Hle, Hnil. rewrite Hnil in Hle.
    by destruct (e.2).
  - clear Hall. induction Hlen as [|e kept He _ IH]; intros [|k]; simpl; try done.
    f_equal; [|apply IH]. simpl in He. by rewrite He.
Qed.

(** X16: the combined plot of what [main] collected: the file at place
    [k] among the files that gave records is drawn with its RSSI values in
    sorted order at consecutive indices that start at the sum of [n + 4]
    over the files before it, [n] being a file's number of records. *)
Theorem combined_plot_of_main (lib : library) (expected_count : Z)
    (files : list (string * string * list string)) (acc : collected)
    (k : nat) (base : string) (records : list record) :
  main_loop lib expected_count nothing files = Done acc ->
  omap kept_file files !! k = Some (base, records) ->
  plot_combined_rssi_vs_counter (all_line_data acc) !! k =
    Some (map (fun i =>
                 Z.of_nat (sum_list_with
                             (fun e : string * list record => length e.2 + 4)%nat
                             (take k (omap kept_file files))) + Z.of_nat i)
              (seq 0 (length records)),
          omap rssi_dbm (sorted records)).
Proof.
  intros H Hk. apply main_loop_Done in H as (stats & _ & Hall & _ & Hl & _).
  simpl in Hl. rewrite Hl. destruct (line_data_closed_form _ Hall) as [Hne Hsum].
  unfold plot_combined_rssi_vs_counter.
  erewrite plot_loop_closed_form; [|exact Hne|by rewrite list_lookup_fmap, Hk].
  cbn [fst snd]. rewrite Hsum.
  apply Forall_lookup_1 with (i := k) (x := (base, records)) in Hall as (_ & Hc & _);
    [|done].
  simpl in Hc. rewrite omap_length_all by (by apply Forall_sorted).
  by rewrite sorted_length.
Qed.

Lemma combined_plot_of_main_witness :
  exists acc,
    main_loop returning 200 nothing
      [("a", "logs/a.log", scenario1_log ++ two_blocks_log);
       ("b", "logs/b.log", two_blocks_log)] = Done acc /\
    plot_combined_rssi_vs_counter (all_line_data acc) !! 1%nat = Some ([6], [-48]).
Proof.
  eassert (H : main_loop returning 200 nothing
                 [("a", "logs/a.log", scenario1_log ++ two_blocks_log);
                  ("b", "logs/b.log", two_blocks_log)] = Done _)
    by (vm_compute; reflexivity).
  eexists. split; [exact H|].
  eassert (Hk : omap kept_file
                  [("a", "logs/a.log", scenario1_log ++ two_blocks_log);
                   ("b", "logs/b.log", two_blocks_log)] !! 1%nat = Some ("b", _))
    by (vm_compute; reflexivity).
  rewrite (combined_plot_of_main _ _ _ _ _ _ _ H Hk). vm_compute. reflexivity.
Defined.

(** *** The live reader and the live plot *)

Lemma append_pair_lengths (max_points : Z) (b : Live.buffer) (p : Z * Z) :
  length b.1 = length b.2 ->
  length (Live.append_pair max_points b p).1 = length (Live.append_pair max_points b p).2.
Proof.
  intros Heq. unfold Live.append_pair.
  destruct (Z.of_nat (length (b.1 ++ [p.1])) >? max_points); simpl;
    rewrite ?tail_drop, ?length_drop, !length_app; simpl; lia.
Qed.

Lemma read_counter_buf (st st' : Live.rstate) (line : string) :
  Live.read_counter st line = Ok st' ->
  Live.buf st' = Live.buf st /\ Live.current_rssi st' = Live.current_rssi st.
Proof. unfold Live.read_counter. intros H. repeat case_match; inv_ok; done. Qed.

Lemma read_rssi_buf (st st' : Live.rstate) (line : string) :
  Live.read_rssi st line = Ok st' ->
  Live.buf st' = Live.buf st /\ Live.current_counter st' = Live.current_counter st.
Proof. unfold Live.read_rssi. intros H. repeat case_match; inv_ok; done. Qed.

Lemma reader_step_lengths (max_points : Z) (st : Live.rstate) (raw : string) :
  length (Live.buf st).1 = length (Live.buf st).2 ->
  length (Live.buf (Live.reader_step max_points st raw)).1 =
    length (Live.buf (Live.reader_step max_points st raw)).2.
Proof.
  intros Heq. unfold Live.reader_step.
  destruct (Live.read_counter st (strip raw)) as [st1|] eqn:H1; [|done].
  apply read_counter_buf in H1 as [Hb1 _].
  destruct (Live.read_rssi st1 (strip raw)) as [st2|] eqn:H2; [|by rewrite Hb1].
  apply read_rssi_buf in H2 as [Hb2 _].
  unfold Live.emit. repeat case_match; simpl; rewrite ?Hb2, ?Hb1; try done.
  by apply append_pair_lengths.
Qed.

Lemma serial_reader_lengths (max_points : Z) (lines : list string) :
  length (Live.buf (Live.serial_reader max_points lines)).1 =
    length (Live.buf (Live.serial_reader max_points lines)).2.
Proof.
  unfold Live.serial_reader.
  induction lines as [|raw lines IH] using rev_ind; [done|].
  rewrite foldl_app. simpl. by apply reader_step_lengths.
Qed.

Lemma py_min_spec (l : list Z) :
  l <> [] -> exists m, LivePlot.py_min l = Ok m /\ m ∈ l /\ Forall (fun y => m <= y) l.
Proof.
  destruct l as [|x l]; [done|]. intros _. eexists. split; [reflexivity|].
  destruct (foldl_min_spec l x) as (Hin & Hle & Hall).
  split; [destruct Hin as [-> | Hin]; [by left | by right]|].
  by constructor.
Qed.

Lemma py_max_spec (l : list Z) :
  l <> [] -> exists m, LivePlot.py_max l = Ok m /\ m ∈ l /\ Forall (fun y => y <= m) l.
Proof.
  destruct l as [|x l]; [done|]. intros _. eexists. split; [reflexivity|].
  destruct (foldl_max_spec l x) as (Hin & Hle & Hall).
  split; [destruct Hin as [-> | Hin]; [by left | by right]|].
  by constructor.
Qed.

(** X17: on the deques as the reader leaves them after any lines (for
    any cap), the statements of the plotting loop itself raise nothing,
    since [min] and [max] never get an empty sequence: when there is no
    point nothing is called; otherwise the turn calls [set_data] with the
    two deques, [set_xlim] and [set_ylim], and returns or raises as these
    calls do.  The limits it gives them are tight and enclose every point:
    x from the smallest counter to one above the largest, y from two below
    the smallest RSSI to two above the largest. *)
Theorem live_axis_limits (ax : LivePlot.axes) (max_points : Z) (lines : list string) :
  let b := Live.buf (Live.serial_reader max_points lines) in
  (b = ([], []) /\ LivePlot.axis_limits ax b = Done None) \/
  exists xlo xhi top bottom,
    xlo ∈ b.1 /\ xhi - 1 ∈ b.1 /\ bottom + 2 ∈ b.2 /\ top - 2 ∈ b.2 /\
    Forall (fun c => xlo <= c < xhi) b.1 /\
    Forall (fun r => bottom < r < top) b.2 /\
    LivePlot.axis_limits ax b =
      (_ ← LivePlot.set_data ax b.1 b.2;
       _ ← LivePlot.set_xlim ax xlo xhi;
       _ ← LivePlot.set_ylim ax top bottom;
       Done (Some ((xlo, xhi), (top, bottom)))).
Proof.
  intros b. pose proof (serial_reader_lengths max_points lines) as Hlen.
  fold b in Hlen. clearbody b. destruct b as [x y]. simpl in Hlen.
  unfold LivePlot.axis_limits. cbn [fst snd].
  destruct x as [|c x].
  { left. split; [by destruct y | done]. }
  right.
  assert (Hy : y <> []) by (by destruct y).
  destruct (py_min_spec y Hy) as (lo & -> & Hlo_in & Hlo).
  destruct (py_max_spec y Hy) as (hi & -> & Hhi_in & Hhi).
  destruct (py_min_spec (c :: x)) as (xlo & -> & Hxlo_in & Hxlo); [done|].
  destruct (py_max_spec (c :: x)) as (xhi & -> & Hxhi_in & Hxhi); [done|].
  exists xlo, (xhi + 1), (hi + 2), (lo - 2). cbn [of_result mbind outcome_bind].
  replace (xhi + 1 - 1) with xhi by lia. replace (lo - 2 + 2) with lo by lia.
  replace (hi + 2 - 2) with hi by lia. split_and!; try done.
  - apply Forall_forall. intros k Hk.
    pose proof (proj1 (Forall_forall _ _) Hxlo k Hk).
    pose proof (proj1 (Forall_forall _ _) Hxhi k Hk). simpl in *. lia.
  - apply Forall_forall. intros k Hk.
    pose proof (proj1 (Forall_forall _ _) Hlo k Hk).
    pose proof (proj1 (Forall_forall _ _) Hhi k Hk). simpl in *. lia.
Qed.

Lemma re_search_first_absent (a : ascii) (l : string) (p : regex) (s : string) :
  string_forallb (fun b => negb (Ascii.eqb a b)) s = true ->
  re_search (Lit (String a l) :: p) s = None.
Proof.
  induction s as [|b s IH]; [done|]. simpl string_forallb.
  intros [Hb Hs]%andb_prop. apply negb_true_iff in Hb.
  cbn [re_search]. unfold re_match. cbn [run strip_prefix]. rewrite Hb. by apply IH.
Qed.

Lemma re_search_match (p : regex) (s g : string) :
  re_match p s = Some g -> re_search p s = Some g.
Proof. destruct s; simpl; by intros ->. Qed.

Lemma sign_digit_not_letter (a : ascii) :
  in_cls SignDigit a = true ->
  negb (Ascii.eqb "T" a) = true /\ negb (Ascii.eqb "R" a) = true.
Proof. destruct a as [[] [] [] [] [] [] [] []]; done. Qed.

Lemma counter_line_found (tok : string) :
  token_of TxCounter tok = true ->
  re_search Live.COUNTER_RE (field_line "" TxCounter tok) = Some tok /\
  re_search Live.RSSI_RE (field_line "" TxCounter tok) = None.
Proof.
  intros Ht. split.
  - destruct (field_line_matches "" TxCounter tok Ht eq_refl) as (Hm & _).
    by apply re_search_match.
  - apply token_of_spec in Ht as (_ & Hc & _).
    apply re_search_first_absent. unfold field_line.
    rewrite string_forallb_app. apply andb_true_intro. split; [done|].
    eapply string_forallb_impl; [|exact Hc]. intros a Ha.
    apply (sign_digit_not_letter a). simpl. simpl in Ha. by rewrite Ha, orb_true_r.
Qed.

Lemma rssi_line_found (tok : string) :
  token_of RssiDbm tok = true ->
  re_search Live.COUNTER_RE (field_line "" RssiDbm tok) = None /\
  re_search Live.RSSI_RE (field_line "" RssiDbm tok) = Some tok.
Proof.
  intros Ht. split.
  - apply token_of_spec in Ht as (_ & Hc & _).
    apply re_search_first_absent. unfold field_line.
    rewrite !string_forallb_app. apply andb_true_intro. split; [done|].
    apply andb_true_intro. split; [|done].
    eapply string_forallb_impl; [|exact Hc]. intros a Ha.
    by apply (sign_digit_not_letter a).
  - destruct (field_line_matches "" RssiDbm tok Ht eq_refl) as (Hm & _).
    by apply re_search_match.
Qed.

Lemma reader_step_silent (max_points : Z) (st : Live.rstate) (raw : string) :
  silent raw -> Live.current_rssi st = None ->
  Live.reader_step max_points st raw = st.
Proof.
  intros [Hc Hr] Hn. unfold Live.reader_step, Live.read_counter, Live.read_rssi.
  rewrite Hc, Hr.
  unfold Live.emit. rewrite Hn. by destruct (Live.current_counter st).
Qed.

Lemma foldl_reader_step_silent (max_points : Z) (raws : list string) :
  Forall silent raws ->
  forall st, Live.current_rssi st = None ->
  foldl (Live.reader_step max_points) st raws = st.
Proof.
  induction 1 as [|raw raws Hs _ IH]; intros st Hn; [done|].
  simpl. rewrite reader_step_silent by done. by apply IH.
Qed.

Lemma reader_packet (max_points : Z) (eol : string)
    (p : string * string * list string * list string) (b : Live.buffer)
    (c : option Z) :
  string_forallb is_space eol = true ->
  token_of TxCounter p.1.1.1 = true -> token_of RssiDbm p.1.1.2 = true ->
  Forall silent p.1.2 -> Forall silent p.2 ->
  foldl (Live.reader_step max_points)
        {| Live.current_counter := c; Live.current_rssi := None; Live.buf := b |}
        (live_packet eol p) =
    {| Live.current_counter := None; Live.current_rssi := None;
       Live.buf := Live.append_pair max_points b
                     (token_value p.1.1.1, token_value p.1.1.2) |}.
Proof.
  destruct p as [[[ctok rtok] between] after]. cbn [fst snd].
  intros He Hct Hrt Hb Ha. unfold live_packet. cbn [fst snd foldl].
  rewrite foldl_app. cbn [foldl].
  assert (H1 : Live.reader_step max_points
            {| Live.current_counter := c; Live.current_rssi := None; Live.buf := b |}
            (field_line "" TxCounter ctok +:+ eol) =
          {| Live.current_counter := Some (token_value ctok); Live.current_rssi := None;
             Live.buf := b |}).
  { unfold Live.reader_step.
    rewrite strip_field_line by done.
    unfold Live.read_counter, Live.read_rssi.
    destruct (counter_line_found ctok Hct) as [-> ->].
    by rewrite (token_value_int TxCounter ctok Hct). }
  rewrite H1. rewrite (foldl_reader_step_silent max_points between Hb) by reflexivity.
  assert (H2 : Live.reader_step max_points
            {| Live.current_counter := Some (token_value ctok);
               Live.current_rssi := None; Live.buf := b |}
            (field_line "" RssiDbm rtok +:+ eol) =
          {| Live.current_counter := None; Live.current_rssi := None;
             Live.buf := Live.append_pair max_points b
                           (token_value ctok, token_value rtok) |}).
  { unfold Live.reader_step.
    rewrite strip_field_line by done.
    unfold Live.read_counter, Live.read_rssi.
    destruct (rssi_line_found rtok Hrt) as [-> ->].
    by rewrite (token_value_int RssiDbm rtok Hrt). }
  rewrite H2. by rewrite (foldl_reader_step_silent max_points after Ha).
Qed.

Lemma reader_packets (max_points : Z) (eol : string)
    (packets : list (string * string * list string * list string)) :
  string_forallb is_space eol = true ->
  Forall (fun p => token_of TxCounter p.1.1.1 = true /\
                   token_of RssiDbm p.1.1.2 = true /\
                   Forall silent p.1.2 /\ Forall silent p.2) packets ->
  forall b,
  foldl (Live.reader_step max_points)
        {| Live.current_counter := None; Live.current_rssi := None; Live.buf := b |}
        (concat (map (live_packet eol) packets)) =
    {| Live.current_counter := None; Live.current_rssi := None;
       Live.buf := foldl (Live.append_pair max_points) b
                     (map (fun p => (token_value p.1.1.1, token_value p.1.1.2))
                          packets) |}.
Proof.
  intros He. induction 1 as [|p packets (Hc & Hr & Hb & Ha) _ IH]; intros b; [done|].
  cbn [map concat]. rewrite foldl_app, reader_packet by done. apply IH.
Qed.

(** X18: packets on the serial port, each one a counter line, lines
    without a value, an RSSI line and again lines without a value, the
    counter and the RSSI being numerals that [int] converts (at most 4300
    digits): for a cap [max_points >= 0] the reader ends with no value
    pending, and the deques hold the counters and the RSSI values of the
    last [max_points] packets, in their order. *)
Theorem serial_reader_keeps_last_packets (max_points : Z) (eol : string)
    (packets : list (string * string * list string * list string)) :
  0 <= max_points ->
  string_forallb is_space eol = true ->
  Forall (fun p => token_of TxCounter p.1.1.1 = true /\
                   token_of RssiDbm p.1.1.2 = true /\
                   Forall silent p.1.2 /\ Forall silent p.2) packets ->
  let values := map (fun p => (token_value p.1.1.1, token_value p.1.1.2)) packets in
  Live.serial_reader max_points (concat (map (live_packet eol) packets)) =
    {| Live.current_counter := None; Live.current_rssi := None;
       Live.buf :=
         ((drop (length values - Z.to_nat max_points) values).*1,
          (drop (length values - Z.to_nat max_points) values).*2) |}.
Proof.
  intros Hmp He Hall values. unfold Live.serial_reader, Live.init.
  rewrite reader_packets by done. by rewrite foldl_append_pair.
Qed.

Lemma serial_reader_keeps_last_packets_witness :
  Live.serial_reader 2
    (concat (map (live_packet nl)
       [("1", "-50", [block_start +:+ nl], [nl]);
        ("2", "-60", [], ["Delta = x: 10 ms" +:+ nl; ""]);
        ("3", "-70", [], [])])) =
    {| Live.current_counter := None; Live.current_rssi := None;
       Live.buf := ([2; 3], [-60; -70]) |}.
Proof.
  apply (serial_reader_keeps_last_packets 2 nl
           [("1", "-50", [block_start +:+ nl], [nl]);
            ("2", "-60", [], ["Delta = x: 10 ms" +:+ nl; ""]);
            ("3", "-70", [], [])]);
    [lia | reflexivity | repeat constructor].
Defined.

(** *** The two parsers agree *)

Lemma insert_put (k1 k2 : string) (x : Csv.value) (o : option Z)
    (d : gmap string Csv.value) :
  k1 <> k2 -> <[k1 := x]> (put k2 o d) = put k2 o (<[k1 := x]> d).
Proof. intros Hne. destruct o as [v|]; unfold put; [|done]. by apply insert_insert_ne. Qed.

Lemma insert_put_same (k : string) (v : Z) (o : option Z) (d : gmap string Csv.value) :
  <[k := Csv.VInt v]> (put k o d) = put k (Some v) d.
Proof. destruct o as [w|]; unfold put; [|done]. by rewrite insert_insert_eq. Qed.

Lemma lookup_put_ne (k1 k2 : string) (o : option Z) (d : gmap string Csv.value) :
  k1 <> k2 -> put k2 o d !! k1 = d !! k1.
Proof. intros Hne. destruct o as [v|]; unfold put; [|done]. by rewrite lookup_insert_ne. Qed.

Lemma lookup_put_same (k : string) (o : option Z) (d : gmap string Csv.value) :
  put k o d !! k = match o with Some v => Some (Csv.VInt v) | None => d !! k end.
Proof. destruct o as [v|]; unfold put; [|done]. by rewrite lookup_insert_eq. Qed.

Lemma dict_of_write (f : field) (v : Z) (r : record) :
  <[column_of f := Csv.VInt v]> (dict_of r) = dict_of (write f v r).
Proof.
  unfold dict_of.
  destruct f; cbn [column_of write rx_unix_ms tx_counter tx_unix_ms delta_ms rssi_dbm];
    rewrite ?insert_put by done; by rewrite insert_put_same.
Qed.

Lemma lookup_dict_of_rssi (r : record) :
  dict_of r !! "rssi_dbm" = Csv.VInt <$> rssi_dbm r.
Proof.
  unfold dict_of. rewrite !lookup_put_ne by done. rewrite lookup_put_same.
  by destruct (rssi_dbm r).
Qed.

Lemma has_rssi_dict_of (r : record) :
  BleLogsToCsv.has_rssi (dict_of r) = has_rssi r.
Proof.
  unfold BleLogsToCsv.has_rssi, has_rssi. rewrite lookup_dict_of_rssi.
  by destruct (rssi_dbm r).
Qed.

Lemma nonempty_with_rssi_dict_of (r : record) :
  BleLogsToCsv.nonempty_with_rssi (dict_of r) = has_rssi r.
Proof.
  unfold BleLogsToCsv.nonempty_with_rssi. rewrite has_rssi_dict_of.
  unfold has_rssi. destruct (rssi_dbm r) as [v|] eqn:Hr; [|apply andb_false_r].
  rewrite andb_true_r. apply negb_true_iff, bool_decide_eq_false. intros He.
  pose proof (lookup_dict_of_rssi r) as Hl. rewrite He, Hr in Hl.
  by rewrite lookup_empty in Hl.
Qed.

Lemma csv_record_flushed (path : string) (sc : option Z) (cur : record) :
  csv_record (set_scan_cycle sc (set_file (basename path) cur)) = csv_record cur.
Proof. reflexivity. Qed.

(** A scan-cycle marker is no line that the CSV script reads. *)
Lemma scan_line_ignored (line g : string) :
  re_match scan_start_re line = Some g ->
  startswith BleLogsToCsv.block_start line = false /\
  re_match BleLogsToCsv.rx_unix_re line = None /\
  re_match BleLogsToCsv.tx_counter_re line = None /\
  re_match BleLogsToCsv.tx_unix_re line = None /\
  re_match BleLogsToCsv.delta_re line = None /\
  re_match BleLogsToCsv.rssi_re line = None /\
  String.eqb line "" = false.
Proof.
  unfold re_match at 1, scan_start_re. cbn [run]. intros H.
  destruct (strip_prefix "=== Scan cycle #" line) as [rest|] eqn:Hp; [|done].
  apply strip_prefix_app in Hp as ->. by split_and!.
Qed.

Lemma csv_parse_line_scan (cst : BleLogsToCsv.pstate) (raw g : string) :
  re_match scan_start_re (strip raw) = Some g ->
  BleLogsToCsv.parse_line cst raw = Ok cst.
Proof.
  intros Hscan. unfold BleLogsToCsv.parse_line.
  apply scan_line_ignored in Hscan as (-> & -> & -> & -> & -> & -> & ->).
  by destruct (BleLogsToCsv.current cst).
Qed.

(** One line keeps the two states related; the analysis alone raises on a
    scan-cycle marker whose number [int] does not convert. *)
Lemma parse_line_related (path : string) (st : pstate) (cst : BleLogsToCsv.pstate)
    (raw : string) :
  related st cst ->
  match parse_line path st raw with
  | Ok st' => exists cst', BleLogsToCsv.parse_line cst raw = Ok cst' /\ related st' cst'
  | Raise e =>
      BleLogsToCsv.parse_line cst raw = Raise e \/
      exists g, re_match scan_start_re (strip raw) = Some g /\ int g = Raise e
  end.
Proof.
  intros Hrel.
  destruct (re_match scan_start_re (strip raw)) as [g|] eqn:Hscan.
  { unfold parse_line. rewrite Hscan.
    destruct (int g) as [v|e] eqn:Hi; simpl; [|right; eauto].
    exists cst. split; [by eapply csv_parse_line_scan|].
    destruct Hrel as [Hr Hc]. by split. }
  destruct cst as [recs ccur]. destruct Hrel as [Hr Hc]. simpl in Hr, Hc. subst recs ccur.
  unfold parse_line, BleLogsToCsv.parse_line. rewrite Hscan.
  cbn [BleLogsToCsv.current BleLogsToCsv.records].
  set (line := strip raw).
  change BleLogsToCsv.block_start with block_start.
  change BleLogsToCsv.rx_unix_re with rx_unix_re.
  change BleLogsToCsv.tx_counter_re with tx_counter_re.
  change BleLogsToCsv.tx_unix_re with tx_unix_re.
  change BleLogsToCsv.delta_re with delta_re.
  change BleLogsToCsv.rssi_re with rssi_re.
  destruct (startswith block_start line).
  { eexists. split; [reflexivity|]. split; [|done]. simpl.
    destruct (st_current st) as [cur|]; simpl; [|done].
    rewrite nonempty_with_rssi_dict_of. destruct (has_rssi cur); [|done].
    unfold flush, BleLogsToCsv.flush. simpl. by rewrite map_app. }
  destruct (st_current st) as [cur|] eqn:Hcur; simpl.
  2:{ eexists. split; [reflexivity|]. split; [done|]. simpl. by rewrite Hcur. }
  assert (Hw : forall f g,
    match write_field st cur f g with
    | Ok st' =>
        exists cst',
          BleLogsToCsv.write_field
            {| BleLogsToCsv.records := map csv_record (st_records st);
               BleLogsToCsv.current := Some (dict_of cur) |}
            (dict_of cur) (column_of f) g = Ok cst' /\ related st' cst'
    | Raise e =>
        BleLogsToCsv.write_field
          {| BleLogsToCsv.records := map csv_record (st_records st);
             BleLogsToCsv.current := Some (dict_of cur) |}
          (dict_of cur) (column_of f) g = Raise e \/
        exists g', None = Some g' /\ int g' = Raise e
    end).
  { intros f g. unfold write_field, BleLogsToCsv.write_field.
    destruct (int g) as [v|e]; simpl; [|by left].
    eexists. split; [reflexivity|]. split; [done|]. simpl. by rewrite dict_of_write. }
  destruct (re_match rx_unix_re line) as [g|]; [exact (Hw RxUnixMs g)|].
  destruct (re_match tx_counter_re line) as [g|]; [exact (Hw TxCounter g)|].
  destruct (re_match tx_unix_re line) as [g|]; [exact (Hw TxUnixMs g)|].
  destruct (re_match delta_re line) as [g|]; [exact (Hw DeltaMs g)|].
  destruct (re_match rssi_re line) as [g|]; [exact (Hw RssiDbm g)|].
  rewrite has_rssi_dict_of.
  destruct (String.eqb line "" && has_rssi cur).
  - eexists. split; [reflexivity|]. split; [|done]. simpl.
    unfold flush, BleLogsToCsv.flush. simpl. by rewrite map_app.
  - eexists. split; [reflexivity|]. split; [done|]. simpl. by rewrite Hcur.
Qed.

(** When the analysis reads the lines, so does the CSV script. *)
Lemma parse_lines_related_Ok (path : string) (lines : list string) :
  forall st cst st', related st cst ->
  parse_lines path st lines = Ok st' ->
  exists cst', BleLogsToCsv.parse_lines cst lines = Ok cst' /\ related st' cst'.
Proof.
  induction lines as [|raw lines IH]; intros st cst st' Hrel H; simpl in *.
  - injection H as <-. by exists cst.
  - pose proof (parse_line_related path st cst raw Hrel) as H1.
    destruct (parse_line path st raw) as [st1|e]; [|done]. simpl in H.
    destruct H1 as (cst1 & -> & Hrel1). simpl. by eapply IH.
Qed.

(** With scan-cycle markers whose numbers convert, the two loops end alike. *)
Lemma parse_lines_related (path : string) (lines : list string) :
  (forall raw g, raw ∈ lines -> re_match scan_start_re (strip raw) = Some g ->
                 within_limit g = true) ->
  forall st cst, related st cst ->
  match parse_lines path st lines with
  | Ok st' => exists cst', BleLogsToCsv.parse_lines cst lines = Ok cst' /\ related st' cst'
  | Raise e => BleLogsToCsv.parse_lines cst lines = Raise e
  end.
Proof.
  induction lines as [|raw lines IH]; intros Hscan st cst Hrel; simpl.
  - by exists cst.
  - pose proof (parse_line_related path st cst raw Hrel) as H1.
    destruct (parse_line path st raw) as [st1|e]; simpl.
    + destruct H1 as (cst1 & -> & Hrel1). simpl. apply IH; [|done].
      intros raw' g Hin. apply Hscan. by right.
    + destruct H1 as [-> | (g & Hg & Hi)]; [done|]. exfalso.
      destruct (digit_patterns_int (strip raw) g (or_introl Hg)) as [v Hv].
      { apply (Hscan raw); [by left | done]. }
      congruence.
Qed.

Lemma finish_related (path : string) (st : pstate) (cst : BleLogsToCsv.pstate) :
  related st cst -> BleLogsToCsv.finish cst = map csv_record (finish path st).
Proof.
  destruct cst as [recs ccur]. intros [Hr Hc]. simpl in Hr, Hc. subst recs ccur.
  unfold finish, BleLogsToCsv.finish. simpl.
  destruct (st_current st) as [cur|]; simpl; [|done].
  rewrite nonempty_with_rssi_dict_of. destruct (has_rssi cur); [|done].
  unfold flush, BleLogsToCsv.flush. simpl. by rewrite map_app.
Qed.

Lemma parse_log_csv_Ok (path : string) (lines : list string) (records : list record) :
  parse_log path lines = Ok records ->
  BleLogsToCsv.parse_log lines = Ok (map csv_record records).
Proof.
  unfold BleLogsToCsv.parse_log, parse_log. intros H.
  destruct (parse_lines path init lines) as [st|e] eqn:Hl; [|done].
  simpl in H. injection H as <-.
  destruct (parse_lines_related_Ok path lines init BleLogsToCsv.init st
              (conj eq_refl eq_refl) Hl) as (cst & -> & Hrel).
  simpl. f_equal. by apply finish_related.
Qed.

Lemma csv_parse_log_raises_ValueError (lines : list string) (e : exn) :
  BleLogsToCsv.parse_log lines = Raise e -> e = ValueError.
Proof.
  intros H. unfold BleLogsToCsv.parse_log in H.
  destruct (BleLogsToCsv.parse_lines BleLogsToCsv.init lines) as [st|e'] eqn:Hl; [done|].
  simpl in H. injection H as ->. revert Hl. generalize BleLogsToCsv.init.
  induction lines as [|raw rest IH]; intros st Hl; simpl in Hl; [done|].
  destruct (BleLogsToCsv.parse_line st raw) as [st1|e1] eqn:H1; simpl in Hl;
    [by eapply IH|]. injection Hl as ->.
  unfold BleLogsToCsv.parse_line, BleLogsToCsv.write_field in H1.
  repeat case_match; try done;
    match type of H1 with
    | int ?g ≫= _ = _ =>
        destruct (int g) eqn:Hg; simpl in H1; [done|];
        apply int_raises_ValueError in Hg; congruence
    end.
Qed.

Lemma parse_log_csv_Raise (path : string) (lines : list string) (e : exn) :
  BleLogsToCsv.parse_log lines = Raise e -> parse_log path lines = Raise e.
Proof.
  intros H. destruct (parse_log path lines) as [records|e'] eqn:Hp.
  - apply parse_log_csv_Ok in Hp. congruence.
  - apply parse_log_raises_ValueError in Hp. apply csv_parse_log_raises_ValueError in H.
    congruence.
Qed.

Lemma parse_log_csv_of (path : string) (lines : list string) :
  (forall raw g, raw ∈ lines -> re_match scan_start_re (strip raw) = Some g ->
                 within_limit g = true) ->
  BleLogsToCsv.parse_log lines = csv_of (parse_log path lines).
Proof.
  intros Hscan. unfold BleLogsToCsv.parse_log, parse_log.
  pose proof (parse_lines_related path lines Hscan init BleLogsToCsv.init
                (conj eq_refl eq_refl)) as H.
  destruct (parse_lines path init lines) as [st|e]; simpl.
  - destruct H as (cst & -> & Hrel). simpl. f_equal. by apply finish_related.
  - by rewrite H.
Qed.

Lemma lookup_csv_record (r : record) :
  csv_record r !! "tx_unix_ms(phone)" = Csv.VInt <$> tx_unix_ms r /\
  csv_record r !! "rx_unix_ms(esp32)" = Csv.VInt <$> rx_unix_ms r /\
  csv_record r !! "payload_counter" = Csv.VInt <$> tx_counter r /\
  csv_record r !! "delta_ms" = Csv.VInt <$> delta_ms r /\
  csv_record r !! "rssi_dbm" = Csv.VInt <$> rssi_dbm r /\
  csv_record r !! "tx_device_name" = Some (Csv.VStr "A72Aziz") /\
  forall key, key ∉ Csv.header -> csv_record r !! key = None.
Proof.
  unfold csv_record, dict_of. split_and!.
  - rewrite lookup_insert_ne by done. rewrite !lookup_put_ne by done.
    rewrite lookup_put_same, !lookup_put_ne by done. by destruct (tx_unix_ms r).
  - rewrite lookup_insert_ne by done.
    rewrite lookup_put_same, !lookup_put_ne by done. by destruct (rx_unix_ms r).
  - rewrite lookup_insert_ne by done. rewrite !lookup_put_ne by done.
    rewrite lookup_put_same, !lookup_put_ne by done. by destruct (tx_counter r).
  - rewrite lookup_insert_ne by done. rewrite !lookup_put_ne by done.
    rewrite lookup_put_same, !lookup_put_ne by done. by destruct (delta_ms r).
  - rewrite lookup_insert_ne by done. rewrite !lookup_put_ne by done.
    rewrite lookup_put_same. by destruct (rssi_dbm r).
  - by rewrite lookup_insert_eq.
  - intros key Hk. unfold Csv.header in Hk.
    rewrite !not_elem_of_cons in Hk. destruct Hk as (? & ? & ? & ? & ? & ? & _).
    rewrite lookup_insert_ne by done. by rewrite !lookup_put_ne by done.
Qed.

(** X19: the parser of the CSV script against the parser of the analysis:
    whenever the analysis returns records, the CSV script returns the same
    records, value by value, under its own column names and with the device
    name ["A72Aziz"] (it keeps neither the file name nor the scan cycle, and
    has no other key); whenever the CSV script raises, so does the analysis,
    with the same exception; and the two agree on every log whose
    scan-cycle markers have numbers within the limit of [int].  They differ
    on a scan-cycle marker with a longer number: the analysis raises
    [ValueError] there, while the CSV script, which does not read such
    markers, goes on. *)
Theorem csv_parser_agrees_with_analysis (path : string) (lines : list string) :
  (forall records, parse_log path lines = Ok records ->
     BleLogsToCsv.parse_log lines = Ok (map csv_record records)) /\
  (forall e, BleLogsToCsv.parse_log lines = Raise e -> parse_log path lines = Raise e) /\
  ((forall raw g, raw ∈ lines -> re_match scan_start_re (strip raw) = Some g ->
                  within_limit g = true) ->
   BleLogsToCsv.parse_log lines = csv_of (parse_log path lines)) /\
  (parse_log path long_marker_log = Raise ValueError /\
   BleLogsToCsv.parse_log long_marker_log =
     Ok [csv_record (write RssiDbm (-60) (new_record None))]) /\
  forall r,
    csv_record r !! "tx_unix_ms(phone)" = Csv.VInt <$> tx_unix_ms r /\
    csv_record r !! "rx_unix_ms(esp32)" = Csv.VInt <$> rx_unix_ms r /\
    csv_record r !! "payload_counter" = Csv.VInt <$> tx_counter r /\
    csv_record r !! "delta_ms" = Csv.VInt <$> delta_ms r /\
    csv_record r !! "rssi_dbm" = Csv.VInt <$> rssi_dbm r /\
    csv_record r !! "tx_device_name" = Some (Csv.VStr "A72Aziz") /\
    forall key, key ∉ Csv.header -> csv_record r !! key = None.
Proof.
  split_and!.
  - apply parse_log_csv_Ok.
  - apply parse_log_csv_Raise.
  - apply parse_log_csv_of.
  - vm_compute. reflexivity.
  - vm_compute. reflexivity.
  - apply lookup_csv_record.
Qed.

Lemma csv_parser_agrees_with_analysis_witness :
  BleLogsToCsv.parse_log scenario1_log = csv_of (parse_log "logs/a.log" scenario1_log) /\
  BleLogsToCsv.parse_log scenario1_log =
    Ok [csv_record {| file := Some "a.log"; scan_cycle := None;
                      rx_unix_ms := Some 1000; tx_counter := Some 5;
                      tx_unix_ms := Some 990; delta_ms := Some 10;
                      rssi_dbm := Some (-60) |}].
Proof.
  destruct (csv_parser_agrees_with_analysis "logs/a.log" scenario1_log)
    as (Hok & _ & Hall & _).
  split.
  - apply Hall. intros raw g Hin Hm. unfold scenario1_log in Hin.
    repeat (apply elem_of_cons in Hin as [-> | Hin]);
      try (by apply elem_of_nil in Hin); vm_compute in Hm; discriminate Hm.
  - apply (Hok [{| file := Some "a.log"; scan_cycle := None;
                    rx_unix_ms := Some 1000; tx_counter := Some 5;
                    tx_unix_ms := Some 990; delta_ms := Some 10;
                    rssi_dbm := Some (-60) |}]).
    vm_compute. reflexivity.
Defined.

Lemma writerow_csv_record (r : record) :
  Csv.writerow Csv.header (Csv.row_dict (csv_record r)) = row_of r.
Proof.
  rewrite writerow_row_dict. unfold Csv.header, row_of. cbn [map].
  destruct (lookup_csv_record r) as (-> & -> & -> & -> & -> & -> & _).
  by destruct (tx_unix_ms r), (rx_unix_ms r), (tx_counter r), (delta_ms r), (rssi_dbm r).
Qed.

Lemma write_csv_csv_records (records : list record) :
  Csv.write_csv (map csv_record records) =
    match records with
    | [] => None
    | _ => Some (map Csv.VStr Csv.header :: map row_of records)
    end.
Proof.
  destruct records as [|r0 l]; [done|].
  unfold Csv.write_csv, Csv.writeheader. cbn [map].
  rewrite writerow_csv_record, map_map.
  by rewrite (map_ext _ _ writerow_csv_record).
Qed.

Lemma export_Ok (path : string) (lines : list string) (records : list record) :
  parse_log path lines = Ok records ->
  BleLogsToCsv.export lines =
    Ok (match records with
        | [] => None
        | _ => Some (map Csv.VStr Csv.header :: map row_of records)
        end).
Proof.
  intros H. unfold BleLogsToCsv.export. rewrite (parse_log_csv_Ok path lines records H).
  change (Ok (map csv_record records) ≫= _) with
    (Ok (A := option (list (list Csv.value))) (Csv.write_csv (map csv_record records))).
  by rewrite write_csv_csv_records.
Qed.

(** X20: what the CSV script writes for a log that the analysis reads:
    no file when the log gives no record; otherwise the header row and one
    row per record of the log, in the order of the log, with the TX time,
    the RX time, the counter, the delta, the RSSI and the device name; a
    value that the log did not give is an empty cell, and the RSSI cell is
    never empty.  When the CSV script raises, the analysis raises the same
    exception on that log. *)
Theorem export_rows (path : string) (lines : list string) :
  (forall records, parse_log path lines = Ok records ->
     BleLogsToCsv.export lines =
       Ok (match records with
           | [] => None
           | _ => Some (map Csv.VStr Csv.header :: map row_of records)
           end) /\
     Forall (fun r => exists v, row_of r !! 4%nat = Some (Csv.VInt v)) records) /\
  (forall e, BleLogsToCsv.export lines = Raise e -> parse_log path lines = Raise e).
Proof.
  split.
  - intros records H. split; [by apply (export_Ok path)|].
    apply parse_log_complete in H.
    eapply Forall_impl; [exact H|]. intros r [v Hv]. exists v. simpl. by rewrite Hv.
  - intros e H. unfold BleLogsToCsv.export in H.
    destruct (BleLogsToCsv.parse_log lines) as [recs|e'] eqn:Hp; [done|].
    simpl in H. injection H as ->. by apply (parse_log_csv_Raise path).
Qed.

Lemma export_rows_witness :
  BleLogsToCsv.export scenario1_log =
    Ok (Some [map Csv.VStr Csv.header;
              [Csv.VInt 990; Csv.VInt 1000; Csv.VInt 5; Csv.VInt 10; Csv.VInt (-60);
               Csv.VStr "A72Aziz"]]).
Proof.
  eassert (H : parse_log "logs/a.log" scenario1_log = Ok _) by (vm_compute; reflexivity).
  exact (proj1 (proj1 (export_rows "logs/a.log" scenario1_log) _ H)).
Defined.

(** *** How the loop body of [main] ends *)

Lemma summary_of_without_counter (records : list record) (expected_count : Z) :
  in_float_range records ->
  Forall (fun r => tx_counter r = None) records ->
  summary_of records expected_count = Raise IndexError.
Proof.
  intros (Hrssi & Hdelta & _) Hnone. unfold summary_of.
  destruct (mean_or_nan_returns (omap rssi_dbm (sorted records))) as [m1 ->];
    [by rewrite sum_omap_sorted|].
  destruct (mean_or_nan_returns (omap delta_ms (sorted records))) as [m2 ->];
    [by rewrite sum_omap_sorted|].
  simpl.
  assert (omap tx_counter (sorted records) = []) as ->; [|done].
  apply (proj2 (Forall_sorted _ _)) in Hnone.
  induction Hnone as [|r l Hr _ IH]; simpl; [done|]. by rewrite Hr.
Qed.

(** X21: how the loop body of [main] ends for a log that parses to
    records whose values are in the range of the float conversions.  When
    every record has a counter, the body raises nothing of its own: it
    reaches its two drawing calls, [plt.plot] with the counters and the
    RSSI values in sorted order and then [plt.hist] with the RSSI values,
    completes when both return, and raises what the first of them raises
    otherwise.  It raises [IndexError] (in [summarize_records]) when no
    record has a counter, and [KeyError] for ["tx_counter"] (in
    [plot_rssi_vs_counter], before anything is drawn) when some records have
    a counter and some have none. *)
Theorem main_file_ends (lib : library) (expected_count : Z) (acc : collected)
    (base path : string) (lines : list string) (records : list record) :
  parse_log path lines = Ok records ->
  records <> [] ->
  in_float_range records ->
  (Forall (fun r => is_Some (tx_counter r)) records ->
   exists acc',
     main_file lib expected_count acc base path lines =
       (_ ← plt_plot lib (omap tx_counter (sorted records))
                         (omap rssi_dbm (sorted records));
        _ ← plt_hist lib (omap rssi_dbm records);
        Done acc')) /\
  (Forall (fun r => tx_counter r = None) records ->
   main_file lib expected_count acc base path lines = Failed (PyExn IndexError)) /\
  ((exists r, r ∈ records /\ is_Some (tx_counter r)) ->
   (exists r, r ∈ records /\ tx_counter r = None) ->
   main_file lib expected_count acc base path lines = Failed (KeyError "tx_counter")).
Proof.
  intros Hp Hne Hrange. unfold main_file. rewrite Hp. cbn [of_result mbind outcome_bind].
  pose proof (parse_log_complete _ _ _ Hp) as Hcomp.
  rewrite summarize_records_nonempty by done.
  assert (Hsome : (exists r, r ∈ records /\ is_Some (tx_counter r)) ->
            exists s, summary_of records expected_count = Ok s).
  { intros Hex. destruct Hrange as (? & ? & ?). by apply summary_of_returns. }
  split_and!.
  - intros Hall.
    destruct Hsome as [s ->].
    { destruct records as [|r0 l]; [done|]. exists r0. split; [by left|].
      by apply Forall_cons in Hall as [? _]. }
    cbn [of_result mbind outcome_bind result_bind].
    unfold plot_rssi_vs_counter, plot_rssi_hist.
    destruct records as [|r0 l]; [done|].
    rewrite (proj2 (items_Done "tx_counter" tx_counter (sorted (r0 :: l)) _)
               (conj (proj2 (Forall_sorted _ _) Hall) eq_refl)).
    rewrite (proj2 (items_Done "rssi_dbm" rssi_dbm (sorted (r0 :: l)) _)
               (conj (proj2 (Forall_sorted _ _) Hcomp) eq_refl)).
    rewrite (proj2 (items_Done "rssi_dbm" rssi_dbm (r0 :: l) _) (conj Hcomp eq_refl)).
    cbn [mbind outcome_bind]. eexists.
    destruct (plt_plot lib (omap tx_counter (sorted (r0 :: l)))
                (omap rssi_dbm (sorted (r0 :: l)))) as [[]|e1]; [|reflexivity].
    destruct (plt_hist lib (omap rssi_dbm (r0 :: l))) as [[]|e2]; reflexivity.
  - intros Hnone. by rewrite summary_of_without_counter.
  - intros Hex Hmiss. destruct (Hsome Hex) as [s ->].
    cbn [of_result mbind outcome_bind result_bind].
    unfold plot_rssi_vs_counter. destruct records as [|r0 l]; [done|].
    rewrite (items_Failed "tx_counter" tx_counter (sorted (r0 :: l))); [done|].
    destruct Hmiss as (r & Hr & Hn). exists r. split; [|done].
    by rewrite sorted_Permutation.
Qed.

Lemma main_file_ends_witness :
  (exists acc', main_file returning 200 nothing "a" "logs/a.log" scenario1_log = Done acc') /\
  main_file returning 200 nothing "r" "logs/r.log" rssi_only_log =
    Failed (PyExn IndexError) /\
  main_file returning 200 nothing "m" "logs/m.log" (scenario1_log ++ rssi_only_log) =
    Failed (KeyError "tx_counter").
Proof.
  eassert (H1 : parse_log "logs/a.log" scenario1_log = Ok _) by (vm_compute; reflexivity).
  eassert (H2 : parse_log "logs/r.log" rssi_only_log = Ok _) by (vm_compute; reflexivity).
  eassert (H3 : parse_log "logs/m.log" (scenario1_log ++ rssi_only_log) = Ok _)
    by (vm_compute; reflexivity).
  assert (Hrange : forall records : list record,
            Forall (fun r => from_option (fun v => Z.abs v < 2 ^ 999) True (tx_unix_ms r))
                   records ->
            Z.abs (sum (omap rssi_dbm records)) < 2 ^ 1000 ->
            Z.abs (sum (omap delta_ms records)) < 2 ^ 1000 ->
            in_float_range records).
  { intros records Hall Hr Hd. split; [exact Hr|]. split; [exact Hd|].
    intros r v Hin Hv. apply (proj1 (Forall_forall _ _) Hall) in Hin.
    by rewrite Hv in Hin. }
  split_and!.
  - destruct (proj1 (main_file_ends returning 200 nothing "a" "logs/a.log" scenario1_log
                       _ H1 ltac:(discriminate)
                       ltac:(apply Hrange; [repeat constructor | reflexivity ..])))
      as [acc' Hacc]; [repeat constructor; by eexists|].
    exists acc'. exact Hacc.
  - apply (proj1 (proj2 (main_file_ends returning 200 nothing "r" "logs/r.log"
                    rssi_only_log _ H2
                    ltac:(discriminate)
                    ltac:(apply Hrange; [repeat constructor | reflexivity ..])))).
    repeat constructor.
  - apply (proj2 (proj2 (main_file_ends returning 200 nothing "m" "logs/m.log"
                    (scenario1_log ++ rssi_only_log) _ H3
                    ltac:(discriminate)
                    ltac:(apply Hrange; [repeat constructor | reflexivity ..])))).
    + eexists. split; [left|]. by eexists.
    + eexists. split; [right; left|]. reflexivity.
Defined.

(** *** The grid of histograms *)

Lemma shape_fits_upto :
  forallb Grid.shape_fits (seqZ 1 1024) = true.
Proof. vm_compute. reflexivity. Qed.

Lemma shape_fits_Ok (n : Z) :
  1 <= n <= 1024 ->
  exists rows cols,
    Grid.shape n = Ok (rows, cols) /\
    n <= rows * cols /\ (rows - 1) * cols < n /\
    (cols - 1) * (cols - 1) < n <= cols * cols.
Proof.
  intros Hn. pose proof shape_fits_upto as H.
  rewrite forallb_forall in H. specialize (H n).
  assert (Hin : In n (seqZ 1 1024)) by (apply list_elem_of_In, elem_of_seqZ; lia).
  apply H in Hin. unfold Grid.shape_fits in Hin.
  destruct (Grid.shape n) as [[rows cols]|e]; [|done].
  exists rows, cols. split; [done|]. unfold Grid.fits in Hin.
  apply andb_prop in Hin as [Hin H4]. apply andb_prop in Hin as [Hin H3].
  apply andb_prop in Hin as [H1 H2]. lia.
Qed.

Lemma draw_axes_in_range (lib : library) (n_axes : Z)
    (hist_data : list (string * list Z)) :
  forall idx,
  idx + Z.of_nat (length hist_data) <= n_axes ->
  Grid.draw_axes lib n_axes idx hist_data = Grid.hist_each lib (map snd hist_data).
Proof.
  induction hist_data as [|[label vals] rest IH]; intros idx Hle; [done|].
  cbn [Grid.draw_axes Grid.hist_each map snd]. simpl length in Hle.
  destruct (Z.ltb_spec idx n_axes); [|lia].
  destruct (plt_hist lib vals) as [[]|e]; [|done]. cbn [mbind outcome_bind].
  apply IH. lia.
Qed.

Lemma hist_each_Done (lib : library) (series : list (list Z)) :
  Forall (fun vals => plt_hist lib vals = Done tt) series ->
  Grid.hist_each lib series = Done tt.
Proof. induction 1 as [|vals rest Hv _ IH]; simpl; [done|]. by rewrite Hv. Qed.

Lemma plot_hist_grid_shape (lib : library) (hist_data : list (string * list Z)) :
  hist_data <> [] -> (length hist_data <= 1024)%nat ->
  exists rows cols,
    Grid.plot_hist_grid lib hist_data =
      (_ ← Grid.hist_each lib (map snd hist_data);
       Done (Some (rows, cols, hist_data,
                   seqZ (Z.of_nat (length hist_data))
                        (rows * cols - Z.of_nat (length hist_data))))) /\
    Z.of_nat (length hist_data) <= rows * cols /\
    (rows - 1) * cols < Z.of_nat (length hist_data) /\
    (cols - 1) * (cols - 1) < Z.of_nat (length hist_data) <= cols * cols.
Proof.
  intros Hne Hlen. unfold Grid.plot_hist_grid.
  destruct (shape_fits_Ok (Z.of_nat (length hist_data))) as (rows & cols & Hs & H1 & H2 & H3).
  { destruct hist_data; [done|]. simpl in *. lia. }
  exists rows, cols. destruct hist_data as [|h hist_data]; [done|].
  rewrite Hs. cbn [of_result mbind outcome_bind].
  by rewrite draw_axes_in_range by lia.
Qed.

(** X22: for up to 1024 histograms, [plot_hist_grid] raises nothing of
    its own: the grid that it asks for has an axis for every histogram, so
    that [axes[idx]] is always in range; it calls [hist] on the series one
    after the other, and returns or raises as these calls do.  No row of the
    grid stays empty (fewer axes are removed than a row has), and the number
    of columns is the least whose square is not below the number of
    histograms. *)
Theorem plot_hist_grid_fits (lib : library) (hist_data : list (string * list Z)) :
  hist_data <> [] -> (length hist_data <= 1024)%nat ->
  exists rows cols removed,
    Grid.plot_hist_grid lib hist_data =
      (_ ← Grid.hist_each lib (map snd hist_data);
       Done (Some (rows, cols, hist_data, removed))) /\
    Z.of_nat (length hist_data + length removed) = rows * cols /\
    Z.of_nat (length removed) < cols /\
    (cols - 1) * (cols - 1) < Z.of_nat (length hist_data) <= cols * cols.
Proof.
  intros Hne Hlen.
  destruct (plot_hist_grid_shape lib hist_data Hne Hlen)
    as (rows & cols & -> & H1 & H2 & H3).
  do 3 eexists. split; [reflexivity|]. rewrite length_seqZ. lia.
Qed.

Lemma plot_hist_grid_fits_witness :
  exists removed,
    Grid.plot_hist_grid returning
      [("a", [-50]); ("b", [-60; -61]); ("c", []); ("d", [-70]); ("e", [-80])] =
      Done (Some (2, 3, [("a", [-50]); ("b", [-60; -61]); ("c", []); ("d", [-70]);
                         ("e", [-80])], removed)) /\
    length removed = 1%nat.
Proof.
  destruct (plot_hist_grid_fits returning
              [("a", [-50]); ("b", [-60; -61]); ("c", []); ("d", [-70]); ("e", [-80])])
    as (rows & cols & removed & H & Hn & _); [discriminate | simpl; lia |].
  assert (H' : Grid.plot_hist_grid returning
                 [("a", [-50]); ("b", [-60; -61]); ("c", []); ("d", [-70]); ("e", [-80])] =
               Done (Some (2, 3, [("a", [-50]); ("b", [-60; -61]); ("c", []); ("d", [-70]);
                                  ("e", [-80])], [5])))
    by (vm_compute; reflexivity).
  rewrite H' in H. simpl in H. injection H as <- <- <-. by exists [5].
Defined.

(** *** The end of [main] *)

Lemma omap_length_le {A B} (f : A -> option B) (l : list A) :
  (length (omap f l) <= length l)%nat.
Proof.
  induction l as [|a l IH]; [done|].
  change (omap f (a :: l)) with
    (match f a with Some y => y :: omap f l | None => omap f l end).
  destruct (f a); simpl; lia.
Qed.

(** X23: the combined figures of [main] for up to 1024 files: when the
    loop over the files completes, [main] completes; the combined line plot
    and the grid of histograms are saved exactly when at least two files gave
    records, the two bar charts exactly when at least one did. *)
Theorem main_figures (lib : library) (files : list (string * string * list string))
    (acc : collected) :
  main_loop lib 200 nothing files = Done acc ->
  (length files <= 1024)%nat ->
  exists figs,
    Grid.main lib files = Done figs /\
    (is_Some (Grid.combined figs) <-> (2 <= length (omap kept_file files))%nat) /\
    (is_Some (Grid.hist_grid figs) <-> (2 <= length (omap kept_file files))%nat) /\
    (is_Some (Grid.mean_bar figs) <-> (1 <= length (omap kept_file files))%nat) /\
    (is_Some (Grid.loss_bar figs) <-> (1 <= length (omap kept_file files))%nat).
Proof.
  intros H Hfiles. unfold Grid.main. rewrite H. cbn [mbind outcome_bind].
  pose proof (main_loop_hist_Done _ _ _ _ _ H) as Hhist.
  apply main_loop_Done in H as (stats & Hlen & _ & _ & Hl & Hh & Hm & Hlo).
  set (kept := omap kept_file files) in *.
  assert (Hk : (length kept <= 1024)%nat).
  { etransitivity; [apply omap_length_le | exact Hfiles]. }
  assert (Hll : length (all_line_data acc) = length kept)
    by (rewrite Hl; simpl; by rewrite length_map).
  assert (Hhl : length (all_hist_data acc) = length kept)
    by (rewrite Hh; simpl; by rewrite length_map).
  assert (Hml : length (all_mean_data acc) = length kept)
    by (rewrite Hm; simpl; rewrite length_zip_with; lia).
  assert (Hlol : length (all_loss_data acc) = length kept)
    by (rewrite Hlo; simpl; rewrite length_zip_with; lia).
  rewrite Hll, Hhl.
  assert (Hgrid : exists g,
            (if 1 <? Z.of_nat (length kept)
             then Grid.plot_hist_grid lib (all_hist_data acc)
             else Done None) = Done g /\
            (is_Some g <-> (2 <= length kept)%nat)).
  { destruct (Z.ltb_spec 1 (Z.of_nat (length kept))) as [Hgt|Hle].
    - destruct (plot_hist_grid_shape lib (all_hist_data acc)) as (rows & cols & -> & _).
      + intros Hnil. rewrite Hnil in Hhl. simpl in Hhl. lia.
      + lia.
      + rewrite hist_each_Done.
        * eexists. split; [reflexivity|]. split; [lia | by eexists].
        * rewrite Hh. simpl. rewrite map_map. simpl. by apply Forall_fmap.
    - exists None. split; [done|]. split; [by intros [? ?] | lia]. }
  destruct Hgrid as (g & -> & Hg). cbn [mbind outcome_bind].
  eexists. split; [reflexivity|]. cbn [Grid.combined Grid.hist_grid Grid.mean_bar Grid.loss_bar].
  split_and!.
  - destruct (Z.ltb_spec 1 (Z.of_nat (length kept))); split; try lia; try (by eexists).
    by intros [? ?].
  - exact Hg.
  - destruct (all_mean_data acc) as [|d ds]; simpl in Hml.
    + split; [by intros [? ?] | lia].
    + split; [lia | by eexists].
  - destruct (all_loss_data acc) as [|d ds]; simpl in Hlol.
    + split; [by intros [? ?] | lia].
    + split; [lia | by eexists].
Qed.

Lemma main_figures_witness :
  exists figs,
    Grid.main returning
      [("a", "logs/a.log", scenario1_log); ("n", "logs/n.log", ["no block"])] =
      Done figs /\
    Grid.combined figs = None /\ Grid.hist_grid figs = None /\
    is_Some (Grid.mean_bar figs) /\ is_Some (Grid.loss_bar figs).
Proof.
  eassert (H : main_loop returning 200 nothing
                 [("a", "logs/a.log", scenario1_log); ("n", "logs/n.log", ["no block"])] =
               Done _) by (vm_compute; reflexivity).
  destruct (main_figures _ _ _ H) as (figs & Hmain & Hc & Hg & Hm & Hl); [simpl; lia|].
  exists figs. split; [exact Hmain|].
  assert (Hk : length (omap kept_file
                 [("a", "logs/a.log", scenario1_log); ("n", "logs/n.log", ["no block"])]) =
               1%nat) by (vm_compute; reflexivity).
  rewrite Hk in Hc, Hg, Hm, Hl. split_and!.
  - destruct (Grid.combined figs); [|done]. assert (2 <= 1)%nat by (apply Hc; by eexists). lia.
  - destruct (Grid.hist_grid figs); [|done]. assert (2 <= 1)%nat by (apply Hg; by eexists). lia.
  - apply Hm. lia.
  - apply Hl. lia.
Defined.

(** *** The two [main] loops *)

(** X24: on every log, and whatever the drawing calls do, the loop body
    of [main] of [analyze_ble_logs.py] ends as the loop body of [main] of
    [analyze_ble_logs_combine.py] does: both complete, or both raise the
    same exception. *)
Theorem analyze_file_ends_like_main_file (lib : library) (acc : collected)
    (base path : string) (lines : list string) :
  analyze_file lib path lines =
    match main_file lib 200 acc base path lines with
    | Done _ => Done tt
    | Failed e => Failed e
    end.
Proof.
  unfold analyze_file, main_file.
  destruct (parse_log path lines) as [records|e]; [|done].
  cbn [of_result mbind outcome_bind].
  destruct records as [|r0 l]; [done|].
  unfold AnalyzeBleLogs.summarize_records, AnalyzeBleLogsCombine.summarize_records.
  destruct (summary_of (r0 :: l) 200) as [s|e]; [|done].
  cbn [of_result mbind outcome_bind result_bind].
  unfold plot_rssi_vs_counter.
  destruct (items "tx_counter" tx_counter (sorted (r0 :: l))) as [xs|e]; [|done].
  cbn [mbind outcome_bind].
  destruct (items "rssi_dbm" rssi_dbm (sorted (r0 :: l))) as [ys|e]; [|done].
  cbn [mbind outcome_bind].
  destruct (plt_plot lib xs ys) as [[]|e]; [|done].
  cbn [mbind outcome_bind].
  by destruct (plot_rssi_hist lib (r0 :: l)).
Qed.
